(** * Fitness coach prompt chaining: structured-output recovery

    A shallow embedding of [src/app.py] (class [FitnessCoach]) and of the
    parts of the Python standard library it calls ([str] methods, the [re]
    patterns it uses, [json.loads] and [json.dumps]).

    - Python [str] is a sequence of Unicode code points: [str := list N].
    - [re] is embedded as a small backtracking matcher over the constructs
      the five patterns of [fix_json] use.
    - [json.loads] is the recursive-descent scanner of CPython's [json]
      module, on fuel; [json.dumps] is the [indent=2, ensure_ascii=False]
      encoder.
    - Python [float] is an interface ([PyFloat]); the development is generic
      in it.
    - Exceptions are explicit: a computation is [Ok v] or [Raise e].
    - The pipeline ([chain1_planning], [chain2_execution], [generate],
      [main]) runs against oracles for the completion service and the file
      system and produces a trace of events.
    - The console is UTF-8: [print] fails on a lone surrogate only.
    - The recursion limit of the interpreter and [KeyboardInterrupt] are
      outside the model: nesting is as deep as the text, and a run is not
      interrupted. *)

From Stdlib Require Import ZArith NArith Ascii String Bool Lia Arith List.
From Stdlib Require Decimal DecimalZ.
Import ListNotations.

Set Warnings "-register-all".
Set Warnings "-native-compiler-disabled".

(** ** Python strings *)

Definition char := N.
Definition str := list char.

Definition ch (a : ascii) : char := N_of_ascii a.
Arguments ch : simpl never.

Definition py (s : string) : str := map N_of_ascii (list_ascii_of_string s).
Arguments py s%_string.

(** A literal in which the character [q] stands for the double quote. *)
Definition py_quoted (q : ascii) (s : string) : str :=
  map (fun a => if Ascii.eqb a q then 34%N else N_of_ascii a)
      (list_ascii_of_string s).
Arguments py_quoted q%_char s%_string.

Definition pyq (s : string) : str := py_quoted "'" s.
Arguments pyq s%_string.

Definition LF : char := 10%N.
Definition DQUOTE : char := 34%N.
Definition BACKSLASH : char := 92%N.
Definition CR : char := 13%N.

Definition char_eqb (a b : char) : bool := N.eqb a b.

Fixpoint str_eqb (a b : str) : bool :=
  match a, b with
  | [], [] => true
  | x :: a', y :: b' => char_eqb x y && str_eqb a' b'
  | _, _ => false
  end.

Definition in_chars (c : char) (cs : str) : bool := existsb (char_eqb c) cs.

(** [str.isspace] on one character, which is also the class [\s] of a
    Unicode pattern. *)
Definition isspace (c : char) : bool :=
  ((9 <=? c) && (c <=? 13) || (28 <=? c) && (c <=? 32)
   || (c =? 133) || (c =? 160) || (c =? 5760)
   || (8192 <=? c) && (c <=? 8202)
   || (c =? 8232) || (c =? 8233) || (c =? 8239) || (c =? 8287)
   || (c =? 12288))%N.

Fixpoint lstrip_by (p : char -> bool) (s : str) : str :=
  match s with
  | c :: t => if p c then lstrip_by p t else s
  | [] => []
  end.

Definition rstrip_by (p : char -> bool) (s : str) : str :=
  rev (lstrip_by p (rev s)).

Definition strip_by (p : char -> bool) (s : str) : str :=
  rstrip_by p (lstrip_by p s).

(** [s.strip()], [s.rstrip()] and [s.strip(chars)]. *)
Definition strip (s : str) : str := strip_by isspace s.
Definition rstrip (s : str) : str := rstrip_by isspace s.
Definition strip_chars (cs : str) (s : str) : str :=
  strip_by (fun c => in_chars c cs) s.

(** Line boundaries of [str.splitlines]. *)
Definition is_linebreak (c : char) : bool :=
  ((10 <=? c) && (c <=? 13) || (28 <=? c) && (c <=? 30)
   || (c =? 133) || (c =? 8232) || (c =? 8233))%N.

(** [splitlines_from cur s]: [cur] is the current line, reversed. *)
Fixpoint splitlines_from (cur : str) (s : str) : list str :=
  match s with
  | [] => match cur with [] => [] | _ => [rev cur] end
  | c :: t =>
      if is_linebreak c then
        match t with
        | c' :: t' =>
            if char_eqb c CR && char_eqb c' LF
            then rev cur :: splitlines_from [] t'
            else rev cur :: splitlines_from [] t
        | [] => [rev cur]
        end
      else splitlines_from (c :: cur) t
  end.

Definition splitlines (s : str) : list str := splitlines_from [] s.

Fixpoint startswith (p s : str) : bool :=
  match p, s with
  | [], _ => true
  | x :: p', y :: s' => char_eqb x y && startswith p' s'
  | _ :: _, [] => false
  end.

(** [s.find(c)] for a one-character needle; [None] stands for [-1]. *)
Fixpoint find_char (c : char) (s : str) : option nat :=
  match s with
  | [] => None
  | x :: t => if char_eqb x c then Some 0
              else option_map S (find_char c t)
  end.

Definition count_char (c : char) (s : str) : nat :=
  length (filter (char_eqb c) s).

(** [sub in s]. *)
Fixpoint contains (sub s : str) : bool :=
  startswith sub s ||
  match s with
  | [] => false
  | _ :: t => contains sub t
  end.

(** [s[a:b]] for [0 <= a <= b]. *)
Definition slice (a b : nat) (s : str) : str := firstn (b - a) (skipn a s).

Definition repeat_char (c : char) (n : nat) : str := repeat c n.

Fixpoint join (sep : str) (parts : list str) : str :=
  match parts with
  | [] => []
  | [p] => p
  | p :: ps => p ++ sep ++ join sep ps
  end.

(** [s.replace(old, new)] for non-empty [old]: the occurrences are replaced
    from the left, without overlap.  [skip] counts the characters of an
    occurrence still to be dropped. *)
Fixpoint replace_from (old new : str) (skip : nat) (s : str) : str :=
  match s with
  | [] => []
  | c :: t =>
      match skip with
      | S n => replace_from old new n t
      | O => if startswith old s
             then new ++ replace_from old new (length old - 1) t
             else c :: replace_from old new 0 t
      end
  end.

Definition replace (old new s : str) : str := replace_from old new 0 s.

(** ** The regular expressions of [fix_json]

    A backtracking matcher in continuation-passing style, with the greedy
    semantics of [re].  The patterns of [fix_json] star only character
    classes, so that is the only repetition. *)

Inductive regex : Type :=
| Lit (c : char)
| LitI (c : char)
| Class (p : char -> bool)
| Seq (r1 r2 : regex)
| Alt (r1 r2 : regex)
| Opt (r : regex)
| StarClass (p : char -> bool)
| Bol
| Eol
| Group (r : regex).

(** A position of a match: whether it is position 0, what is left of the
    subject, and the text of group 1. *)
Record mstate : Type := MState {
  at_start : bool;
  rest : str;
  group1 : option str
}.

(** Matching a lower-case ASCII letter of the pattern under [re.IGNORECASE]:
    the letter, its upper case, and the characters [re] treats as
    equivalent ([i]: U+0130, U+0131; [k]: U+212A; [s]: U+017F). *)
Definition ignorecase_eqb (p c : char) : bool :=
  ((c =? p) || (c =? p - 32)
   || (p =? 105) && ((c =? 304) || (c =? 305))
   || (p =? 107) && (c =? 8490)
   || (p =? 115) && (c =? 383))%N.

Definition eat (p : char -> bool) (st : mstate)
    (k : mstate -> option mstate) : option mstate :=
  match rest st with
  | c :: t => if p c then k (MState false t (group1 st)) else None
  | [] => None
  end.

(** Greedy [[class]*]: take as many as possible, give back one at a time. *)
Fixpoint star_class (p : char -> bool) (g : option str) (b : bool) (s : str)
    (k : mstate -> option mstate) : option mstate :=
  match s with
  | c :: t =>
      if p c then
        match star_class p g false t k with
        | Some r => Some r
        | None => k (MState b s g)
        end
      else k (MState b s g)
  | [] => k (MState b [] g)
  end.

Fixpoint rmatch (r : regex) (st : mstate)
    (k : mstate -> option mstate) : option mstate :=
  match r with
  | Lit c => eat (char_eqb c) st k
  | LitI c => eat (ignorecase_eqb c) st k
  | Class p => eat p st k
  | Seq r1 r2 => rmatch r1 st (fun st' => rmatch r2 st' k)
  | Alt r1 r2 =>
      match rmatch r1 st k with
      | Some r => Some r
      | None => rmatch r2 st k
      end
  | Opt r1 =>
      match rmatch r1 st k with
      | Some r => Some r
      | None => k st
      end
  | StarClass p => star_class p (group1 st) (at_start st) (rest st) k
  | Bol => if at_start st then k st else None
  | Eol =>
      match rest st with
      | [] => k st
      | [c] => if char_eqb c LF then k st else None
      | _ => None
      end
  | Group r1 =>
      rmatch r1 st (fun st' =>
        k (MState (at_start st') (rest st')
             (Some (firstn (length (rest st) - length (rest st')) (rest st)))))
  end.

(** One attempt at a given position. *)
Definition match_here (r : regex) (b : bool) (s : str) : option mstate :=
  rmatch r (MState b s None) (fun st => Some st).

(** [re.sub(r, repl, s)]: [repl] computes the replacement from the match. *)
Fixpoint sub_from (r : regex) (repl : mstate -> str) (b : bool) (skip : nat)
    (s : str) : str :=
  match skip with
  | S n =>
      match s with
      | _ :: t => sub_from r repl false n t
      | [] => []
      end
  | O =>
      match match_here r b s with
      | Some st =>
          repl st ++
          match length s - length (rest st), s with
          | S n, _ :: t => sub_from r repl false n t
          | O, c :: t => c :: sub_from r repl false 0 t
          | _, [] => []
          end
      | None =>
          match s with
          | c :: t => c :: sub_from r repl false 0 t
          | [] => []
          end
      end
  end.

Definition re_sub (r : regex) (repl : mstate -> str) (s : str) : str :=
  sub_from r repl true 0 s.

(** [re.search(r, s)], giving group 1 of the leftmost match. *)
Fixpoint search_from (r : regex) (b : bool) (s : str) : option str :=
  match match_here r b s with
  | Some st => Some (match group1 st with Some g => g | None => [] end)
  | None =>
      match s with
      | _ :: t => search_from r false t
      | [] => None
      end
  end.

Definition re_search (r : regex) (s : str) : option str := search_from r true s.

Fixpoint lits (s : str) : regex :=
  match s with
  | [] => StarClass (fun _ => false)
  | [c] => Lit c
  | c :: t => Seq (Lit c) (lits t)
  end.

Definition repl_empty (_ : mstate) : str := [].
Definition repl_group1 (st : mstate) : str :=
  match group1 st with Some g => g | None => [] end.

Definition any_char (_ : char) : bool := true.

(** [r"^```(?:json)?\s*"] with [re.IGNORECASE]. *)
Definition re_fence_open : regex :=
  Seq Bol (Seq (lits (py "```"))
    (Seq (Opt (Seq (LitI (ch "j")) (Seq (LitI (ch "s"))
                 (Seq (LitI (ch "o")) (LitI (ch "n"))))))
         (StarClass isspace))).

(** [r"\s*```$"]. *)
Definition re_fence_close : regex :=
  Seq (StarClass isspace) (Seq (lits (py "```")) Eol).

(** [r"```$"]. *)
Definition re_fence_tail : regex := Seq (lits (py "```")) Eol.

(** [r",\s*(\]|\})"]. *)
Definition re_trailing_comma : regex :=
  Seq (Lit (ch ",")) (Seq (StarClass isspace)
    (Group (Alt (Lit (ch "]")) (Lit (ch "}"))))).

(** [r"(\{[\s\S]*\})"]. *)
Definition re_outer_braces : regex :=
  Group (Seq (Lit (ch "{")) (Seq (StarClass any_char) (Lit (ch "}")))).

(** ** Exceptions *)

Inductive exn : Type :=
| JSONDecodeError
| ValueError (msg : str)
| UnicodeEncodeError
| AttributeFailure
| ServiceError (code : nat)
| OSError.

Inductive res (A : Type) : Type :=
| Ok (a : A)
| Raise (e : exn).
Arguments Ok {A} a.
Arguments Raise {A} e.

Definition is_ok {A : Type} (r : res A) : bool :=
  match r with Ok _ => true | Raise _ => false end.

(** ** The console

    [print(text)] encodes the text for the standard output, which is taken
    to be UTF-8 with strict error handling, the default of the interpreter:
    every code point is encoded but a surrogate, on which [print] raises
    [UnicodeEncodeError]. *)

Definition is_surrogate (c : char) : bool :=
  ((55296 <=? c) && (c <=? 57343))%N.

Definition printable (text : str) : bool :=
  forallb (fun c => negb (is_surrogate c)) text.

Definition print (text : str) : res unit :=
  if printable text then Ok tt else Raise UnicodeEncodeError.

(** ** The lexical layer of [json.decoder] *)

Definition is_digit (c : char) : bool := ((48 <=? c) && (c <=? 57))%N.

Definition json_ws (c : char) : bool :=
  ((c =? 32) || (c =? 9) || (c =? 10) || (c =? 13))%N.

Definition skip_ws (s : str) : str := lstrip_by json_ws s.

Fixpoint span (p : char -> bool) (s : str) : str * str :=
  match s with
  | c :: t => if p c then let (a, b) := span p t in (c :: a, b) else ([], s)
  | [] => ([], [])
  end.

(** [NUMBER_RE] has three groups: the integer (an optional minus sign, then
    either 0 or a digit from 1 to 9 followed by digits), the optional
    fraction (a dot and at least one digit) and the optional exponent (e or
    E, an optional sign, at least one digit).  One function per group; each
    gives the group and what follows it. *)
Definition match_integer (s : str) : option (str * str) :=
  let '(sign, s1) :=
    match s with
    | c :: t => if char_eqb c (ch "-") then ([c], t) else ([], s)
    | [] => ([], s)
    end in
  match s1 with
  | c :: t =>
      if char_eqb c (ch "0") then Some (sign ++ [c], t)
      else if is_digit c then
        let (ds, r) := span is_digit t in Some (sign ++ c :: ds, r)
      else None
  | [] => None
  end.

Definition match_frac (s : str) : str * str :=
  match s with
  | c :: t =>
      if char_eqb c (ch ".") then
        match span is_digit t with
        | ([], _) => ([], s)
        | (ds, r) => (c :: ds, r)
        end
      else ([], s)
  | [] => ([], s)
  end.

Definition match_exp (s : str) : str * str :=
  match s with
  | c :: t =>
      if char_eqb c (ch "e") || char_eqb c (ch "E") then
        let '(sg, t1) :=
          match t with
          | x :: t' =>
              if char_eqb x (ch "+") || char_eqb x (ch "-")
              then ([x], t') else ([], t)
          | [] => ([], t)
          end in
        match span is_digit t1 with
        | ([], _) => ([], s)
        | (ds, r) => (c :: sg ++ ds, r)
        end
      else ([], s)
  | [] => ([], s)
  end.

Definition match_number (s : str) : option (str * str * str * str) :=
  match match_integer s with
  | Some (i, r) =>
      let (fr, r1) := match_frac r in
      let (ex, r2) := match_exp r1 in
      Some (i, fr, ex, r2)
  | None => None
  end.

(** [int(text)] on the integer group, and [int.__repr__]. *)
Definition digit_of (c : char) (u : Decimal.uint) : Decimal.uint :=
  match (c - 48)%N with
  | 0%N => Decimal.D0 u | 1%N => Decimal.D1 u | 2%N => Decimal.D2 u
  | 3%N => Decimal.D3 u | 4%N => Decimal.D4 u | 5%N => Decimal.D5 u
  | 6%N => Decimal.D6 u | 7%N => Decimal.D7 u | 8%N => Decimal.D8 u
  | _ => Decimal.D9 u
  end.

Definition uint_of_digits (s : str) : Decimal.uint :=
  fold_right digit_of Decimal.Nil s.

Definition int_of_text (s : str) : Z :=
  match s with
  | c :: t => if char_eqb c (ch "-")
              then Z.of_int (Decimal.Neg (uint_of_digits t))
              else Z.of_int (Decimal.Pos (uint_of_digits s))
  | [] => 0%Z
  end.

Fixpoint digits_of_uint (u : Decimal.uint) : str :=
  match u with
  | Decimal.Nil => []
  | Decimal.D0 u' => 48%N :: digits_of_uint u'
  | Decimal.D1 u' => 49%N :: digits_of_uint u'
  | Decimal.D2 u' => 50%N :: digits_of_uint u'
  | Decimal.D3 u' => 51%N :: digits_of_uint u'
  | Decimal.D4 u' => 52%N :: digits_of_uint u'
  | Decimal.D5 u' => 53%N :: digits_of_uint u'
  | Decimal.D6 u' => 54%N :: digits_of_uint u'
  | Decimal.D7 u' => 55%N :: digits_of_uint u'
  | Decimal.D8 u' => 56%N :: digits_of_uint u'
  | Decimal.D9 u' => 57%N :: digits_of_uint u'
  end.

Definition int_repr (z : Z) : str :=
  match Z.to_int z with
  | Decimal.Pos u => digits_of_uint u
  | Decimal.Neg u => ch "-" :: digits_of_uint u
  end.

(** The limit of the interpreter on the digits of an integer converted
    from a string ([sys.get_int_max_str_digits()], 4300 unless the
    interpreter is started with another value): [int(text)] raises
    [ValueError] on a literal with more digits. *)
Definition int_max_str_digits : N := 4300.

Definition digit_count (text : str) : nat := length (filter is_digit text).

Definition int_digits_ok (text : str) : bool :=
  (N.of_nat (digit_count text) <=? int_max_str_digits)%N.

Definition int_digits_error (text : str) : exn :=
  ValueError
    (py "Exceeds the limit (4300 digits) for integer string conversion: value has "
     ++ int_repr (Z.of_nat (digit_count text)) ++
     py " digits; use sys.set_int_max_str_digits() to increase the limit").

(** The string scanner, called after the opening quote (strict mode). *)
Definition hex_digit (c : char) : option N :=
  if is_digit c then Some (c - 48)%N
  else if ((97 <=? c) && (c <=? 102))%N then Some (c - 87)%N
  else if ((65 <=? c) && (c <=? 70))%N then Some (c - 55)%N
  else None.

Definition hex4 (a b c d : char) : option N :=
  match hex_digit a, hex_digit b, hex_digit c, hex_digit d with
  | Some x, Some y, Some z, Some w => Some (((x * 16 + y) * 16 + z) * 16 + w)%N
  | _, _, _, _ => None
  end.

Definition is_high_surrogate (u : N) : bool :=
  ((55296 <=? u) && (u <=? 56319))%N.
Definition is_low_surrogate (u : N) : bool :=
  ((56320 <=? u) && (u <=? 57343))%N.
Definition join_surrogates (u1 u2 : N) : N :=
  (65536 + ((u1 - 55296) * 1024 + (u2 - 56320)))%N.

Definition unescape (c : char) : option char :=
  if char_eqb c DQUOTE then Some DQUOTE
  else if char_eqb c BACKSLASH then Some BACKSLASH
  else if char_eqb c (ch "/") then Some (ch "/")
  else if char_eqb c (ch "b") then Some 8%N
  else if char_eqb c (ch "f") then Some 12%N
  else if char_eqb c (ch "n") then Some 10%N
  else if char_eqb c (ch "r") then Some 13%N
  else if char_eqb c (ch "t") then Some 9%N
  else None.

Fixpoint scanstring (s : str) : option (str * str) :=
  let cons_to c r :=
    match r with
    | Some (x, rest) => Some (c :: x, rest)
    | None => None
    end in
  match s with
  | [] => None
  | c :: t =>
      if char_eqb c DQUOTE then Some ([], t)
      else if char_eqb c BACKSLASH then
        match t with
        | e :: t1 =>
            if char_eqb e (ch "u") then
              match t1 with
              | h1 :: h2 :: h3 :: h4 :: t2 =>
                  match hex4 h1 h2 h3 h4 with
                  | Some u =>
                      if is_high_surrogate u then
                        match t2 with
                        | b :: v :: t3 =>
                            if char_eqb b BACKSLASH && char_eqb v (ch "u") then
                              match t3 with
                              | k1 :: k2 :: k3 :: k4 :: t4 =>
                                  match hex4 k1 k2 k3 k4 with
                                  | Some u2 =>
                                      if is_low_surrogate u2
                                      then cons_to (join_surrogates u u2)
                                             (scanstring t4)
                                      else cons_to u (scanstring t2)
                                  | None => None
                                  end
                              | _ => None
                              end
                            else cons_to u (scanstring t2)
                        | _ => cons_to u (scanstring t2)
                        end
                      else cons_to u (scanstring t2)
                  | None => None
                  end
              | _ => None
              end
            else
              match unescape e with
              | Some x => cons_to x (scanstring t1)
              | None => None
              end
        | [] => None
        end
      else if (c <=? 31)%N then None
      else cons_to c (scanstring t)
  end.

(** [encode_basestring]: the escapes of [json.encoder] without
    [ensure_ascii]. *)
Definition hex_char (n : N) : char :=
  if (n <? 10)%N then (48 + n)%N else (87 + n)%N.

Definition escape_char (c : char) : str :=
  if char_eqb c DQUOTE then [BACKSLASH; DQUOTE]
  else if char_eqb c BACKSLASH then py "\\"
  else if char_eqb c 8%N then py "\b"
  else if char_eqb c 12%N then py "\f"
  else if char_eqb c 10%N then py "\n"
  else if char_eqb c 13%N then py "\r"
  else if char_eqb c 9%N then py "\t"
  else if (c <? 32)%N then
    py "\u00" ++ [hex_char (c / 16); hex_char (c mod 16)]
  else [c].

Definition encode_basestring (s : str) : str :=
  DQUOTE :: flat_map escape_char s ++ [DQUOTE].

(** The result of a scanner: a value and the rest of the text, the error
    of the decoder, another exception, or not enough fuel. *)
Inductive scan (A : Type) : Type :=
| Scanned (a : A) (rest : str)
| ScanError
| ScanRaise (e : exn)
| OutOfFuel.
Arguments Scanned {A} a rest.
Arguments ScanError {A}.
Arguments ScanRaise {A} e.
Arguments OutOfFuel {A}.

(** ** Python floats

    [float] is taken as an interface: the conversion of a number literal,
    the three constants of [parse_constant], and the text [json.encoder]
    writes for a float ([NaN], [Infinity], [-Infinity], or
    [float.__repr__]).  The one law is that this text reads back: [repr] of
    a finite float is a number literal with a fraction or an exponent, which
    converts to the same float. *)

Definition is_digits (s : str) : bool :=
  match s with [] => false | _ => forallb is_digit s end.

Definition is_integer_text (s : str) : bool :=
  let ds := match s with
            | c :: t => if char_eqb c (ch "-") then t else s
            | [] => s
            end in
  match ds with
  | c :: t => is_digits ds && (negb (char_eqb c (ch "0")) || str_eqb t [])
  | [] => false
  end.

Definition is_frac_text (s : str) : bool :=
  match s with
  | [] => true
  | c :: t => char_eqb c (ch ".") && is_digits t
  end.

Definition is_exp_text (s : str) : bool :=
  match s with
  | [] => true
  | c :: t =>
      (char_eqb c (ch "e") || char_eqb c (ch "E")) &&
      match t with
      | x :: t' =>
          if char_eqb x (ch "+") || char_eqb x (ch "-")
          then is_digits t' else is_digits t
      | [] => false
      end
  end.

Class PyFloat : Type := {
  pyfloat : Type;
  float_of_literal : str -> pyfloat;
  float_nan : pyfloat;
  float_inf : pyfloat;
  float_neg_inf : pyfloat;
  floatstr : pyfloat -> str;
  floatstr_reads_back : forall f : pyfloat,
    (floatstr f = py "NaN" /\ f = float_nan) \/
    (floatstr f = py "Infinity" /\ f = float_inf) \/
    (floatstr f = py "-Infinity" /\ f = float_neg_inf) \/
    (exists i fr ex,
        floatstr f = i ++ fr ++ ex /\
        is_integer_text i = true /\ is_frac_text fr = true /\
        is_exp_text ex = true /\ (fr <> [] \/ ex <> []) /\
        float_of_literal (i ++ fr ++ ex) = f)
}.

(** An instance with no finite floats at all: every float is NaN. *)
Definition NanFloat : PyFloat.
Proof.
  refine {| pyfloat := unit;
            float_of_literal := fun _ => tt;
            float_nan := tt; float_inf := tt; float_neg_inf := tt;
            floatstr := fun _ => py "NaN" |}.
  intros []; left; split; reflexivity.
Defined.

Section Coach.

Context {F : PyFloat}.

(** ** JSON values as Python objects

    A [dict] keeps its keys in insertion order; it is an association list
    whose keys are distinct. *)

Inductive value : Type :=
| PyNone
| PyBool (b : bool)
| PyInt (z : Z)
| PyFloatV (f : pyfloat)
| PyStr (s : str)
| PyList (l : list value)
| PyDict (d : list (str * value)).

(** [d[k] = v]. *)
Fixpoint dict_set (d : list (str * value)) (k : str) (v : value)
    : list (str * value) :=
  match d with
  | [] => [(k, v)]
  | (k', v') :: d' =>
      if str_eqb k' k then (k', v) :: d' else (k', v') :: dict_set d' k v
  end.

(** [dict(pairs)]. *)
Definition dict_of_pairs (pairs : list (str * value)) : list (str * value) :=
  fold_left (fun d kv => dict_set d (fst kv) (snd kv)) pairs [].

(** ** [json.loads] *)

(** [scan_once] with [JSONObject] and [JSONArray].  [object_pairs] starts
    where a key must start, [array_items] where an item must start. *)
Fixpoint scan_once (fuel : nat) (s : str) : scan value :=
  match fuel with
  | O => OutOfFuel
  | S n =>
      match s with
      | [] => ScanError
      | c :: t =>
          if char_eqb c DQUOTE then
            match scanstring t with
            | Some (x, r) => Scanned (PyStr x) r
            | None => ScanError
            end
          else if char_eqb c (ch "{") then
            match skip_ws t with
            | c' :: r =>
                if char_eqb c' (ch "}") then Scanned (PyDict []) r
                else
                  match object_pairs n (c' :: r) with
                  | Scanned ps r' => Scanned (PyDict (dict_of_pairs ps)) r'
                  | ScanError => ScanError
                  | ScanRaise e => ScanRaise e
                  | OutOfFuel => OutOfFuel
                  end
            | [] => ScanError
            end
          else if char_eqb c (ch "[") then
            match skip_ws t with
            | c' :: r =>
                if char_eqb c' (ch "]") then Scanned (PyList []) r
                else
                  match array_items n (c' :: r) with
                  | Scanned l r' => Scanned (PyList l) r'
                  | ScanError => ScanError
                  | ScanRaise e => ScanRaise e
                  | OutOfFuel => OutOfFuel
                  end
            | [] => ScanError
            end
          else if startswith (py "null") s then Scanned PyNone (skipn 4 s)
          else if startswith (py "true") s then
            Scanned (PyBool true) (skipn 4 s)
          else if startswith (py "false") s then
            Scanned (PyBool false) (skipn 5 s)
          else
            match match_number s with
            | Some (i, fr, ex, r) =>
                match fr, ex with
                | [], [] =>
                    if int_digits_ok i then Scanned (PyInt (int_of_text i)) r
                    else ScanRaise (int_digits_error i)
                | _, _ => Scanned (PyFloatV (float_of_literal (i ++ fr ++ ex))) r
                end
            | None =>
                if startswith (py "NaN") s then
                  Scanned (PyFloatV float_nan) (skipn 3 s)
                else if startswith (py "Infinity") s then
                  Scanned (PyFloatV float_inf) (skipn 8 s)
                else if startswith (py "-Infinity") s then
                  Scanned (PyFloatV float_neg_inf) (skipn 9 s)
                else ScanError
            end
      end
  end

with object_pairs (fuel : nat) (s : str) : scan (list (str * value)) :=
  match fuel with
  | O => OutOfFuel
  | S n =>
      match s with
      | c :: t =>
          if char_eqb c DQUOTE then
            match scanstring t with
            | Some (key, r) =>
                match skip_ws r with
                | c1 :: r1 =>
                    if char_eqb c1 (ch ":") then
                      match scan_once n (skip_ws r1) with
                      | Scanned v r2 =>
                          match skip_ws r2 with
                          | c3 :: r3 =>
                              if char_eqb c3 (ch "}")
                              then Scanned [(key, v)] r3
                              else if char_eqb c3 (ch ",") then
                                match object_pairs n (skip_ws r3) with
                                | Scanned ps r4 => Scanned ((key, v) :: ps) r4
                                | ScanError => ScanError
                                | ScanRaise e => ScanRaise e
                                | OutOfFuel => OutOfFuel
                                end
                              else ScanError
                          | [] => ScanError
                          end
                      | ScanError => ScanError
                      | ScanRaise e => ScanRaise e
                      | OutOfFuel => OutOfFuel
                      end
                    else ScanError
                | [] => ScanError
                end
            | None => ScanError
            end
          else ScanError
      | [] => ScanError
      end
  end

with array_items (fuel : nat) (s : str) : scan (list value) :=
  match fuel with
  | O => OutOfFuel
  | S n =>
      match scan_once n s with
      | Scanned v r =>
          match skip_ws r with
          | c :: r1 =>
              if char_eqb c (ch "]") then Scanned [v] r1
              else if char_eqb c (ch ",") then
                match array_items n (skip_ws r1) with
                | Scanned l r2 => Scanned (v :: l) r2
                | ScanError => ScanError
                | ScanRaise e => ScanRaise e
                | OutOfFuel => OutOfFuel
                end
              else ScanError
          | [] => ScanError
          end
      | ScanError => ScanError
      | ScanRaise e => ScanRaise e
      | OutOfFuel => OutOfFuel
      end
  end.

(** Enough fuel for a text: every call of the scanner consumes a
    character before the next call. *)
Definition fuel_for (s : str) : nat := 2 * length s + 2.

(** [json.loads(s)] for a [str]: a byte-order mark is refused, white space
    is skipped on both sides, anything left over is an error.  An integer
    literal over the limit of digits raises [ValueError], not the error of
    the decoder.  The recursion limit of the interpreter is left out:
    nesting is as deep as the text. *)
Definition loads (s : str) : res value :=
  if startswith [65279%N] s then Raise JSONDecodeError
  else
    match scan_once (fuel_for s) (skip_ws s) with
    | Scanned v r =>
        match skip_ws r with
        | [] => Ok v
        | _ :: _ => Raise JSONDecodeError
        end
    | ScanError => Raise JSONDecodeError
    | ScanRaise e => Raise e
    | OutOfFuel => Raise JSONDecodeError
    end.

(** ** [json.dumps(obj, ensure_ascii=False, indent=2)]

    The values this program serializes come from [loads] or are built from
    lines of text, so their integers are within the limit of digits, and
    [int.__repr__] does not raise on them. *)

Definition newline_indent (level : nat) : str :=
  LF :: concat (repeat (py "  ") level).

Fixpoint encode (level : nat) (v : value) : str :=
  match v with
  | PyNone => py "null"
  | PyBool true => py "true"
  | PyBool false => py "false"
  | PyInt z => int_repr z
  | PyFloatV f => floatstr f
  | PyStr s => encode_basestring s
  | PyList [] => py "[]"
  | PyList l =>
      ch "[" :: newline_indent (S level) ++
      join (ch "," :: newline_indent (S level)) (map (encode (S level)) l) ++
      newline_indent level ++ [ch "]"]
  | PyDict [] => py "{}"
  | PyDict d =>
      ch "{" :: newline_indent (S level) ++
      join (ch "," :: newline_indent (S level))
        (map (fun kv => encode_basestring (fst kv) ++ py ": " ++
                        encode (S level) (snd kv)) d) ++
      newline_indent level ++ [ch "}"]
  end.

Definition dumps (v : value) : str := encode 0 v.

(** ** [FitnessCoach.fix_json] *)

(** The scan for the brace that closes the first one: the [for] loop over
    [range(start, len(s))], given the text from [start] on. *)
Fixpoint brace_scan (depth : Z) (i : nat) (s : str) : option nat :=
  match s with
  | [] => None
  | c :: t =>
      if char_eqb c (ch "{") then brace_scan (depth + 1) (S i) t
      else if char_eqb c (ch "}") then
        let depth := (depth - 1)%Z in
        if (depth =? 0)%Z then Some i else brace_scan depth (S i) t
      else brace_scan depth (S i) t
  end.

(** The loop of [close_open_quotes]: [before] is the text before the
    current position, nearest character first, so that the inner [while]
    counts the backslashes at its head. *)
Fixpoint count_unescaped_quotes (before : str) (text : str) : nat :=
  match text with
  | [] => 0
  | c :: t =>
      (if char_eqb c DQUOTE &&
          Nat.even (length (fst (span (char_eqb BACKSLASH) before)))
       then 1 else 0) + count_unescaped_quotes (c :: before) t
  end.

Definition close_open_quotes (text : str) : str :=
  if Nat.odd (count_unescaped_quotes [] text)
  then text ++ [DQUOTE] else text.

(** [try: parsed = json.loads(c); return json.dumps(parsed, ...)] with
    [except Exception: pass]: [None] is falling through. *)
Definition try_parse (candidate : str) : option str :=
  match loads candidate with
  | Ok parsed => Some (dumps parsed)
  | Raise _ => None
  end.

(** The first four statements: the text every strategy works on. *)
Definition cleaned (json_str : option str) : str :=
  let s := strip (match json_str with Some x => x | None => [] end) in
  let s := re_sub re_fence_open repl_empty s in
  let s := re_sub re_fence_close repl_empty s in
  strip s.

(** Strategy 2: the substring up to the brace closing the first one. *)
Definition balanced_candidate (s : str) (start : nat) : option str :=
  match brace_scan 0 start (skipn start s) with
  | Some end_index => Some (slice start (end_index + 1) s)
  | None => None
  end.

(** Strategy 3: the repairs of the text from the first brace on. *)
Definition pad_braces (candidate : str) : str :=
  let open_braces := count_char (ch "{") candidate in
  let close_braces := count_char (ch "}") candidate in
  if close_braces <? open_braces
  then candidate ++ repeat_char (ch "}") (open_braces - close_braces)
  else candidate.

Definition repaired_candidate (s : str) (start : nat) : str :=
  let candidate := skipn start s in
  let candidate := rstrip (re_sub re_fence_tail repl_empty candidate) in
  let candidate := close_open_quotes candidate in
  let candidate := pad_braces candidate in
  re_sub re_trailing_comma repl_group1 candidate.

(** Strategy 4: the lines that are long enough. *)
Definition candidate_lines (s : str) : list str :=
  let inner := strip (re_sub re_fence_open repl_empty s) in
  let inner := strip (re_sub re_fence_close repl_empty inner) in
  let inner := if startswith (py "{") inner then skipn 1 inner else inner in
  map (fun ln => strip_chars [DQUOTE; ch ","] (strip ln))
      (filter (fun ln => match strip ln with [] => false | _ => true end)
              (splitlines inner)).

Definition salvage_lines (s : str) : list str :=
  filter (fun ln => 10 <? length ln) (candidate_lines s).

Definition fallback_plan (steps : list str) : value :=
  PyDict [ (py "steps", PyList (map PyStr steps));
           (py "assumptions", PyList []);
           (py "success_criteria", PyList []) ].

Definition fix_json_body (json_str : option str) : res (option str) :=
  let s := cleaned json_str in
  match try_parse s with
  | Some out => Ok (Some out)
  | None =>
  match
    match find_char (ch "{") s with
    | Some start =>
        match
          match balanced_candidate s start with
          | Some candidate => try_parse candidate
          | None => None
          end
        with
        | Some out => Some out
        | None => try_parse (repaired_candidate s start)
        end
    | None => None
    end
  with
  | Some out => Ok (Some out)
  | None =>
  match salvage_lines s with
  | (_ :: _) as steps => Ok (Some (dumps (fallback_plan steps)))
  | [] =>
  match
    match re_search re_outer_braces s with
    | Some g => try_parse g
    | None => None
    end
  with
  | Some out => Ok (Some out)
  | None =>
  match
    if contains (pyq "'steps'") s && negb (contains (py "{") s)
    then try_parse (ch "{" :: s ++ [ch "}"])
    else None
  with
  | Some out => Ok (Some out)
  | None => Ok None
  end end end end end.

(** The outer [try ... except Exception: return None]. *)
Definition fix_json (json_str : option str) : res (option str) :=
  match fix_json_body json_str with
  | Ok r => Ok r
  | Raise _ => Ok None
  end.

End Coach.

(** ** The completion response

    The response object is probed with [getattr(obj, name, None)].  An
    attribute is missing (or [None]), or reading it raises (the [text]
    property of the service's response does, when it has no valid part), or
    it holds a value. *)

Inductive attr (A : Type) : Type :=
| NoAttr
| AttrRaises
| Attr (a : A).
Arguments NoAttr {A}.
Arguments AttrRaises {A}.
Arguments Attr {A} a.

Record part : Type := Part { part_text : attr str }.
Record content : Type := Content { content_parts : attr (list part) }.
Record candidate : Type := Candidate {
  candidate_content : attr content;
  candidate_text : attr str
}.
Record result_obj : Type := ResultObj { result_parts : attr (list part) }.
Record response : Type := Response {
  response_text : attr str;
  response_result : attr result_obj;
  response_candidates : attr (list candidate)
}.

(** [getattr(obj, name, None)]. *)
Definition getattr {A : Type} (a : attr A) : res (option A) :=
  match a with
  | NoAttr => Ok None
  | AttrRaises => Raise AttributeFailure
  | Attr x => Ok (Some x)
  end.

(** Truth of [getattr(obj, name, None)] for a text or a list: present and
    not empty. *)
Definition nonempty {A : Type} (o : option (list A)) : option (list A) :=
  match o with
  | Some (_ :: _) => o
  | _ => None
  end.

(** [for p in parts: if getattr(p, 'text', None): acc.append(p.text)]. *)
Fixpoint append_part_texts (ps : list part) (acc : list str)
    : res (list str) :=
  match ps with
  | [] => Ok acc
  | p :: ps' =>
      match getattr (part_text p) with
      | Raise e => Raise e
      | Ok t =>
          match nonempty t with
          | Some x => append_part_texts ps' (acc ++ [x])
          | None => append_part_texts ps' acc
          end
      end
  end.

(** The body of the loop over [response.candidates]. *)
Definition append_candidate (cand : candidate) (acc : list str)
    : res (list str) :=
  match getattr (candidate_content cand) with
  | Raise e => Raise e
  | Ok None =>
      match getattr (candidate_text cand) with
      | Raise e => Raise e
      | Ok t => match nonempty t with
                | Some x => Ok (acc ++ [x])
                | None => Ok acc
                end
      end
  | Ok (Some c) =>
      match getattr (content_parts c) with
      | Raise e => Raise e
      | Ok ps =>
          match nonempty ps with
          | Some ps' => append_part_texts ps' acc
          | None =>
              match getattr (candidate_text cand) with
              | Raise e => Raise e
              | Ok t => match nonempty t with
                        | Some x => Ok (acc ++ [x])
                        | None => Ok acc
                        end
              end
          end
      end
  end.

Fixpoint append_candidates (cs : list candidate) (acc : list str)
    : res (list str) :=
  match cs with
  | [] => Ok acc
  | c :: cs' =>
      match append_candidate c acc with
      | Raise e => Raise e
      | Ok acc' => append_candidates cs' acc'
      end
  end.

(** The statements after the first [try] block. *)
Definition collect_parts (r : response) : res (list str) :=
  match getattr (response_result r) with
  | Raise e => Raise e
  | Ok None =>
      match getattr (response_candidates r) with
      | Raise e => Raise e
      | Ok cs => match nonempty cs with
                 | Some cs' => append_candidates cs' []
                 | None => Ok []
                 end
      end
  | Ok (Some ro) =>
      match getattr (result_parts ro) with
      | Raise e => Raise e
      | Ok ps =>
          match nonempty ps with
          | Some ps' => append_part_texts ps' []
          | None =>
              match getattr (response_candidates r) with
              | Raise e => Raise e
              | Ok cs => match nonempty cs with
                         | Some cs' => append_candidates cs' []
                         | None => Ok []
                         end
              end
          end
      end
  end.

Definition extract_body (r : response) : res (option str) :=
  match
    match getattr (response_text r) with
    | Ok t => nonempty t
    | Raise _ => None
    end
  with
  | Some x => Ok (Some x)
  | None =>
      match collect_parts r with
      | Raise e => Raise e
      | Ok [] => Ok None
      | Ok parts => Ok (Some (join [LF] parts))
      end
  end.

(** [FitnessCoach._extract_text_from_response], with its outer
    [try ... except Exception: return None]. *)
Definition _extract_text_from_response (r : response) : res (option str) :=
  match extract_body r with
  | Ok x => Ok x
  | Raise _ => Ok None
  end.

(** ** The pipeline

    The collaborators are oracles, asked with the trace so far; the trace
    records the calls of the completion service, of the JSON decoder and of
    [fix_json] by the pipeline, and the file operations.

    The console is not in the trace.  The texts the program is given (the
    request, the text of a response, the artifact read as UTF-8) are decoded
    text, and printing them or a fixed message is taken to succeed.  The
    one text the program prints that it has computed from parsed data is
    the serialization of the plan, which holds a lone surrogate when an
    escape of the planning text denotes one: that [print] is in the model,
    and its failure is an exception of the planning stage.

    A run is not interrupted: [KeyboardInterrupt], which no
    [except Exception] clause catches and on which [main] exits with
    status 0, is outside the model. *)

Inductive event : Type :=
| Generate (prompt : str)
| Parse (text : str)
| Repair (text : str)
| WriteFile (path data : str) (done : bool)
| ReadFile (path : str).

Record env : Type := Env {
  api_key : option str;
  generate_content : list event -> str -> res response;
  write_file : list event -> str -> str -> bool;
  read_file : list event -> str -> res str
}.

Definition PLANNING_PROMPT : str :=
  py_quoted "~" "You are a fitness coach planning assistant. Based on the user's request (goals, constraints, equipment availability, time horizon, and fitness level), produce a clear actionable fitness plan.

User Request: {user_request}

Return a JSON object EXACTLY in the format below. Do not add extra explanation or commentary " ++ [8212%N] ++ py_quoted "~" " JSON only.

{
    ~steps~: [
        ~Step 1 description~,
        ~Step 2 description~,
        ~Step 3 description~,
        ~Step 4 description~
    ],
    ~assumptions~: [
        ~Assumption 1~,
        ~Assumption 2~
    ],
    ~success_criteria~: [
        ~Success criterion 1~,
        ~Success criterion 2~
    ]
}

Constraints and guidance:
- Provide 3-6 concise, actionable steps (e.g., warm-up, main workout blocks, cool-down, nutrition notes).
- Include reasonable assumptions about equipment, current fitness level, and any medical constraints.
- Make success criteria measurable (e.g., ~increase continuous running time to X minutes~, ~complete X reps with good form~).
- Reply with JSON only.
".

Definition EXECUTION_PROMPT : str :=
  py "You are a professional fitness coach assistant. Given the user request and the plan produced earlier, produce a final, user-facing fitness guide in Markdown.

User Request: {user_request}

Plan:
{plan}

Produce a human-friendly Markdown document that includes:
- A clear title
- Short overview
- Required setup or equipment (dumbbells, resistance bands, mat, running shoes, etc.)
- Specific steps to execute (expand and make actionable the plan's steps, include sets, reps, durations, rest times)
- Safety notes and assumptions
- Progression options and measurable success criteria
- Next Steps list (3 items)

Use headings, bullet lists, and short paragraphs. Do not include raw JSON in the final output. The final reply should be in Markdown only.
".

Definition dump_path : str := py "last_raw_plan_response.txt".
Definition guide_path : str := py "final_fitness_guide.md".

Definition no_text_error : exn :=
  ValueError (py "Model response had no accessible text parts").
Definition no_guide_error : exn :=
  ValueError (py "Model response had no accessible text parts for guide").
Definition repair_parse_error : exn :=
  ValueError (py "JSON repair parse failed; saved raw response to last_raw_plan_response.txt").
Definition repair_error : exn :=
  ValueError (py "JSON repair failed; saved raw response to last_raw_plan_response.txt").

Section Pipeline.

Context {F : PyFloat}.
Variable E : env.

(** The coach object: [_mock_response_text] is set by [main] only. *)
Variable mock_response_text : option str.

(** [try: with open(dump_path, 'w') as fh: fh.write(json_output or '')]
    with [except Exception: pass]. *)
Definition dump_raw (json_output : option str) (tr : list event)
    : list event :=
  let data := match json_output with Some x => x | None => [] end in
  tr ++ [WriteFile dump_path data (write_file E tr dump_path data)].

(** The text a stage works on: the mock text when there is one, else the
    text of the service's response. *)
Definition obtain_text (prompt : str) (tr : list event)
    : res (option str) * list event :=
  match nonempty mock_response_text with
  | Some m => (Ok (Some m), tr)
  | None =>
      let tr1 := tr ++ [Generate prompt] in
      match generate_content E tr prompt with
      | Raise e => (Raise e, tr1)
      | Ok response =>
          (_extract_text_from_response response, tr1)
      end
  end.

Definition planning_prompt (user_request : str) : str :=
  replace (py "{user_request}") user_request PLANNING_PROMPT.

(** [print(json.dumps(plan, ensure_ascii=False, indent=2))] and
    [return plan]. *)
Definition show_plan (plan : value) : res value :=
  match print (dumps plan) with
  | Ok _ => Ok plan
  | Raise e => Raise e
  end.

(** The [try] block of [chain1_planning]: the result, the value of
    [json_output] when the block is left, and the trace.  The handler of
    the first parse is [except json.JSONDecodeError]: another exception of
    [json.loads] leaves the block. *)
Definition planning_try (user_request : str) (tr : list event)
    : res value * option str * list event :=
  let prompt := planning_prompt user_request in
  match obtain_text prompt tr with
  | (Raise e, tr1) => (Raise e, None, tr1)
  | (Ok None, tr1) => (Raise no_text_error, None, tr1)
  | (Ok (Some json_output), tr1) =>
      let tr2 := tr1 ++ [Parse json_output] in
      match loads json_output with
      | Ok plan => (show_plan plan, Some json_output, tr2)
      | Raise JSONDecodeError =>
          let tr3 := tr2 ++ [Repair json_output] in
          match fix_json (Some json_output) with
          | Raise e => (Raise e, Some json_output, tr3)
          | Ok fixed_json =>
              match nonempty fixed_json with
              | Some fixed =>
                  let tr4 := tr3 ++ [Parse fixed] in
                  match loads fixed with
                  | Ok plan => (show_plan plan, Some json_output, tr4)
                  | Raise _ =>
                      (Raise repair_parse_error, Some json_output,
                       dump_raw (Some json_output) tr4)
                  end
              | None =>
                  (Raise repair_error, Some json_output,
                   dump_raw (Some json_output) tr3)
              end
          end
      | Raise e => (Raise e, Some json_output, tr2)
      end
  end.

(** [chain1_planning]: the [except Exception] clause dumps [json_output]
    and raises the exception again. *)
Definition chain1_planning (user_request : str) (tr : list event)
    : res value * list event :=
  match planning_try user_request tr with
  | (Ok plan, _, tr1) => (Ok plan, tr1)
  | (Raise e, json_output, tr1) => (Raise e, dump_raw json_output tr1)
  end.

Definition execution_prompt (user_request : str) (plan : value) : str :=
  let plan_str := dumps plan in
  replace (py "{plan}") plan_str
    (replace (py "{user_request}") user_request EXECUTION_PROMPT).

Definition chain2_execution (user_request : str) (plan : value)
    (tr : list event) : res str * list event :=
  let prompt := execution_prompt user_request plan in
  match obtain_text prompt tr with
  | (Raise e, tr1) => (Raise e, tr1)
  | (Ok None, tr1) => (Raise no_guide_error, tr1)
  | (Ok (Some guide), tr1) => (Ok guide, tr1)
  end.

Definition generate (user_request : str) (tr : list event)
    : res str * list event :=
  match chain1_planning user_request tr with
  | (Raise e, tr1) => (Raise e, tr1)
  | (Ok plan, tr1) => chain2_execution user_request plan tr1
  end.

End Pipeline.

(** [main], from the construction of the coach on: the exit status and the
    trace.  [mock] is the [--mock] flag. *)
Definition load_mock (E : env) (mock : bool) (tr : list event)
    : option str * list event :=
  if mock then
    match read_file E tr dump_path with
    | Ok mock_text => (Some mock_text, tr ++ [ReadFile dump_path])
    | Raise _ => (None, tr ++ [ReadFile dump_path])
    end
  else (None, tr).

Definition main {F : PyFloat} (E : env) (prompt : str) (mock : bool)
    : nat * list event :=
  match nonempty (api_key E) with
  | None => (1, [])
  | Some _ =>
      let '(mock_text, tr) := load_mock E mock [] in
      match generate E mock_text prompt tr with
      | (Raise _, tr1) => (1, tr1)
      | (Ok guide, tr1) =>
          if write_file E tr1 guide_path guide
          then (0, tr1 ++ [WriteFile guide_path guide true])
          else (1, tr1 ++ [WriteFile guide_path guide false])
      end
  end.

(** ** Definitions of the specification

    Predicates, measures and sample data the theorems are stated with. *)

Section Specification.

Context {F : PyFloat}.

Definition not_digit_head (r : str) : bool :=
  match r with [] => true | c :: _ => negb (is_digit c) end.

Definition number_end (r : str) : bool :=
  match r with
  | [] => true
  | c :: _ => negb (is_digit c || char_eqb c (ch ".") ||
                    char_eqb c (ch "e") || char_eqb c (ch "E"))
  end.

Definition scanned_cons (c : char) (r : option (str * str)) : option (str * str) :=
  match r with
  | Some (x, rest) => Some (c :: x, rest)
  | None => None
  end.

Section ValueInd.
Variable P : value -> Prop.
Hypothesis HNone : P PyNone.
Hypothesis HBool : forall b, P (PyBool b).
Hypothesis HInt : forall z, P (PyInt z).
Hypothesis HFloat : forall f, P (PyFloatV f).
Hypothesis HStr : forall s, P (PyStr s).
Hypothesis HList : forall l, Forall P l -> P (PyList l).
Hypothesis HDict : forall d, Forall (fun kv => P (snd kv)) d -> P (PyDict d).

Fixpoint value_ind' (v : value) : P v :=
  match v with
  | PyNone => HNone
  | PyBool b => HBool b
  | PyInt z => HInt z
  | PyFloatV f => HFloat f
  | PyStr s => HStr s
  | PyList l =>
      HList l ((fix go (l : list value) : Forall P l :=
                  match l with
                  | [] => Forall_nil P
                  | x :: l' => Forall_cons x (value_ind' x) (go l')
                  end) l)
  | PyDict d =>
      HDict d ((fix go (d : list (str * value))
                  : Forall (fun kv => P (snd kv)) d :=
                  match d with
                  | [] => Forall_nil _
                  | kv :: d' =>
                      Forall_cons kv (value_ind' (snd kv)) (go d')
                  end) d)
  end.
End ValueInd.

Fixpoint distinct_keys (ks : list str) : bool :=
  match ks with
  | [] => true
  | k :: ks' => negb (existsb (str_eqb k) ks') && distinct_keys ks'
  end.

(** A value as [loads] gives it: the keys of every dict are distinct and
    every integer is within the limit of digits. *)
Fixpoint well_formed (v : value) : bool :=
  match v with
  | PyInt z => int_digits_ok (int_repr z)
  | PyList l => forallb well_formed l
  | PyDict d =>
      distinct_keys (map fst d) && forallb (fun kv => well_formed (snd kv)) d
  | _ => true
  end.

Fixpoint value_size (v : value) : nat :=
  match v with
  | PyList l => S (fold_right (fun x a => S (value_size x) + a) 0 l)
  | PyDict d => S (fold_right (fun kv a => S (value_size (snd kv)) + a) 0 d)
  | _ => 1
  end.

Definition items_size (l : list value) : nat :=
  fold_right (fun x a => S (value_size x) + a) 0 l.
Definition pairs_size (d : list (str * value)) : nat :=
  fold_right (fun kv a => S (value_size (snd kv)) + a) 0 d.

Definition value_start (c : char) : bool :=
  is_digit c || in_chars c (DQUOTE :: py "-{[ntfNI").

Definition number_branch (s : str) : scan value :=
  match match_number s with
  | Some (i, fr, ex, r) =>
      match fr, ex with
      | [], [] =>
          if int_digits_ok i then Scanned (PyInt (int_of_text i)) r
          else ScanRaise (int_digits_error i)
      | _, _ => Scanned (PyFloatV (float_of_literal (i ++ fr ++ ex))) r
      end
  | None =>
      if startswith (py "NaN") s then
        Scanned (PyFloatV float_nan) (skipn 3 s)
      else if startswith (py "Infinity") s then
        Scanned (PyFloatV float_inf) (skipn 8 s)
      else if startswith (py "-Infinity") s then
        Scanned (PyFloatV float_neg_inf) (skipn 9 s)
      else ScanError
  end.

Definition item_sep (lvl : nat) : str := ch "," :: newline_indent lvl.

Definition scans_back (v : value) : Prop :=
  well_formed v = true ->
  forall lvl rest fuel,
    value_size v <= fuel -> number_end rest = true ->
    scan_once fuel (encode lvl v ++ rest) = Scanned v rest.

Definition pair_text (lvl : nat) (kv : str * value) : str :=
  encode_basestring (fst kv) ++ py ": " ++ encode lvl (snd kv).

Definition solid (c : char) : bool :=
  negb (isspace c) && negb (char_eqb c (ch "`")).

Definition fence_tail_k (st : mstate) : option mstate :=
  rmatch (Seq (lits (py "```")) Eol) st (fun st' => Some st').

(** What is left of the text after a solid character. *)
Definition trailing (P : str) : str :=
  rstrip (sub_from re_fence_close repl_empty false 0 (rstrip P)).

Definition scan_sound (fuel : nat) : Prop :=
  (forall s v r, scan_once fuel s = Scanned v r ->
     length r < length s /\ well_formed v = true) /\
  (forall s ps r, object_pairs fuel s = Scanned ps r ->
     length r < length s /\
     forallb (fun kv => well_formed (snd kv)) ps = true) /\
  (forall s l r, array_items fuel s = Scanned l r ->
     length r < length s /\ forallb well_formed l = true).

Definition fuel_enough (fuel : nat) : Prop :=
  (forall s, 2 * length s + 1 <= fuel -> scan_once fuel s <> OutOfFuel) /\
  (forall s, 2 * length s + 1 <= fuel -> object_pairs fuel s <> OutOfFuel) /\
  (forall s, 2 * length s + 2 <= fuel -> array_items fuel s <> OutOfFuel).

Definition scan_raises (fuel : nat) : Prop :=
  (forall s e, scan_once fuel s = ScanRaise e ->
     exists i, e = int_digits_error i) /\
  (forall s e, object_pairs fuel s = ScanRaise e ->
     exists i, e = int_digits_error i) /\
  (forall s e, array_items fuel s = ScanRaise e ->
     exists i, e = int_digits_error i).

Definition is_str (v : value) : bool :=
  match v with PyStr _ => true | _ => false end.

Definition is_str_list (v : value) : bool :=
  match v with PyList l => forallb is_str l | _ => false end.

Definition plan_fields : list str :=
  [py "steps"; py "assumptions"; py "success_criteria"].

(** A map with exactly the three fields of a plan, in any order, each a
    sequence of strings. *)
Definition plan_shape (v : value) : bool :=
  match v with
  | PyDict d =>
      distinct_keys (map fst d) && (length d =? 3) &&
      forallb (fun k => existsb (str_eqb k) (map fst d)) plan_fields &&
      forallb (fun kv => is_str_list (snd kv)) d
  | _ => false
  end.

Definition blank (a : attr str) : bool :=
  match a with Attr (_ :: _) => false | _ => true end.

Definition parts_blank (a : attr (list part)) : bool :=
  match a with
  | Attr ps => forallb (fun p => blank (part_text p)) ps
  | _ => true
  end.

(** No attribute of the response, at any depth, holds a non-empty text. *)
Definition textless (r : response) : bool :=
  blank (response_text r) &&
  match response_result r with
  | Attr ro => parts_blank (result_parts ro)
  | _ => true
  end &&
  match response_candidates r with
  | Attr cs =>
      forallb (fun c =>
                 blank (candidate_text c) &&
                 match candidate_content c with
                 | Attr ct => parts_blank (content_parts ct)
                 | _ => true
                 end) cs
  | _ => true
  end.

Definition no_result {A : Type} (r : res (list A)) : Prop :=
  r = Ok [] \/ exists e, r = Raise e.

Definition all_nonempty (l : list str) : Prop := Forall (fun x => x <> []) l.

(** The raw text of the planning stage, as the debug dump writes it:
    [json_output or ''] ([obtain_text] does not depend on the file
    system). *)
Definition raw_text (E : env) (mock : option str) (user_request : str)
    (tr : list event) : str :=
  match fst (obtain_text E mock (planning_prompt user_request) tr) with
  | Ok (Some t) => t
  | _ => []
  end.

Definition is_generate (e : event) : bool :=
  match e with Generate _ => true | _ => false end.

(** A sample world: a service that answers with a direct text, a file
    system where every write succeeds and the debug artifact holds a
    plan. *)
Definition sample_response : response :=
  Response (Attr (py "# Guide from the service")) NoAttr NoAttr.

Definition sample_artifact : str := pyq "{'steps': ['Warm up']}".

Definition sample_env : env :=
  Env (Some (py "key"))
      (fun _ _ => Ok sample_response)
      (fun _ _ _ => true)
      (fun _ _ => Ok sample_artifact).

Definition sample_request : str := py "Quick mobility routine".

(** The execution stage calls the completion service. *)
Definition execution_calls_service {F : PyFloat} (E : env)
    (mock : option str) (user_request : str) (plan : value) : Prop :=
  exists prompt,
    In (Generate prompt) (snd (chain2_execution E mock user_request plan [])).


(** A value is followed by white space, a comma or a closing bracket or
    brace. *)
Definition delimited (r : str) : bool :=
  match r with
  | c :: _ => json_ws c || in_chars c (py ",]}")
  | [] => false
  end.

(** The scanner on a text that opens neither a string nor an object nor an
    array. *)
Definition atom_branch (s : str) : scan value :=
  if startswith (py "null") s then Scanned PyNone (skipn 4 s)
  else if startswith (py "true") s then Scanned (PyBool true) (skipn 4 s)
  else if startswith (py "false") s then Scanned (PyBool false) (skipn 5 s)
  else number_branch s.

Definition is_scanned {A : Type} (x : scan A) : bool :=
  match x with Scanned _ _ => true | _ => false end.

(** No proper prefix of [p] scans as an atom. *)
Definition prefixes_fail (p : str) : bool :=
  forallb (fun k => negb (is_scanned (atom_branch (firstn k p))))
          (seq 0 (length p)).

(** A number is settled when a delimiter follows it. *)
Definition settled (v : value) (r : str) : Prop :=
  match v with
  | PyInt _ | PyFloatV _ => delimited r = true
  | _ => True
  end.

Definition scan_extends (f : nat) : Prop :=
  (forall s v r, scan_once f s = Scanned v r -> settled v r ->
     forall f' X, f <= f' -> scan_once f' (s ++ X) = Scanned v (r ++ X)) /\
  (forall s ps r, object_pairs f s = Scanned ps r ->
     forall f' X, f <= f' -> object_pairs f' (s ++ X) = Scanned ps (r ++ X)) /\
  (forall s l r, array_items f s = Scanned l r ->
     forall f' X, f <= f' -> array_items f' (s ++ X) = Scanned l (r ++ X)).

Definition braced (A : str) : str := ch "{" :: A ++ [ch "}"].

Definition truncated_plan : str := pyq "{'steps': ['Warm up', 'Main set".
Definition salvaged_fragment : str := pyq "steps': ['Warm up', 'Main set".

(** The heuristic repair gives an object with a [steps] sequence that holds
    the fragment. *)
Definition repair_recovers_steps {F : PyFloat} (input fragment : str) : Prop :=
  exists d l,
    loads (repaired_candidate input 0) = Ok (PyDict d) /\
    In (py "steps", PyList l) d /\ In (PyStr fragment) l.

(** The lines of an input as such: non-empty, trimmed, quote and comma
    characters stripped. *)
Definition input_lines (input : str) : list str :=
  map (fun ln => strip_chars [DQUOTE; ch ","] (strip ln))
      (filter (fun ln => match strip ln with [] => false | _ => true end)
              (splitlines input)).

(** An input with no brace and only long lines gives exactly its lines as
    steps. *)
Definition lines_become_steps {F : PyFloat} (input : str) : Prop :=
  contains (py "{") input = false ->
  forallb (fun ln => 10 <? length ln) (input_lines input) = true ->
  fix_json (Some input) =
    Ok (Some (dumps (fallback_plan (input_lines input)))).

(** A valid object followed by prose is recovered whatever the prose. *)
Definition object_survives_prose {F : PyFloat} (J P : str) : Prop :=
  forall v, loads J = Ok v -> startswith (py "{") J = true ->
            fix_json (Some (J ++ P)) = Ok (Some (dumps v)).

Definition three_lines : str :=
  py "Do 10 pushups
Rest 30 seconds
Repeat 3 times".

Definition sample_plan {F : PyFloat} : value :=
  PyDict [ (py "assumptions", PyList []);
           (py "steps", PyList [PyStr (py "Warm up"); PyStr (pyq "Say 'go'")]);
           (py "success_criteria", PyList [PyStr (py "Done")]) ].

Definition textless_response : response :=
  Response (Attr []) (Attr (ResultObj (Attr [Part NoAttr])))
           (Attr [Candidate NoAttr (Attr [])]).

Definition textless_env : env :=
  Env (Some (py "key")) (fun _ _ => Ok textless_response)
      (fun _ _ _ => false) (fun _ _ => Raise OSError).

Definition prose_env (writes : bool) : env :=
  Env (Some (py "key"))
      (fun _ _ => Ok (Response (Attr (py "no plan")) NoAttr NoAttr))
      (fun _ _ _ => writes) (fun _ _ => Raise OSError).


(** The run of backslashes a text ends with. *)
Definition trailing_backslashes (text : str) : nat :=
  length (fst (span (char_eqb BACKSLASH) (rev text))).

(** The depth of the brace count after a text, from depth [d]. *)
Definition brace_depth (d : Z) (s : str) : Z :=
  (d + Z.of_nat (count_char (ch "{") s) - Z.of_nat (count_char (ch "}") s))%Z.

Definition ends_solid (s : str) : bool :=
  match s with
  | [] => false
  | c :: t => solid c && solid (last t c)
  end.

(** The tags the opening fence pattern accepts after the backticks: none,
    or [json] in any case. *)
Definition is_json_tag (tag : str) : bool :=
  match tag with
  | [] => true
  | [a; b; c; d] =>
      ignorecase_eqb (ch "j") a && ignorecase_eqb (ch "s") b &&
      ignorecase_eqb (ch "o") c && ignorecase_eqb (ch "n") d
  | _ => false
  end.

(** The characters of a number literal. *)
Definition number_char (c : char) : bool :=
  is_digit c || in_chars c (py "-+.eE").

(** The continuation of the star in [re_outer_braces], for a match that
    began with [whole] left of the subject. *)
Definition outer_close (whole : str) (st : mstate) : option mstate :=
  eat (char_eqb (ch "}")) st (fun st' =>
    Some (MState (at_start st') (rest st')
            (Some (firstn (length whole - length (rest st')) whole)))).

(** The text of a part, empty when the part has none. *)
Definition part_text_of (p : part) : str :=
  match part_text p with Attr t => t | _ => [] end.

(** Reading the text of the part does not raise. *)
Definition readable (p : part) : bool :=
  match part_text p with AttrRaises => false | _ => true end.

Definition nonblank (t : str) : bool :=
  match t with [] => false | _ => true end.

(** The non-empty texts of a list of parts, in order. *)
Definition part_texts (ps : list part) : list str :=
  filter nonblank (map part_text_of ps).

(** [chr(10).join(parts) if parts else None]. *)
Definition joined (texts : list str) : option str :=
  match texts with [] => None | _ => Some (join [LF] texts) end.

(** The parts of the content of a candidate, none when there is no content
    or it has no parts. *)
Definition content_part_list (c : candidate) : list part :=
  match candidate_content c with
  | Attr ct => match content_parts ct with Attr ps => ps | _ => [] end
  | _ => []
  end.

Definition is_write (e : event) : bool :=
  match e with WriteFile _ _ _ => true | _ => false end.

(** The planning stage with a parsed value: the value is the plan when its
    serialization can be printed, else the stage fails and dumps the
    text. *)
Definition plan_outcome {F : PyFloat} (E : env) (t : str) (v : value)
    (tr : list event) : res value * list event :=
  if printable (dumps v) then (Ok v, tr)
  else (Raise UnicodeEncodeError, dump_raw E (Some t) tr).

(** The parts of the planning template around its placeholder. *)
Definition planning_head : str := firstn 207 PLANNING_PROMPT.
Definition planning_tail : str := skipn 221 PLANNING_PROMPT.

Definition no_linebreak (s : str) : bool :=
  forallb (fun c => negb (is_linebreak c)) s.

(** The first and the last character of a text are outside a class. *)
Definition ends_outside (p : char -> bool) (s : str) : bool :=
  match s with
  | [] => true
  | c :: t => negb (p c) && negb (p (last t c))
  end.

(** A character that [json.dumps] writes as it is and that the repair does
    not count: no control character, quote, backslash, brace or closing
    bracket. *)
Definition plain (c : char) : bool :=
  (32 <=? c)%N && negb (in_chars c (DQUOTE :: BACKSLASH :: py "{}]")).

Definition plain_text (s : str) : bool := forallb plain s.

(** No backslash, brace or closing bracket. *)
Definition quiet (c : char) : bool :=
  negb (in_chars c (BACKSLASH :: py "{}]")).

(** The text does not end with white space or a backtick. *)
Definition value_end_ok (v : str) : bool :=
  match rev v with c :: _ => solid c | [] => true end.

Definition plain_pairs (d : list (str * str)) : bool :=
  forallb (fun kv => plain_text (fst kv) && plain_text (snd kv)) d.

(** An object whose values are strings. *)
Definition flat_object {F : PyFloat} (d : list (str * str)) : value :=
  PyDict (map (fun kv => (fst kv, PyStr (snd kv))) d).

(** The pairs [d0] followed by the pair of [k] and [v]. *)
Definition with_last (d0 : list (str * str)) (k v : str) : list (str * str) :=
  d0 ++ [(k, v)].

(** The serialization of the pairs [d0], each with its separator. *)
Definition pairs_text (d0 : list (str * str)) : str :=
  concat (map (fun kv => (DQUOTE :: fst kv ++ DQUOTE :: py ": " ++
                          DQUOTE :: snd kv ++ [DQUOTE]) ++
                         ch "," :: newline_indent 1) d0).

(** The serialization of an object cut inside the value of its last key:
    the pairs [d0], the key [k] and the part [v] of the value. *)
Definition cut_text (d0 : list (str * str)) (k v : str) : str :=
  ch "{" :: newline_indent 1 ++ pairs_text d0 ++
  DQUOTE :: k ++ DQUOTE :: py ": " ++ DQUOTE :: v.

Definition not_closer (c : char) : bool :=
  negb (char_eqb (ch "]") c) && negb (char_eqb (ch "}") c).

(** More than ten characters. *)
Definition long_line (ln : str) : bool := 10 <? length ln.

(** The first character cannot open a JSON value. *)
Definition opens_no_value (s : str) : bool :=
  match s with
  | c :: _ => negb (value_start c)
  | [] => false
  end.

(** The interpreter bounds the depth of recursion, in [json.loads] and in
    [json.dumps] as elsewhere, by a limit of its own (1000 frames unless
    set otherwise), and the model does not.  A text that opens at most a
    hundred arrays and objects keeps both far from it. *)
Definition opens_nesting (c : char) : bool :=
  char_eqb c (ch "[") || char_eqb c (ch "{").

Definition nesting_margin : nat := 100.

Definition shallow (text : str) : bool :=
  length (filter opens_nesting text) <=? nesting_margin.

Definition is_guide_write (e : event) : bool :=
  match e with
  | WriteFile p _ _ => str_eqb p guide_path
  | _ => false
  end.

(** A service that answers every prompt with the same prose. *)
Definition prose_advice : str := py "Just do some pushups every day".

Definition advice_env : env :=
  Env (Some (py "key"))
      (fun _ _ => Ok (Response (Attr prose_advice) NoAttr NoAttr))
      (fun _ _ _ => true) (fun _ _ => Raise OSError).

(** A service that answers with white space only. *)
Definition blank_env : env :=
  Env (Some (py "key"))
      (fun _ _ => Ok (Response (Attr [ch " "; LF]) NoAttr NoAttr))
      (fun _ _ _ => true) (fun _ _ => Raise OSError).

(** The sample plan in a Markdown fence. *)
Definition fenced_plan {F : PyFloat} : str :=
  [] ++ py "```" ++ py "json" ++ [LF] ++ dumps sample_plan ++ [LF] ++
  py "```" ++ [LF].

Definition fenced_env {F : PyFloat} : env :=
  Env (Some (py "key"))
      (fun _ _ => Ok (Response (Attr fenced_plan) NoAttr NoAttr))
      (fun _ _ _ => true) (fun _ _ => Raise OSError).

(** A plan written without white space. *)
Definition compact_plan : str := pyq "{'steps':['Warm up','Run']}".

(** Advice with braces in it, none at its head. *)
Definition braced_advice : str :=
  py "Plan {draft}
Just do some pushups every day
{end}".

Definition two_parts : list part :=
  [Part (Attr (py "first")); Part NoAttr; Part (Attr []); Part (Attr (py "second"))].






End Specification.

(** * Proofs *)

Section Proofs.

Context {F : PyFloat}.

Lemma char_eqb_eq (a b : char) : char_eqb a b = true <-> a = b.
Proof. apply N.eqb_eq. Qed.

Lemma char_eqb_refl (a : char) : char_eqb a a = true.
Proof. apply N.eqb_refl. Qed.

Lemma str_eqb_eq (a b : str) : str_eqb a b = true <-> a = b.
Proof.
  revert b; induction a as [|x a IH]; intros [|y b]; simpl; split;
    try congruence; try discriminate; auto.
  - rewrite andb_true_iff, char_eqb_eq, IH. intros [-> ->]; reflexivity.
  - intros H; injection H as -> ->. rewrite char_eqb_refl. simpl.
    apply IH; reflexivity.
Qed.

Lemma span_digits (ds r : str) :
  forallb is_digit ds = true -> not_digit_head r = true ->
  span is_digit (ds ++ r) = (ds, r).
Proof.
  intros Hds Hr; induction ds as [|d ds IH]; simpl in *.
  - destruct r as [|c r]; simpl in *; [reflexivity|].
    apply negb_true_iff in Hr; rewrite Hr; reflexivity.
  - apply andb_true_iff in Hds as [Hd Hds]. rewrite Hd, (IH Hds). reflexivity.
Qed.

Lemma digits_of_uint_digits (u : Decimal.uint) :
  forallb is_digit (digits_of_uint u) = true.
Proof. induction u; simpl; auto. Qed.

Lemma uint_of_digits_of_uint (u : Decimal.uint) :
  uint_of_digits (digits_of_uint u) = u.
Proof.
  unfold uint_of_digits; induction u; simpl; try rewrite IHu; reflexivity.
Qed.

Lemma to_uint_head (p : positive) :
  exists c t, digits_of_uint (Pos.to_uint p) = c :: t /\
              is_digit c = true /\ char_eqb c (ch "0") = false /\
              char_eqb c (ch "-") = false.
Proof.
  assert (Hn : Decimal.unorm (Pos.to_uint p) = Pos.to_uint p).
  { rewrite <- (DecimalPos.Unsigned.to_of (Pos.to_uint p)).
    rewrite DecimalPos.Unsigned.of_to. reflexivity. }
  pose proof (DecimalPos.Unsigned.to_uint_nonzero p) as Hz.
  pose proof (DecimalPos.Unsigned.to_uint_nonnil p) as Hnil.
  destruct (Pos.to_uint p) as [|u|u|u|u|u|u|u|u|u|u] eqn:E;
    try congruence;
    try (eexists _, _; split; [reflexivity| repeat split; reflexivity]).
  exfalso. rewrite DecimalFacts.unorm_D0 in Hn. unfold Decimal.unorm in Hn.
  destruct (Decimal.nzhead u) eqn:En; try discriminate.
  - injection Hn as Hn. subst u. apply Hz. reflexivity.
  - exact (DecimalFacts.nzhead_nonzero _ _ En).
Qed.

Lemma is_integer_text_digits (c : char) (t : str) :
  forallb is_digit (c :: t) = true -> char_eqb c (ch "0") = false ->
  char_eqb c (ch "-") = false ->
  is_integer_text (c :: t) = true /\ is_integer_text (ch "-" :: c :: t) = true.
Proof.
  intros Hall H0 Hm. unfold is_integer_text.
  change (char_eqb (ch "-") (ch "-")) with true. rewrite Hm. cbv iota.
  unfold is_digits. rewrite Hall, H0. split; reflexivity.
Qed.

Lemma int_repr_shape (z : Z) :
  exists c t, int_repr z = c :: t /\ is_integer_text (int_repr z) = true /\
              (is_digit c = true \/ c = ch "-").
Proof.
  unfold int_repr. destruct z as [|p|p]; simpl Z.to_int; cbv iota.
  - exists 48%N, []. repeat split; auto.
  - destruct (to_uint_head p) as (c & t & E & Hd & H0 & Hm).
    pose proof (digits_of_uint_digits (Pos.to_uint p)) as Hall.
    rewrite E in *. exists c, t. split; [reflexivity|]. split; [|auto].
    apply is_integer_text_digits; assumption.
  - destruct (to_uint_head p) as (c & t & E & Hd & H0 & Hm).
    pose proof (digits_of_uint_digits (Pos.to_uint p)) as Hall.
    rewrite E in *. exists (ch "-"), (c :: t). split; [reflexivity|].
    split; [|auto].
    apply is_integer_text_digits; assumption.
Qed.

Lemma int_of_text_repr (z : Z) : int_of_text (int_repr z) = z.
Proof.
  rewrite <- (DecimalZ.of_to z) at 2.
  unfold int_repr, int_of_text. destruct z as [|p|p]; simpl Z.to_int; cbv iota.
  - reflexivity.
  - destruct (to_uint_head p) as (c & t & E & Hd & H0 & Hm).
    rewrite E, Hm, <- E, uint_of_digits_of_uint. reflexivity.
  - change (char_eqb (ch "-") (ch "-")) with true. cbv iota.
    rewrite uint_of_digits_of_uint. reflexivity.
Qed.

Lemma number_end_parts (r : str) :
  number_end r = true ->
  not_digit_head r = true /\
  (forall c t, r = c :: t ->
     char_eqb c (ch ".") = false /\ char_eqb c (ch "e") = false /\
     char_eqb c (ch "E") = false).
Proof.
  destruct r as [|c r]; simpl; intros H.
  - split; [reflexivity|]. intros ? ? ?; discriminate.
  - apply negb_true_iff in H. repeat (apply orb_false_iff in H as [H ?]).
    split; [rewrite H; reflexivity|].
    intros c' t' E; injection E as <- <-. auto.
Qed.

Lemma is_digits_cons (s : str) :
  is_digits s = true ->
  exists c t, s = c :: t /\ forallb is_digit s = true.
Proof. destruct s as [|c t]; simpl; [discriminate|eauto]. Qed.

Lemma span_is_digits (ds r : str) :
  is_digits ds = true -> not_digit_head r = true ->
  exists c t, ds = c :: t /\ span is_digit (ds ++ r) = (c :: t, r).
Proof.
  intros Hd Hr. destruct (is_digits_cons _ Hd) as (c & t & -> & Hall).
  exists c, t. split; [reflexivity|]. apply span_digits; assumption.
Qed.

Lemma match_integer_text (i r : str) :
  is_integer_text i = true -> not_digit_head r = true ->
  match_integer (i ++ r) = Some (i, r).
Proof.
  intros Hi Hr. unfold is_integer_text in Hi. unfold match_integer.
  assert (Hds : forall c t, is_digits (c :: t) &&
                 (negb (char_eqb c (ch "0")) || str_eqb t []) = true ->
            forall sign,
            (if char_eqb c (ch "0") then Some (sign ++ [c], t ++ r)
             else if is_digit c then
               let (ds, r') := span is_digit (t ++ r) in Some (sign ++ c :: ds, r')
             else None) = Some (sign ++ c :: t, r)).
  { intros c t H sign. apply andb_true_iff in H as [Hall H0].
    simpl in Hall. apply andb_true_iff in Hall as [Hc Ht].
    destruct (char_eqb c (ch "0")) eqn:E0.
    - simpl in H0. apply str_eqb_eq in H0. subst t. reflexivity.
    - rewrite Hc, (span_digits _ _ Ht Hr). reflexivity. }
  destruct i as [|c t]; [discriminate|]. simpl app. cbv beta iota.
  destruct (char_eqb c (ch "-")) eqn:Em.
  - apply char_eqb_eq in Em. subst c.
    destruct t as [|c' t']; [discriminate|]. simpl app. cbv beta iota.
    apply (Hds c' t' Hi [ch "-"]).
  - apply (Hds c t Hi []).
Qed.

Lemma match_frac_text (fr r : str) :
  is_frac_text fr = true -> not_digit_head r = true ->
  (forall c t, r = c :: t -> char_eqb c (ch ".") = false) ->
  match_frac (fr ++ r) = (fr, r).
Proof.
  intros Hf Hr Hdot. destruct fr as [|c t]; simpl in *.
  - destruct r as [|c r]; [reflexivity|]. simpl.
    rewrite (Hdot c r eq_refl). reflexivity.
  - apply andb_true_iff in Hf as [Hc Ht]. rewrite Hc.
    destruct (span_is_digits _ _ Ht Hr) as (d & ds & -> & ->). reflexivity.
Qed.

Lemma match_exp_text (ex r : str) :
  is_exp_text ex = true -> not_digit_head r = true ->
  (forall c t, r = c :: t ->
     char_eqb c (ch "e") = false /\ char_eqb c (ch "E") = false) ->
  match_exp (ex ++ r) = (ex, r).
Proof.
  intros He Hr Hhead. destruct ex as [|c t].
  - simpl. destruct r as [|c r]; [reflexivity|]. simpl.
    destruct (Hhead c r eq_refl) as [-> ->]. reflexivity.
  - unfold is_exp_text in He. apply andb_true_iff in He as [Hc Ht].
    destruct t as [|x t']; [discriminate|].
    unfold match_exp. simpl app. cbv beta iota. rewrite Hc.
    destruct (char_eqb x (ch "+") || char_eqb x (ch "-")) eqn:Es.
    + destruct (span_is_digits _ _ Ht Hr) as (d & ds & E & Hsp).
      rewrite Hsp, <- E. reflexivity.
    + destruct (span_is_digits _ _ Ht Hr) as (d & ds & E & Hsp).
      simpl app in Hsp. rewrite Hsp, <- E. reflexivity.
Qed.

Lemma exp_head (ex r : str) :
  is_exp_text ex = true -> number_end r = true ->
  not_digit_head (ex ++ r) = true /\
  (forall c t, ex ++ r = c :: t -> char_eqb c (ch ".") = false).
Proof.
  intros He Hr. destruct ex as [|c t]; simpl app.
  - destruct (number_end_parts _ Hr) as [H1 H2]. split; [assumption|].
    intros c t E. apply (H2 c t E).
  - simpl in He. apply andb_true_iff in He as [Hc _].
    apply orb_true_iff in Hc as [Hc|Hc]; apply char_eqb_eq in Hc; subst c;
      (split; [reflexivity|]); intros c t' E; injection E as <- <-; reflexivity.
Qed.

Lemma frac_head (fr r : str) :
  is_frac_text fr = true -> not_digit_head r = true ->
  not_digit_head (fr ++ r) = true.
Proof.
  intros Hf Hr. destruct fr as [|c t]; simpl app; [assumption|].
  simpl in Hf. apply andb_true_iff in Hf as [Hc _].
  apply char_eqb_eq in Hc. subst c. reflexivity.
Qed.

Lemma match_number_literal (i fr ex r : str) :
  is_integer_text i = true -> is_frac_text fr = true ->
  is_exp_text ex = true -> number_end r = true ->
  match_number (i ++ fr ++ ex ++ r) = Some (i, fr, ex, r).
Proof.
  intros Hi Hf He Hr. unfold match_number.
  destruct (exp_head _ _ He Hr) as [Hnd Hdot].
  destruct (number_end_parts _ Hr) as [Hrd Hrh].
  rewrite (match_integer_text _ _ Hi (frac_head _ _ Hf Hnd)).
  rewrite (match_frac_text _ _ Hf Hnd Hdot).
  rewrite (match_exp_text _ _ He Hrd); [reflexivity|].
  intros c t E. destruct (Hrh c t E) as (_ & ? & ?). auto.
Qed.

(** *** Strings *)

Lemma hex4_low (c : char) :
  (c < 32)%N -> hex4 48%N 48%N (hex_char (c / 16)) (hex_char (c mod 16)) = Some c.
Proof.
  intros H.
  assert (E : c = N.of_nat (N.to_nat c)) by (rewrite N2Nat.id; reflexivity).
  assert (Hn : (N.to_nat c < 32)%nat) by lia.
  rewrite E. generalize dependent (N.to_nat c). intros n _ Hn. clear H c.
  do 32 (destruct n as [|n]; [vm_compute; reflexivity|]). lia.
Qed.

Lemma scanstring_escape (c : char) (X : str) :
  scanstring (escape_char c ++ X) = scanned_cons c (scanstring X).
Proof.
  unfold escape_char.
  destruct (char_eqb c DQUOTE) eqn:E1;
    [apply char_eqb_eq in E1; subst c; reflexivity|].
  destruct (char_eqb c BACKSLASH) eqn:E2;
    [apply char_eqb_eq in E2; subst c; reflexivity|].
  destruct (char_eqb c 8%N) eqn:E3;
    [apply char_eqb_eq in E3; subst c; reflexivity|].
  destruct (char_eqb c 12%N) eqn:E4;
    [apply char_eqb_eq in E4; subst c; reflexivity|].
  destruct (char_eqb c 10%N) eqn:E5;
    [apply char_eqb_eq in E5; subst c; reflexivity|].
  destruct (char_eqb c 13%N) eqn:E6;
    [apply char_eqb_eq in E6; subst c; reflexivity|].
  destruct (char_eqb c 9%N) eqn:E7;
    [apply char_eqb_eq in E7; subst c; reflexivity|].
  destruct (c <? 32)%N eqn:E8.
  - apply N.ltb_lt in E8.
    change (scanstring (BACKSLASH :: ch "u" :: 48%N :: 48%N ::
              hex_char (c / 16) :: hex_char (c mod 16) :: X)
            = scanned_cons c (scanstring X)).
    cbn [scanstring]. 
    change (char_eqb BACKSLASH DQUOTE) with false.
    change (char_eqb BACKSLASH BACKSLASH) with true.
    change (char_eqb (ch "u") (ch "u")) with true. cbv iota.
    rewrite (hex4_low c E8).
    assert (Hs : is_high_surrogate c = false).
    { unfold is_high_surrogate. apply andb_false_iff. left.
      apply N.leb_gt. lia. }
    rewrite Hs. reflexivity.
  - apply N.ltb_ge in E8. simpl app. cbn [scanstring].
    rewrite E1, E2.
    assert (Hc : (c <=? 31)%N = false) by (apply N.leb_gt; lia).
    rewrite Hc. reflexivity.
Qed.

Lemma scanstring_encode (s rest : str) :
  scanstring (flat_map escape_char s ++ DQUOTE :: rest) = Some (s, rest).
Proof.
  induction s as [|c s IH]; simpl flat_map.
  - reflexivity.
  - rewrite <- app_assoc, scanstring_escape, IH. reflexivity.
Qed.

Lemma value_start_cases (c : char) :
  value_start c = true ->
  json_ws c = false /\ char_eqb c (ch "]") = false /\
  char_eqb c (ch "}") = false /\ char_eqb c (ch ",") = false /\
  char_eqb c 65279%N = false.
Proof.
  unfold value_start, in_chars. intros H.
  apply orb_true_iff in H as [H|H].
  - unfold is_digit in H. apply andb_true_iff in H as [H1 H2].
    apply N.leb_le in H1, H2. unfold json_ws, char_eqb, ch. simpl N_of_ascii.
    repeat split; repeat (apply orb_false_iff; split); apply N.eqb_neq; lia.
  - simpl in H.
    repeat (apply orb_true_iff in H as [H|H];
            [apply char_eqb_eq in H; subst c; repeat split; reflexivity|]).
    discriminate.
Qed.

Lemma integer_text_head (i : str) :
  is_integer_text i = true ->
  exists c t, i = c :: t /\ (is_digit c = true \/ c = ch "-").
Proof.
  unfold is_integer_text. destruct i as [|c t]; [discriminate|].
  destruct (char_eqb c (ch "-")) eqn:E.
  - apply char_eqb_eq in E. eauto.
  - intros H. apply andb_true_iff in H as [H _]. simpl in H.
    apply andb_true_iff in H as [H _]. eauto.
Qed.

Lemma digit_or_minus_start (c : char) :
  is_digit c = true \/ c = ch "-" -> value_start c = true.
Proof.
  unfold value_start. intros [H| ->]; [rewrite H|]; reflexivity.
Qed.

Lemma floatstr_start (f : pyfloat) :
  exists c t, floatstr f = c :: t /\ value_start c = true.
Proof.
  destruct (floatstr_reads_back f) as [[E _]|[[E _]|[[E _]|H]]];
    try (rewrite E; eexists _, _; split; reflexivity).
  destruct H as (i & fr & ex & E & Hi & _).
  destruct (integer_text_head _ Hi) as (c & t & -> & Hc).
  rewrite E. exists c, (t ++ fr ++ ex). split; [reflexivity|].
  apply digit_or_minus_start; assumption.
Qed.

Lemma encode_start (lvl : nat) (v : value) :
  exists c t, encode lvl v = c :: t /\ value_start c = true.
Proof.
  destruct v as [|[]|z|f|s|[|x l]|[|kv d]]; simpl encode;
    try (eexists _, _; split; reflexivity).
  - destruct (int_repr_shape z) as (c & t & E & _ & Hc).
    rewrite E. exists c, t. split; [reflexivity|].
    apply digit_or_minus_start; assumption.
  - apply floatstr_start.
Qed.

Lemma digit_neq (c k : char) :
  is_digit c = true -> (k < 48 \/ 57 < k)%N ->
  char_eqb c k = false /\ char_eqb k c = false.
Proof.
  unfold is_digit, char_eqb. intros H Hk.
  apply andb_true_iff in H as [H1 H2]. apply N.leb_le in H1, H2.
  split; apply N.eqb_neq; lia.
Qed.

Lemma scan_once_number (n : nat) (c : char) (t : str) :
  is_digit c = true \/ in_chars c (py "-NI") = true ->
  scan_once (S n) (c :: t) = number_branch (c :: t).
Proof.
  intros [H|H].
  - cbn [scan_once startswith py map list_ascii_of_string].
    destruct (digit_neq c DQUOTE H) as [-> _]; [left; reflexivity|].
    destruct (digit_neq c (ch "{") H) as [-> _]; [right; reflexivity|].
    destruct (digit_neq c (ch "[") H) as [-> _]; [right; reflexivity|].
    destruct (digit_neq c (ch "n") H) as [_ E1]; [right; reflexivity|].
    destruct (digit_neq c (ch "t") H) as [_ E2]; [right; reflexivity|].
    destruct (digit_neq c (ch "f") H) as [_ E3]; [right; reflexivity|].
    change (N_of_ascii "n") with (ch "n"). change (N_of_ascii "t") with (ch "t").
    change (N_of_ascii "f") with (ch "f").
    rewrite E1, E2, E3. reflexivity.
  - simpl in H.
    repeat (apply orb_true_iff in H as [H|H];
            [apply char_eqb_eq in H; subst c; reflexivity|]).
    discriminate.
Qed.

Lemma scan_once_int (n : nat) (z : Z) (rest : str) :
  int_digits_ok (int_repr z) = true ->
  number_end rest = true ->
  scan_once (S n) (int_repr z ++ rest) = Scanned (PyInt z) rest.
Proof.
  intros Hz Hr. destruct (int_repr_shape z) as (c & t & E & Hi & Hc).
  assert (Hm : match_number (int_repr z ++ rest) = Some (int_repr z, [], [], rest)).
  { apply (match_number_literal (int_repr z) [] [] rest); auto. }
  rewrite E in *. simpl app in *. rewrite scan_once_number.
  - unfold number_branch. rewrite Hm. cbv iota. rewrite Hz.
    rewrite <- E, int_of_text_repr. reflexivity.
  - destruct Hc as [Hc| ->]; [left; assumption|right; reflexivity].
Qed.

Lemma scan_once_float (n : nat) (f : pyfloat) (rest : str) :
  number_end rest = true ->
  scan_once (S n) (floatstr f ++ rest) = Scanned (PyFloatV f) rest.
Proof.
  intros Hr.
  destruct (floatstr_reads_back f) as [[E ->]|[[E ->]|[[E ->]|H]]];
    try (rewrite E; reflexivity).
  destruct H as (i & fr & ex & E & Hi & Hf & He & Hne & Hlit).
  pose proof (match_number_literal i fr ex rest Hi Hf He Hr) as Hm.
  destruct (integer_text_head _ Hi) as (c & t & Ei & Hc).
  rewrite E. repeat rewrite <- app_assoc. rewrite Ei in *. simpl app in *.
  rewrite scan_once_number.
  - unfold number_branch. rewrite Hm.
    destruct fr as [|x fr]; [destruct ex as [|y ex]|].
    + destruct Hne; congruence.
    + rewrite <- Hlit. reflexivity.
    + rewrite <- Hlit. reflexivity.
  - destruct Hc as [Hc| ->]; [left; assumption|right; reflexivity].
Qed.

Lemma scan_once_str (n : nat) (s rest : str) :
  scan_once (S n) (encode_basestring s ++ rest) = Scanned (PyStr s) rest.
Proof.
  unfold encode_basestring. simpl app. cbn [scan_once].
  change (char_eqb DQUOTE DQUOTE) with true. cbv iota.
  rewrite <- app_assoc. simpl app. rewrite scanstring_encode. reflexivity.
Qed.

(** *** White space between the items *)

Lemma skip_ws_app (w X : str) :
  forallb json_ws w = true -> skip_ws (w ++ X) = skip_ws X.
Proof.
  unfold skip_ws. induction w as [|c w IH]; simpl; [reflexivity|].
  intros H. apply andb_true_iff in H as [-> H]. auto.
Qed.

Lemma indent_ws (n : nat) : forallb json_ws (concat (repeat (py "  ") n)) = true.
Proof. induction n; simpl; auto. Qed.

Lemma newline_indent_ws (n : nat) : forallb json_ws (newline_indent n) = true.
Proof. unfold newline_indent. simpl. apply indent_ws. Qed.

Lemma skip_ws_start (c : char) (t : str) :
  json_ws c = false -> skip_ws (c :: t) = c :: t.
Proof. unfold skip_ws. simpl. intros ->. reflexivity. Qed.

Lemma skip_ws_newline_indent (n : nat) (X : str) :
  skip_ws (newline_indent n ++ X) = skip_ws X.
Proof. apply skip_ws_app, newline_indent_ws. Qed.

Lemma skip_ws_encode (lvl : nat) (v : value) (X : str) :
  skip_ws (encode lvl v ++ X) = encode lvl v ++ X.
Proof.
  destruct (encode_start lvl v) as (c & t & -> & Hc).
  apply skip_ws_start. apply (value_start_cases c Hc).
Qed.

Lemma number_end_newline_indent (n : nat) (X : str) :
  number_end (newline_indent n ++ X) = true.
Proof. reflexivity. Qed.

Lemma item_sep_app (lvl : nat) (X : str) :
  item_sep lvl ++ X = ch "," :: (newline_indent lvl ++ X).
Proof. reflexivity. Qed.

Lemma join_cons2 (sep p q : str) (ps : list str) :
  join sep (p :: q :: ps) = p ++ sep ++ join sep (q :: ps).
Proof. reflexivity. Qed.

Lemma array_items_encode (l : list value) :
  Forall scans_back l -> forallb well_formed l = true -> l <> [] ->
  forall lvl outer rest fuel,
    items_size l <= fuel ->
    array_items fuel
      (join (item_sep lvl) (map (encode lvl) l) ++
       newline_indent outer ++ ch "]" :: rest) = Scanned l rest.
Proof.
  induction 1 as [|x l Hx Hl IH]; [congruence|].
  intros Hwf _ lvl outer rest fuel Hfuel.
  simpl in Hwf. apply andb_true_iff in Hwf as [Hwx Hwl].
  change (items_size (x :: l)) with (S (value_size x) + items_size l) in Hfuel.
  destruct fuel as [|n]; [lia|]. cbn [array_items].
  destruct l as [|y l].
  - simpl map. simpl join.
    rewrite (Hx Hwx lvl _ n) by (try apply number_end_newline_indent; lia).
    rewrite skip_ws_newline_indent, skip_ws_start by reflexivity.
    change (char_eqb (ch "]") (ch "]")) with true. reflexivity.
  - simpl map. rewrite join_cons2. repeat rewrite <- app_assoc.
    rewrite (Hx Hwx lvl _ n) by (try reflexivity; lia).
    rewrite item_sep_app, skip_ws_start by reflexivity.
    change (char_eqb (ch ",") (ch "]")) with false.
    change (char_eqb (ch ",") (ch ",")) with true. cbv iota.
    rewrite skip_ws_newline_indent.
    change (encode lvl y :: map (encode lvl) l) with (map (encode lvl) (y :: l)).
    assert (Hsk : forall X, skip_ws (join (item_sep lvl) (map (encode lvl) (y :: l)) ++ X)
                  = join (item_sep lvl) (map (encode lvl) (y :: l)) ++ X).
    { intros X. destruct l as [|z l]; simpl map.
      - simpl join. apply skip_ws_encode.
      - rewrite join_cons2. repeat rewrite <- app_assoc. apply skip_ws_encode. }
    rewrite Hsk.
    rewrite (IH Hwl) by (try congruence; lia). reflexivity.
Qed.

Lemma pair_text_app (lvl : nat) (k : str) (v : value) (X : str) :
  pair_text lvl (k, v) ++ X =
  DQUOTE :: (flat_map escape_char k ++
             DQUOTE :: ch ":" :: ch " " :: (encode lvl v ++ X)).
Proof.
  unfold pair_text, encode_basestring. simpl fst. simpl snd.
  simpl. repeat rewrite <- app_assoc. reflexivity.
Qed.

Lemma skip_ws_pairs (lvl : nat) (d : list (str * value)) (X : str) :
  d <> [] ->
  skip_ws (join (item_sep lvl) (map (pair_text lvl) d) ++ X)
  = join (item_sep lvl) (map (pair_text lvl) d) ++ X.
Proof.
  destruct d as [|[k v] d]; [congruence|]. intros _.
  destruct d as [|kv d]; simpl map.
  - simpl join. rewrite pair_text_app. apply skip_ws_start. reflexivity.
  - rewrite join_cons2. repeat rewrite <- app_assoc. rewrite pair_text_app.
    apply skip_ws_start. reflexivity.
Qed.

Lemma pairs_size_cons (kv : str * value) (d : list (str * value)) :
  pairs_size (kv :: d) = S (value_size (snd kv)) + pairs_size d.
Proof. reflexivity. Qed.

Lemma object_pairs_encode (d : list (str * value)) :
  Forall (fun kv => scans_back (snd kv)) d ->
  forallb (fun kv => well_formed (snd kv)) d = true -> d <> [] ->
  forall lvl outer rest fuel,
    pairs_size d <= fuel ->
    object_pairs fuel
      (join (item_sep lvl) (map (pair_text lvl) d) ++
       newline_indent outer ++ ch "}" :: rest) = Scanned d rest.
Proof.
  induction 1 as [|[k v] d Hx Hd IH]; [congruence|].
  intros Hwf _ lvl outer rest fuel Hfuel.
  simpl in Hwf. apply andb_true_iff in Hwf as [Hwx Hwd].
  rewrite pairs_size_cons in Hfuel. simpl snd in *.
  destruct fuel as [|n]; [lia|].
  assert (Hstep : forall Y, number_end Y = true ->
    object_pairs (S n) (pair_text lvl (k, v) ++ Y) =
    match skip_ws Y with
    | c3 :: r3 =>
        if char_eqb c3 (ch "}") then Scanned [(k, v)] r3
        else if char_eqb c3 (ch ",") then
          match object_pairs n (skip_ws r3) with
          | Scanned ps r4 => Scanned ((k, v) :: ps) r4
          | ScanError => ScanError
          | ScanRaise e => ScanRaise e
          | OutOfFuel => OutOfFuel
          end
        else ScanError
    | [] => ScanError
    end).
  { intros Y HY. rewrite pair_text_app. cbn [object_pairs].
    change (char_eqb DQUOTE DQUOTE) with true. cbv iota.
    rewrite scanstring_encode. rewrite skip_ws_start by reflexivity.
    change (char_eqb (ch ":") (ch ":")) with true. cbv iota.
    change (skip_ws (ch " " :: encode lvl v ++ Y))
      with (skip_ws (encode lvl v ++ Y)).
    rewrite skip_ws_encode. rewrite (Hx Hwx lvl Y n) by (auto; lia).
    reflexivity. }
  destruct d as [|kv d].
  - simpl map. simpl join. rewrite Hstep by apply number_end_newline_indent.
    rewrite skip_ws_newline_indent, skip_ws_start by reflexivity.
    change (char_eqb (ch "}") (ch "}")) with true. reflexivity.
  - simpl map. rewrite join_cons2. repeat rewrite <- app_assoc.
    rewrite Hstep by reflexivity.
    rewrite item_sep_app, skip_ws_start by reflexivity.
    change (char_eqb (ch ",") (ch "}")) with false.
    change (char_eqb (ch ",") (ch ",")) with true. cbv iota.
    rewrite skip_ws_newline_indent.
    change (pair_text lvl kv :: map (pair_text lvl) d)
      with (map (pair_text lvl) (kv :: d)).
    rewrite skip_ws_pairs by congruence.
    rewrite (IH Hwd) by (try congruence; lia). reflexivity.
Qed.

(** *** [dict(pairs)] on distinct keys *)

Lemma dict_set_fresh (d : list (str * value)) (k : str) (v : value) :
  existsb (str_eqb k) (map fst d) = false ->
  dict_set d k v = d ++ [(k, v)].
Proof.
  induction d as [|[k' v'] d IH]; simpl; [reflexivity|].
  intros H. apply orb_false_iff in H as [H1 H2].
  assert (E : str_eqb k' k = false).
  { destruct (str_eqb k' k) eqn:E; [|reflexivity].
    apply str_eqb_eq in E. subst k'.
    rewrite (proj2 (str_eqb_eq k k) eq_refl) in H1. discriminate. }
  rewrite E, IH by assumption. reflexivity.
Qed.

Lemma existsb_app_false {A : Type} (p : A -> bool) (a b : list A) :
  existsb p (a ++ b) = false <-> existsb p a = false /\ existsb p b = false.
Proof. rewrite existsb_app, orb_false_iff. reflexivity. Qed.

Lemma distinct_keys_app_cons (a : list str) (k : str) (b : list str) :
  distinct_keys (a ++ k :: b) = true ->
  existsb (str_eqb k) a = false /\ distinct_keys ((a ++ [k]) ++ b) = true.
Proof.
  induction a as [|x a IH]; simpl.
  - intros H. split; [reflexivity|assumption].
  - intros H. apply andb_true_iff in H as [H1 H2].
    apply negb_true_iff in H1. apply existsb_app_false in H1 as [H1a H1b].
    simpl in H1b. apply orb_false_iff in H1b as [Hxk H1b].
    destruct (IH H2) as [IH1 IH2]. split.
    + apply orb_false_iff. split; [|assumption].
      destruct (str_eqb k x) eqn:E; [|reflexivity].
      apply str_eqb_eq in E. subst x.
      rewrite (proj2 (str_eqb_eq k k) eq_refl) in Hxk. discriminate.
    + apply andb_true_iff. split; [|assumption].
      apply negb_true_iff. rewrite <- app_assoc. simpl.
      apply existsb_app_false. split; [assumption|].
      simpl. rewrite Hxk, H1b. reflexivity.
Qed.

Lemma fold_dict_set_distinct (d acc : list (str * value)) :
  distinct_keys (map fst (acc ++ d)) = true ->
  fold_left (fun d kv => dict_set d (fst kv) (snd kv)) d acc = acc ++ d.
Proof.
  revert acc. induction d as [|[k v] d IH]; intros acc H; simpl.
  - rewrite app_nil_r. reflexivity.
  - rewrite map_app in H. simpl in H.
    destruct (distinct_keys_app_cons _ _ _ H) as [Hk Hrest].
    rewrite dict_set_fresh by assumption.
    rewrite IH.
    + rewrite <- app_assoc. reflexivity.
    + rewrite !map_app. simpl. exact Hrest.
Qed.

Lemma dict_of_pairs_distinct (d : list (str * value)) :
  distinct_keys (map fst d) = true -> dict_of_pairs d = d.
Proof. intros H. apply (fold_dict_set_distinct d []). exact H. Qed.

(** *** The round trip of one value *)

Lemma scan_once_encode (v : value) : scans_back v.
Proof.
  induction v as [| b | z | f | s | l IH | d IH] using value_ind';
    intros Hwf lvl rest fuel Hfuel Hrest;
    (destruct fuel as [|n]; [simpl in Hfuel; lia|]).
  - reflexivity.
  - destruct b; reflexivity.
  - apply scan_once_int; assumption.
  - apply scan_once_float; assumption.
  - apply scan_once_str.
  - destruct l as [|x l]; [reflexivity|].
    change (encode lvl (PyList (x :: l))) with
      (ch "[" :: (newline_indent (S lvl) ++
       join (item_sep (S lvl)) (map (encode (S lvl)) (x :: l)) ++
       newline_indent lvl ++ [ch "]"])).
    rewrite <- app_comm_cons. cbn [scan_once].
    change (char_eqb (ch "[") DQUOTE) with false.
    change (char_eqb (ch "[") (ch "{")) with false.
    change (char_eqb (ch "[") (ch "[")) with true. cbv iota.
    repeat rewrite <- app_assoc. change ([ch "]"] ++ rest) with (ch "]" :: rest).
    rewrite skip_ws_newline_indent.
    assert (Hhd : exists c t,
      join (item_sep (S lvl)) (map (encode (S lvl)) (x :: l)) = c :: t /\
      value_start c = true).
    { destruct (encode_start (S lvl) x) as (c & t & E & Hc).
      destruct l as [|z l]; simpl map.
      - simpl join. eauto.
      - rewrite join_cons2, E. rewrite <- app_comm_cons. eauto. }
    destruct Hhd as (c & t & E & Hc).
    destruct (value_start_cases c Hc) as (Hws & Hbr & _).
    pose proof (array_items_encode (x :: l) IH Hwf ltac:(congruence)
                  (S lvl) lvl rest n) as Hitems.
    rewrite E in *. rewrite <- app_comm_cons in *.
    rewrite skip_ws_start by assumption. rewrite Hbr.
    rewrite Hitems; [reflexivity|].
    change (value_size (PyList (x :: l))) with (S (items_size (x :: l))) in Hfuel.
    lia.
  - destruct d as [|kv d]; [reflexivity|].
    change (encode lvl (PyDict (kv :: d))) with
      (ch "{" :: (newline_indent (S lvl) ++
       join (item_sep (S lvl)) (map (pair_text (S lvl)) (kv :: d)) ++
       newline_indent lvl ++ [ch "}"])).
    rewrite <- app_comm_cons. cbn [scan_once].
    change (char_eqb (ch "{") DQUOTE) with false.
    change (char_eqb (ch "{") (ch "{")) with true. cbv iota.
    repeat rewrite <- app_assoc. change ([ch "}"] ++ rest) with (ch "}" :: rest).
    rewrite skip_ws_newline_indent.
    simpl in Hwf. apply andb_true_iff in Hwf as [Hkeys Hwf].
    assert (Hhd : exists t,
      join (item_sep (S lvl)) (map (pair_text (S lvl)) (kv :: d)) = DQUOTE :: t).
    { destruct kv as [k v]. destruct d as [|kv' d]; simpl map.
      - simpl join. unfold pair_text, encode_basestring.
        rewrite <- app_comm_cons. eauto.
      - rewrite join_cons2. unfold pair_text at 1, encode_basestring.
        repeat rewrite <- app_comm_cons. eauto. }
    destruct Hhd as (t & E).
    pose proof (object_pairs_encode (kv :: d) IH Hwf ltac:(congruence)
                  (S lvl) lvl rest n) as Hitems.
    rewrite E in *. rewrite <- app_comm_cons in *.
    rewrite skip_ws_start by reflexivity.
    change (char_eqb DQUOTE (ch "}")) with false. cbv iota.
    rewrite Hitems.
    + rewrite dict_of_pairs_distinct by exact Hkeys. reflexivity.
    + change (value_size (PyDict (kv :: d))) with (S (pairs_size (kv :: d))) in Hfuel.
      lia.
Qed.

(** *** Enough fuel for an encoding *)

Lemma join_length_bound {A : Type} (size : A -> nat) (enc : A -> str)
    (sep : str) (l : list A) :
  1 <= length sep ->
  Forall (fun x => size x <= length (enc x)) l ->
  fold_right (fun x a => S (size x) + a) 0 l
  <= length (join sep (map enc l)) + 1.
Proof.
  intros Hsep. induction 1 as [|x l Hx Hl IH]; [simpl; lia|].
  destruct l as [|y l].
  - simpl. lia.
  - change (map enc (x :: y :: l)) with (enc x :: enc y :: map enc l).
    rewrite join_cons2, !length_app.
    change (enc y :: map enc l) with (map enc (y :: l)).
    change (fold_right (fun x a => S (size x) + a) 0 (x :: y :: l))
      with (S (size x) + fold_right (fun x a => S (size x) + a) 0 (y :: l)).
    lia.
Qed.

Lemma newline_indent_length (n : nat) : 1 <= length (newline_indent n).
Proof. unfold newline_indent. simpl. lia. Qed.

Lemma value_size_le_length (v : value) :
  forall lvl, value_size v <= length (encode lvl v).
Proof.
  induction v as [| b | z | f | s | l IH | d IH] using value_ind'; intros lvl;
    try (destruct (encode_start lvl ltac:(first [exact PyNone | eassumption])) ;
         fail).
  - simpl. lia.
  - destruct b; simpl; lia.
  - destruct (encode_start lvl (PyInt z)) as (c & t & E & _). rewrite E.
    simpl. lia.
  - destruct (encode_start lvl (PyFloatV f)) as (c & t & E & _). rewrite E.
    simpl. lia.
  - simpl. lia.
  - destruct l as [|x l]; [simpl; lia|].
    change (encode lvl (PyList (x :: l))) with
      (ch "[" :: (newline_indent (S lvl) ++
       join (item_sep (S lvl)) (map (encode (S lvl)) (x :: l)) ++
       newline_indent lvl ++ [ch "]"])).
    change (value_size (PyList (x :: l))) with (S (items_size (x :: l))).
    pose proof (join_length_bound value_size (encode (S lvl))
                  (item_sep (S lvl)) (x :: l)) as Hj.
    fold (items_size (x :: l)) in Hj.
    assert (Hall : Forall (fun x => value_size x <= length (encode (S lvl) x)) (x :: l)).
    { eapply Forall_impl; [|exact IH]. intros a Ha. apply Ha. }
    specialize (Hj ltac:(simpl; lia) Hall).
    pose proof (newline_indent_length (S lvl)). pose proof (newline_indent_length lvl).
    set (J := join _ _) in *. set (N1 := newline_indent (S lvl)) in *.
    set (N0 := newline_indent lvl) in *.
    simpl length. rewrite !length_app. simpl length. lia.
  - destruct d as [|kv d]; [simpl; lia|].
    change (encode lvl (PyDict (kv :: d))) with
      (ch "{" :: (newline_indent (S lvl) ++
       join (item_sep (S lvl)) (map (pair_text (S lvl)) (kv :: d)) ++
       newline_indent lvl ++ [ch "}"])).
    change (value_size (PyDict (kv :: d))) with (S (pairs_size (kv :: d))).
    pose proof (join_length_bound (fun kv => value_size (snd kv))
                  (pair_text (S lvl)) (item_sep (S lvl)) (kv :: d)) as Hj.
    change (fold_right _ 0 (kv :: d)) with (pairs_size (kv :: d)) in Hj.
    assert (Hall : Forall (fun kv => value_size (snd kv)
                             <= length (pair_text (S lvl) kv)) (kv :: d)).
    { eapply Forall_impl; [|exact IH]. intros a Ha. simpl in Ha.
      unfold pair_text. rewrite !length_app. specialize (Ha (S lvl)). lia. }
    specialize (Hj ltac:(simpl; lia) Hall).
    pose proof (newline_indent_length (S lvl)). pose proof (newline_indent_length lvl).
    set (J := join _ _) in *. set (N1 := newline_indent (S lvl)) in *.
    set (N0 := newline_indent lvl) in *.
    simpl length. rewrite !length_app. simpl length. lia.
Qed.

(** *** [json.loads(json.dumps(v))] *)

Theorem loads_dumps (v : value) :
  well_formed v = true -> loads (dumps v) = Ok v.
Proof.
  intros Hwf. unfold loads, dumps.
  destruct (encode_start 0 v) as (c & t & E & Hc).
  destruct (value_start_cases c Hc) as (Hws & _ & _ & _ & Hbom).
  assert (Hb : startswith [65279%N] (encode 0 v) = false).
  { rewrite E. unfold startswith.
    assert (Hc' : char_eqb 65279%N c = false)
      by (unfold char_eqb in *; rewrite N.eqb_sym; exact Hbom).
    rewrite Hc'. reflexivity. }
  rewrite Hb.
  assert (Hsk : skip_ws (encode 0 v) = encode 0 v).
  { rewrite E. apply skip_ws_start. assumption. }
  rewrite Hsk.
  pose proof (scan_once_encode v Hwf 0 [] (fuel_for (encode 0 v))) as H.
  rewrite app_nil_r in H. rewrite H; [reflexivity| |reflexivity].
  unfold fuel_for. pose proof (value_size_le_length v 0). lia.
Qed.

(** *** Stripping *)

Lemma lstrip_by_app_solid (p : char -> bool) (X : str) (d : char) (Y : str) :
  p d = false ->
  lstrip_by p (X ++ d :: Y) = lstrip_by p X ++ d :: Y.
Proof.
  intros Hd. induction X as [|c X IH]; simpl.
  - rewrite Hd. reflexivity.
  - destruct (p c); [assumption|reflexivity].
Qed.

Lemma rstrip_by_app_solid (p : char -> bool) (A : str) (d : char) (B : str) :
  p d = false ->
  rstrip_by p (A ++ d :: B) = A ++ d :: rstrip_by p B.
Proof.
  intros Hd. unfold rstrip_by.
  rewrite rev_app_distr. simpl rev. rewrite <- app_assoc. simpl app.
  rewrite lstrip_by_app_solid by assumption.
  rewrite rev_app_distr. simpl rev. rewrite rev_involutive, <- app_assoc.
  reflexivity.
Qed.

Lemma strip_solid (c : char) (A : str) (d : char) (B : str) :
  isspace c = false -> isspace d = false ->
  strip (c :: A ++ d :: B) = c :: A ++ d :: rstrip B.
Proof.
  intros Hc Hd. unfold strip, strip_by. simpl lstrip_by. rewrite Hc.
  rewrite app_comm_cons. rewrite rstrip_by_app_solid by assumption.
  reflexivity.
Qed.

Lemma sub_from_no_match (r : regex) (repl : mstate -> str) (s : str) :
  (forall s', match_here r false s' = None) ->
  sub_from r repl false 0 s = s.
Proof.
  intros H. induction s as [|c t IH]; simpl; rewrite H; [reflexivity|].
  rewrite IH. reflexivity.
Qed.

Lemma fence_open_later (s : str) : match_here re_fence_open false s = None.
Proof. reflexivity. Qed.

Lemma fence_open_solid (c : char) (t : str) :
  char_eqb c (ch "`") = false ->
  re_sub re_fence_open repl_empty (c :: t) = c :: t.
Proof.
  intros Hc. unfold re_sub. cbn [sub_from].
  assert (E : match_here re_fence_open true (c :: t) = None).
  { unfold match_here, re_fence_open. cbn [rmatch lits py map list_ascii_of_string].
    change (N_of_ascii "`") with (ch "`").
    cbv beta iota delta [eat rest group1 at_start].
    unfold char_eqb in *. rewrite N.eqb_sym, Hc. reflexivity. }
  rewrite E. f_equal. apply sub_from_no_match. apply fence_open_later.
Qed.

Lemma fence_tail_solid (b : bool) (g : option str) (s : str) (c : char) :
  In c s -> solid c = true -> fence_tail_k (MState b s g) = None.
Proof.
  intros Hin Hc. unfold solid in Hc. apply andb_true_iff in Hc as [Hsp Hbt].
  apply negb_true_iff in Hsp, Hbt.
  assert (Hlf : char_eqb c LF = false).
  { destruct (char_eqb c LF) eqn:E; [|reflexivity].
    apply char_eqb_eq in E. subst c. discriminate. }
  unfold fence_tail_k. cbn [rmatch lits py map list_ascii_of_string].
  change (N_of_ascii "`") with (ch "`").
  cbv beta iota delta [eat rest group1 at_start].
  destruct s as [|x1 s]; [reflexivity|]. 
  destruct (char_eqb (ch "`") x1) eqn:E1; [|reflexivity].
  destruct s as [|x2 s]; [reflexivity|].
  destruct (char_eqb (ch "`") x2) eqn:E2; [|reflexivity].
  destruct s as [|x3 s]; [reflexivity|].
  destruct (char_eqb (ch "`") x3) eqn:E3; [|reflexivity].
  apply char_eqb_eq in E1, E2, E3. subst x1 x2 x3.
  assert (Hne : c <> ch "`").
  { intros ->. discriminate. }
  destruct s as [|x4 s].
  - exfalso. simpl in Hin. intuition congruence.
  - destruct s as [|x5 s]; [|reflexivity].
    destruct (char_eqb x4 LF) eqn:E4; [|reflexivity].
    apply char_eqb_eq in E4. subst x4. exfalso.
    simpl in Hin. destruct Hin as [H|[H|[H|[H|[]]]]]; try congruence.
    subst c. discriminate.
Qed.

Lemma star_fence_solid (b : bool) (g : option str) (s : str) (c : char) :
  In c s -> solid c = true ->
  star_class isspace g b s fence_tail_k = None.
Proof.
  intros Hin Hc. revert b Hin. induction s as [|x s IH]; intros b Hin.
  - destruct Hin.
  - cbn [star_class]. rewrite (fence_tail_solid b g (x :: s) c Hin Hc).
    destruct (isspace x) eqn:Ex; [|reflexivity].
    destruct Hin as [->|Hin].
    + unfold solid in Hc. rewrite Ex in Hc. discriminate.
    + rewrite (IH false Hin). reflexivity.
Qed.

Lemma fence_close_solid (b : bool) (s : str) (c : char) :
  In c s -> solid c = true -> match_here re_fence_close b s = None.
Proof.
  intros Hin Hc. unfold match_here, re_fence_close. cbn [rmatch].
  cbn [group1 at_start rest].
  apply (star_fence_solid b None s c Hin Hc).
Qed.

Lemma sub_fence_close_prefix (A : str) (d : char) (B : str) (b : bool) :
  solid d = true ->
  sub_from re_fence_close repl_empty b 0 (A ++ d :: B)
  = A ++ d :: sub_from re_fence_close repl_empty false 0 B.
Proof.
  intros Hd. revert b. induction A as [|c A IH]; intros b.
  - simpl app. cbn [sub_from].
    rewrite (fence_close_solid b (d :: B) d) by (simpl; auto).
    reflexivity.
  - simpl app. cbn [sub_from].
    rewrite (fence_close_solid b (c :: A ++ d :: B) d);
      [|right; apply in_elt|assumption].
    rewrite IH. reflexivity.
Qed.

Lemma solid_parts (c : char) :
  solid c = true -> isspace c = false /\ char_eqb c (ch "`") = false.
Proof.
  unfold solid. intros H. apply andb_true_iff in H as [H1 H2].
  apply negb_true_iff in H1, H2. auto.
Qed.

Lemma cleaned_prefix (c : char) (A : str) (d : char) (P : str) :
  solid c = true -> solid d = true ->
  cleaned (Some (c :: A ++ d :: P)) = c :: A ++ d :: trailing P.
Proof.
  intros Hc Hd. destruct (solid_parts c Hc) as [Hc1 Hc2].
  destruct (solid_parts d Hd) as [Hd1 Hd2].
  unfold cleaned. rewrite strip_solid by assumption.
  rewrite fence_open_solid by assumption.
  unfold re_sub. rewrite app_comm_cons.
  rewrite sub_fence_close_prefix by assumption.
  rewrite <- app_comm_cons. rewrite strip_solid by assumption.
  reflexivity.
Qed.

Ltac break_match_hyp H :=
  match type of H with
  | context [match ?x with _ => _ end] => destruct x eqn:?
  | context [if ?x then _ else _] => destruct x eqn:?
  end.

Ltac break_match_goal :=
  match goal with
  | |- context [match ?x with _ => _ end] => destruct x eqn:?
  | |- context [if ?x then _ else _] => destruct x eqn:?
  end.

(** *** Every scanner consumes *)

Lemma lstrip_by_length (p : char -> bool) (s : str) :
  length (lstrip_by p s) <= length s.
Proof.
  induction s as [|c t IH]; simpl; [lia|]. destruct (p c); simpl; lia.
Qed.

Lemma skip_ws_length (s : str) : length (skip_ws s) <= length s.
Proof. apply lstrip_by_length. Qed.

Lemma scanstring_length (s x r : str) :
  scanstring s = Some (x, r) -> length r < length s.
Proof.
  remember (length s) as n eqn:En. revert s x r En.
  induction n as [n IH] using lt_wf_ind. intros s x r En H.
  destruct s as [|c t]; [discriminate|]. simpl in En.
  cbn [scanstring] in H.
  assert (Hcons : forall c' t' x r, length t' < n ->
            match scanstring t' with
            | Some (x0, rest) => Some (c' :: x0, rest)
            | None => None
            end = Some (x, r) -> length r < n).
  { intros c' t' x0 r0 Hlt Hs. destruct (scanstring t') as [[x1 r1]|] eqn:E;
      [|discriminate]. injection Hs as <- <-.
    pose proof (IH _ Hlt t' x1 r1 eq_refl E). lia. }
  repeat (break_match_hyp H; try discriminate; subst; simpl length in *;
          try (injection H as <- <-; lia);
          try (eapply Hcons in H; [lia|simpl; lia])).
Qed.

Lemma span_app (p : char -> bool) (s a b : str) :
  span p s = (a, b) -> s = a ++ b.
Proof.
  revert a b. induction s as [|c t IH]; simpl; intros a b H.
  - injection H as <- <-. reflexivity.
  - destruct (p c).
    + destruct (span p t) as [a' b'] eqn:E. injection H as <- <-.
      rewrite (IH a' b' eq_refl). reflexivity.
    + injection H as <- <-. reflexivity.
Qed.

Lemma match_integer_app (s i r : str) :
  match_integer s = Some (i, r) -> s = i ++ r /\ i <> [].
Proof.
  unfold match_integer. intros H.
  destruct s as [|c t]; [discriminate|].
  destruct (char_eqb c (ch "-")) eqn:Em.
  - destruct t as [|c' t']; [discriminate|].
    destruct (char_eqb c' (ch "0")).
    + injection H as <- <-. split; [reflexivity|discriminate].
    + destruct (is_digit c'); [|discriminate].
      destruct (span is_digit t') as [ds r'] eqn:E. injection H as <- <-.
      rewrite (span_app _ _ _ _ E). split; [reflexivity|discriminate].
  - destruct (char_eqb c (ch "0")).
    + injection H as <- <-. split; [reflexivity|discriminate].
    + destruct (is_digit c); [|discriminate].
      destruct (span is_digit t) as [ds r'] eqn:E. injection H as <- <-.
      rewrite (span_app _ _ _ _ E). split; [reflexivity|discriminate].
Qed.

Lemma match_frac_app (s fr r : str) : match_frac s = (fr, r) -> s = fr ++ r.
Proof.
  unfold match_frac. intros H. destruct s as [|c t].
  - injection H as <- <-. reflexivity.
  - destruct (char_eqb c (ch ".")).
    + destruct (span is_digit t) as [[|d ds] r'] eqn:E; injection H as <- <-;
        [reflexivity|]. rewrite (span_app _ _ _ _ E). reflexivity.
    + injection H as <- <-. reflexivity.
Qed.

Lemma match_exp_app (s ex r : str) : match_exp s = (ex, r) -> s = ex ++ r.
Proof.
  unfold match_exp. intros H. destruct s as [|c t].
  - injection H as <- <-. reflexivity.
  - destruct (char_eqb c (ch "e") || char_eqb c (ch "E")).
    + destruct t as [|x t'].
      * simpl in H. injection H as <- <-. reflexivity.
      * destruct (char_eqb x (ch "+") || char_eqb x (ch "-")).
        -- destruct (span is_digit t') as [[|d ds] r'] eqn:E;
             injection H as <- <-; [reflexivity|].
           rewrite (span_app _ _ _ _ E). reflexivity.
        -- destruct (span is_digit (x :: t')) as [[|d ds] r'] eqn:E;
             injection H as <- <-; [reflexivity|].
           rewrite (span_app _ _ _ _ E). reflexivity.
    + injection H as <- <-. reflexivity.
Qed.

Lemma match_number_length (s i fr ex r : str) :
  match_number s = Some (i, fr, ex, r) -> length r < length s.
Proof.
  unfold match_number. intros H.
  destruct (match_integer s) as [[i' r0]|] eqn:Ei; [|discriminate].
  destruct (match_frac r0) as [fr' r1] eqn:Ef.
  destruct (match_exp r1) as [ex' r2] eqn:Ee.
  injection H as <- <- <- <-.
  destruct (match_integer_app _ _ _ Ei) as [-> Hne].
  rewrite (match_frac_app _ _ _ Ef), (match_exp_app _ _ _ Ee).
  rewrite !length_app. destruct i'; [congruence|]. simpl. lia.
Qed.

Lemma length_skipn_eq (n : nat) (s : str) : length (skipn n s) = length s - n.
Proof.
  revert s. induction n as [|n IH]; intros [|c t]; simpl; auto.
Qed.

Lemma scanned_inj {A : Type} (a a' : A) (r r' : str) :
  Scanned a r = Scanned a' r' -> a = a' /\ r = r'.
Proof. intros H. injection H as -> ->. auto. Qed.

(** *** The digits of an integer literal *)

Lemma digit_count_all (s : str) :
  forallb is_digit s = true -> digit_count s = length s.
Proof.
  unfold digit_count. induction s as [|c s IH]; simpl; [reflexivity|].
  intros H. apply andb_true_iff in H as [-> H]. simpl. rewrite IH; auto.
Qed.

Lemma digit_count_minus (s : str) :
  digit_count (ch "-" :: s) = digit_count s.
Proof. reflexivity. Qed.

Lemma span_all (p : char -> bool) (s a b : str) :
  span p s = (a, b) -> forallb p a = true.
Proof.
  revert a b. induction s as [|c s IH]; simpl; intros a b H.
  - injection H as <- <-. reflexivity.
  - destruct (p c) eqn:E.
    + destruct (span p s) as [a' b']. injection H as <- <-.
      simpl. rewrite E. eapply IH; reflexivity.
    + injection H as <- <-. reflexivity.
Qed.

Lemma match_integer_shape (s i r : str) :
  match_integer s = Some (i, r) ->
  exists ds, (i = ds \/ i = ch "-" :: ds) /\ ds <> [] /\
             forallb is_digit ds = true.
Proof.
  unfold match_integer. intros H.
  destruct s as [|c t]; [discriminate|].
  destruct (char_eqb c (ch "-")) eqn:Em.
  - apply char_eqb_eq in Em. subst c.
    destruct t as [|c' t']; [discriminate|].
    destruct (char_eqb c' (ch "0")) eqn:E0.
    + injection H as <- <-. apply char_eqb_eq in E0. subst c'.
      exists [ch "0"]. split; [right; reflexivity|]. split; [discriminate|reflexivity].
    + destruct (is_digit c') eqn:Ed; [|discriminate].
      destruct (span is_digit t') as [ds r'] eqn:E. injection H as <- <-.
      exists (c' :: ds). split; [right; reflexivity|]. split; [discriminate|].
      simpl. rewrite Ed. eapply span_all; eauto.
  - destruct (char_eqb c (ch "0")) eqn:E0.
    + injection H as <- <-. apply char_eqb_eq in E0. subst c.
      exists [ch "0"]. split; [left; reflexivity|]. split; [discriminate|reflexivity].
    + destruct (is_digit c) eqn:Ed; [|discriminate].
      destruct (span is_digit t) as [ds r'] eqn:E. injection H as <- <-.
      exists (c :: ds). split; [left; reflexivity|]. split; [discriminate|].
      simpl. rewrite Ed. eapply span_all; eauto.
Qed.

Lemma nb_digits_of_digits (ds : str) :
  Decimal.nb_digits (uint_of_digits ds) = length ds.
Proof.
  unfold uint_of_digits. induction ds as [|c ds IH]; [reflexivity|].
  cbn [fold_right length]. rewrite <- IH.
  generalize (fold_right digit_of Decimal.Nil ds). intros u.
  unfold digit_of. destruct (c - 48)%N as [|p]; [reflexivity|].
  do 4 (try (destruct p as [p|p|]; try reflexivity)).
Qed.

Lemma digits_of_uint_length (u : Decimal.uint) :
  length (digits_of_uint u) = Decimal.nb_digits u.
Proof. induction u; simpl; auto. Qed.

Lemma digit_count_of_uint (u : Decimal.uint) :
  digit_count (digits_of_uint u) = Decimal.nb_digits u.
Proof.
  rewrite digit_count_all by apply digits_of_uint_digits.
  apply digits_of_uint_length.
Qed.

Lemma int_repr_of_text_digits (i ds : str) :
  (i = ds \/ i = ch "-" :: ds) -> ds <> [] -> forallb is_digit ds = true ->
  digit_count (int_repr (int_of_text i)) <= digit_count i.
Proof.
  intros Hi Hne Hds.
  assert (Hnb : Decimal.nb_digits (uint_of_digits ds) = length ds)
    by apply nb_digits_of_digits.
  assert (Hlen : 1 <= length ds) by (destruct ds; [congruence|simpl; lia]).
  assert (Hnil : uint_of_digits ds <> Decimal.Nil).
  { intros E. rewrite E in Hnb. simpl in Hnb. lia. }
  destruct Hi as [-> | ->].
  - rewrite (digit_count_all ds Hds).
    unfold int_of_text. destruct ds as [|c t]; [congruence|].
    assert (Hc : char_eqb c (ch "-") = false).
    { simpl in Hds. apply andb_true_iff in Hds as [Hc _].
      destruct (char_eqb c (ch "-")) eqn:E; [|reflexivity].
      apply char_eqb_eq in E. subst c. discriminate. }
    rewrite Hc. unfold int_repr. rewrite DecimalZ.to_of. cbn [Decimal.norm].
    rewrite digit_count_of_uint.
    pose proof (DecimalFacts.nb_digits_unorm _ Hnil). lia.
  - rewrite digit_count_minus, (digit_count_all ds Hds).
    unfold int_of_text. change (char_eqb (ch "-") (ch "-")) with true. cbv iota.
    unfold int_repr. rewrite DecimalZ.to_of. unfold Decimal.norm.
    pose proof (DecimalFacts.nb_digits_nzhead (uint_of_digits ds)) as Hz.
    destruct (Decimal.nzhead (uint_of_digits ds)) eqn:E;
      try (rewrite digit_count_minus, digit_count_of_uint; lia).
    simpl. unfold digit_count. simpl. lia.
Qed.

Lemma int_digits_ok_repr (s i fr ex r : str) :
  match_number s = Some (i, fr, ex, r) -> int_digits_ok i = true ->
  int_digits_ok (int_repr (int_of_text i)) = true.
Proof.
  unfold match_number. intros H Hok.
  destruct (match_integer s) as [[i' r0]|] eqn:Ei; [|discriminate].
  destruct (match_frac r0) as [fr' r1]. destruct (match_exp r1) as [ex' r2].
  injection H as <- <- <- <-.
  destruct (match_integer_shape _ _ _ Ei) as (ds & Hi & Hne & Hds).
  pose proof (int_repr_of_text_digits i' ds Hi Hne Hds) as Hle.
  unfold int_digits_ok in *. apply N.leb_le in Hok. apply N.leb_le. lia.
Qed.

(** *** [dict(pairs)] has distinct keys *)

Lemma str_eqb_sym (a b : str) : str_eqb a b = str_eqb b a.
Proof.
  destruct (str_eqb a b) eqn:E1, (str_eqb b a) eqn:E2; try reflexivity.
  - apply str_eqb_eq in E1. subst. rewrite (proj2 (str_eqb_eq b b) eq_refl) in E2.
    discriminate.
  - apply str_eqb_eq in E2. subst. rewrite (proj2 (str_eqb_eq a a) eq_refl) in E1.
    discriminate.
Qed.

Lemma dict_set_keys (d : list (str * value)) (k : str) (v : value) :
  map fst (dict_set d k v) =
  if existsb (str_eqb k) (map fst d) then map fst d else map fst d ++ [k].
Proof.
  induction d as [|[k' v'] d IH]; simpl; [reflexivity|].
  rewrite (str_eqb_sym k k'). destruct (str_eqb k' k); simpl; [reflexivity|].
  rewrite IH. destruct (existsb (str_eqb k) (map fst d)); reflexivity.
Qed.

Lemma distinct_keys_snoc (ks : list str) (k : str) :
  distinct_keys ks = true -> existsb (str_eqb k) ks = false ->
  distinct_keys (ks ++ [k]) = true.
Proof.
  induction ks as [|x ks IH]; simpl; [reflexivity|].
  intros H Hk. apply andb_true_iff in H as [H1 H2].
  apply orb_false_iff in Hk as [Hk1 Hk2].
  apply andb_true_iff. split; [|auto].
  apply negb_true_iff. rewrite existsb_app. apply negb_true_iff in H1.
  rewrite H1. simpl. rewrite (str_eqb_sym x k), Hk1. reflexivity.
Qed.

Lemma dict_set_distinct (d : list (str * value)) (k : str) (v : value) :
  distinct_keys (map fst d) = true ->
  distinct_keys (map fst (dict_set d k v)) = true.
Proof.
  intros H. rewrite dict_set_keys.
  destruct (existsb (str_eqb k) (map fst d)) eqn:E; [assumption|].
  apply distinct_keys_snoc; assumption.
Qed.

Lemma dict_set_values (P : value -> bool) (d : list (str * value))
    (k : str) (v : value) :
  forallb (fun kv => P (snd kv)) d = true -> P v = true ->
  forallb (fun kv => P (snd kv)) (dict_set d k v) = true.
Proof.
  induction d as [|[k' v'] d IH]; simpl; intros H Hv.
  - rewrite Hv. reflexivity.
  - apply andb_true_iff in H as [H1 H2].
    destruct (str_eqb k' k); simpl.
    + rewrite Hv, H2. reflexivity.
    + rewrite H1. simpl. auto.
Qed.

Lemma dict_of_pairs_well_formed (ps : list (str * value)) :
  forallb (fun kv => well_formed (snd kv)) ps = true ->
  well_formed (PyDict (dict_of_pairs ps)) = true.
Proof.
  intros H. unfold dict_of_pairs.
  assert (G : forall acc,
    distinct_keys (map fst acc) = true ->
    forallb (fun kv => well_formed (snd kv)) acc = true ->
    well_formed (PyDict (fold_left (fun d kv => dict_set d (fst kv) (snd kv)) ps acc)) = true).
  { induction ps as [|[k v] ps IH]; intros acc Hd Hv.
    - simpl. rewrite Hd, Hv. reflexivity.
    - simpl in H. apply andb_true_iff in H as [Hv1 Hps].
      simpl fold_left. apply IH; [assumption| |].
      + apply dict_set_distinct; assumption.
      + apply dict_set_values; assumption. }
  apply G; reflexivity.
Qed.

Ltac harvest IH1 IH2 IH3 :=
  repeat match goal with
  | H : scan_once _ _ = Scanned _ _ |- _ => apply IH1 in H; destruct H
  | H : object_pairs _ _ = Scanned _ _ |- _ => apply IH2 in H; destruct H
  | H : array_items _ _ = Scanned _ _ |- _ => apply IH3 in H; destruct H
  | H : scanstring _ = Some _ |- _ => apply scanstring_length in H
  | H : match_number _ = Some _ |- _ => apply match_number_length in H
  | H : skip_ws ?x = _ :: _ |- _ =>
      let H' := fresh in
      pose proof (skip_ws_length x) as H'; rewrite H in H'; clear H
  end.

Ltac skip_ws_facts :=
  repeat match goal with
  | H : context [length (skip_ws ?x)] |- _ =>
      lazymatch goal with
      | _ : length (skip_ws x) <= length x |- _ => fail
      | _ => pose proof (skip_ws_length x)
      end
  end.

Ltac scanned_case IH1 IH2 IH3 H :=
  repeat (break_match_hyp H; try discriminate);
  try (apply scanned_inj in H; destruct H as [<- <-]);
  repeat match goal with
  | H1 : match_number _ = Some (?i, _, _, _), H2 : int_digits_ok ?i = true |- _ =>
      pose proof (int_digits_ok_repr _ _ _ _ _ H1 H2); clear H2
  end;
  harvest IH1 IH2 IH3; skip_ws_facts;
  try rewrite !length_skipn_eq; simpl length in *;
  (split; [try lia|]);
  try (match goal with
       | |- well_formed (PyInt ?z) = true =>
           change (int_digits_ok (int_repr z) = true); assumption
       end);
  try reflexivity;
  try (apply dict_of_pairs_well_formed; assumption);
  try (simpl; repeat (apply andb_true_iff; split);
       first [assumption | reflexivity]).

Lemma scanner_sound (fuel : nat) : scan_sound fuel.
Proof.
  induction fuel as [|n (IH1 & IH2 & IH3)].
  - repeat split; intros; discriminate.
  - split; [|split].
    + intros s v r H. cbn [scan_once] in H.
      scanned_case IH1 IH2 IH3 H.
    + intros s ps r H. cbn [object_pairs] in H.
      scanned_case IH1 IH2 IH3 H.
    + intros s l r H. cbn [array_items] in H.
      scanned_case IH1 IH2 IH3 H.
Qed.

Ltac length_facts :=
  repeat match goal with
  | H : scan_once _ _ = Scanned _ _ |- _ =>
      apply scanner_sound in H; destruct H as [H _]
  | H : object_pairs _ _ = Scanned _ _ |- _ =>
      apply scanner_sound in H; destruct H as [H _]
  | H : array_items _ _ = Scanned _ _ |- _ =>
      apply scanner_sound in H; destruct H as [H _]
  | H : scanstring _ = Some _ |- _ => apply scanstring_length in H
  | H : match_number _ = Some _ |- _ => apply match_number_length in H
  | H : skip_ws ?x = _ :: _ |- _ =>
      let H' := fresh in
      pose proof (skip_ws_length x) as H'; rewrite H in H'; clear H
  end;
  repeat match goal with
  | |- context [length (skip_ws ?x)] =>
      lazymatch goal with
      | _ : length (skip_ws x) <= length x |- _ => fail
      | _ => pose proof (skip_ws_length x)
      end
  end;
  skip_ws_facts; simpl length in *.

Ltac out_of_fuel_case IH1 IH2 IH3 H :=
  repeat (break_match_hyp H; try discriminate);
  match goal with
  | G : scan_once _ _ = OutOfFuel |- _ =>
      apply IH1 in G; [contradiction|]; length_facts; lia
  | G : object_pairs _ _ = OutOfFuel |- _ =>
      apply IH2 in G; [contradiction|]; length_facts; lia
  | G : array_items _ _ = OutOfFuel |- _ =>
      apply IH3 in G; [contradiction|]; length_facts; lia
  end.

Lemma scanner_fuel (fuel : nat) : fuel_enough fuel.
Proof.
  induction fuel as [|n (IH1 & IH2 & IH3)].
  - repeat split; intros s Hs; simpl in Hs; lia.
  - split; [|split]; intros s Hs H.
    + cbn [scan_once] in H. out_of_fuel_case IH1 IH2 IH3 H.
    + cbn [object_pairs] in H. out_of_fuel_case IH1 IH2 IH3 H.
    + cbn [array_items] in H. out_of_fuel_case IH1 IH2 IH3 H.
Qed.

Theorem loads_fuel_enough (s : str) :
  scan_once (fuel_for s) (skip_ws s) <> OutOfFuel.
Proof.
  apply scanner_fuel. unfold fuel_for. pose proof (skip_ws_length s). lia.
Qed.

Ltac raise_case IH1 IH2 IH3 H :=
  repeat (break_match_hyp H; try discriminate);
  injection H as <-;
  first [ eexists; reflexivity
        | eapply IH1; eassumption
        | eapply IH2; eassumption
        | eapply IH3; eassumption ].

Lemma scanner_raises (fuel : nat) : scan_raises fuel.
Proof.
  induction fuel as [|n (IH1 & IH2 & IH3)].
  - repeat split; intros; discriminate.
  - split; [|split]; intros s e H.
    + cbn [scan_once] in H. raise_case IH1 IH2 IH3 H.
    + cbn [object_pairs] in H. raise_case IH1 IH2 IH3 H.
    + cbn [array_items] in H. raise_case IH1 IH2 IH3 H.
Qed.

Lemma int_digits_error_is_value_error (i : str) :
  exists msg, int_digits_error i = ValueError (ch "E" :: msg).
Proof. unfold int_digits_error. eexists. reflexivity. Qed.

Theorem loads_well_formed (s : str) (v : value) :
  loads s = Ok v -> well_formed v = true.
Proof.
  unfold loads. intros H.
  repeat (break_match_hyp H; try discriminate).
  injection H as <-.
  match goal with
  | G : scan_once _ _ = Scanned _ _ |- _ => apply scanner_sound in G; apply G
  end.
Qed.

Ltac break_any :=
  match goal with
  | H : context [match ?x with _ => _ end] |- _ => destruct x eqn:?
  end.

Lemma is_str_list_well_formed (v : value) :
  is_str_list v = true -> well_formed v = true.
Proof.
  destruct v as [| | | | |l|]; try discriminate. simpl.
  induction l as [|x l IH]; simpl; [reflexivity|].
  intros H. apply andb_true_iff in H as [Hx Hl].
  destruct x; try discriminate. simpl. auto.
Qed.

Lemma plan_shape_well_formed (v : value) :
  plan_shape v = true -> well_formed v = true.
Proof.
  destruct v as [| | | | | |d]; try discriminate. simpl.
  intros H. repeat (apply andb_true_iff in H as [H ?]).
  apply andb_true_iff. split; [assumption|].
  eapply forallb_forall. intros kv Hin.
  apply is_str_list_well_formed.
  match goal with
  | G : forallb (fun kv => is_str_list (snd kv)) d = true |- _ =>
      apply (proj1 (forallb_forall _ _) G kv Hin)
  end.
Qed.

Lemma try_parse_loads (s : str) (v : value) :
  loads s = Ok v -> try_parse s = Some (dumps v).
Proof. unfold try_parse. intros ->. reflexivity. Qed.

Lemma try_parse_some (s out : str) :
  try_parse s = Some out -> exists v, loads s = Ok v /\ out = dumps v.
Proof.
  unfold try_parse. destruct (loads s) as [v|e]; [|discriminate].
  intros H. injection H as <-. eauto.
Qed.

Lemma fix_json_first_strategy (input out : str) :
  try_parse (cleaned (Some input)) = Some out ->
  fix_json (Some input) = Ok (Some out).
Proof. unfold fix_json, fix_json_body. intros ->. reflexivity. Qed.

Lemma dumps_dict_shape (d : list (str * value)) :
  exists A, dumps (PyDict d) = ch "{" :: A ++ [ch "}"].
Proof.
  unfold dumps. destruct d as [|kv d].
  - exists []. reflexivity.
  - eexists. cbn [encode]. rewrite !app_assoc. reflexivity.
Qed.

Lemma cleaned_dumps_dict (d : list (str * value)) :
  cleaned (Some (dumps (PyDict d))) = dumps (PyDict d).
Proof.
  destruct (dumps_dict_shape d) as [A ->].
  rewrite cleaned_prefix by reflexivity. reflexivity.
Qed.

(** C2.  For every object O with the Plan shape (the fields steps,
    assumptions and success_criteria, each a sequence of strings), the
    serialization of O passes the fence stripping unchanged, the first
    strategy of [fix_json] parses it to O and returns its
    re-serialization, and parsing what [fix_json] returns gives O. *)
Theorem plan_round_trip (O : value) :
  plan_shape O = true ->
  cleaned (Some (dumps O)) = dumps O /\
  try_parse (cleaned (Some (dumps O))) = Some (dumps O) /\
  fix_json (Some (dumps O)) = Ok (Some (dumps O)) /\
  loads (dumps O) = Ok O.
Proof.
  intros H. pose proof (loads_dumps O (plan_shape_well_formed O H)) as Hl.
  destruct O as [| | | | | |d]; try discriminate.
  pose proof (cleaned_dumps_dict d) as Hc.
  assert (Ht : try_parse (cleaned (Some (dumps (PyDict d)))) = Some (dumps (PyDict d))).
  { rewrite Hc. apply try_parse_loads. assumption. }
  repeat split; try assumption.
  apply fix_json_first_strategy. assumption.
Qed.

(** *** Every success of [fix_json] is a serialization *)

Lemma fallback_plan_well_formed (steps : list str) :
  well_formed (fallback_plan steps) = true.
Proof.
  unfold fallback_plan. simpl.
  assert (H : forallb well_formed (map PyStr steps) = true)
    by (induction steps; simpl; auto).
  rewrite H. reflexivity.
Qed.

Lemma fix_json_is_dumps (json_str : option str) (out : str) :
  fix_json json_str = Ok (Some out) ->
  exists v, well_formed v = true /\ out = dumps v.
Proof.
  unfold fix_json, fix_json_body. intros H.
  repeat (break_any; try discriminate);
    repeat match goal with
    | G : Some _ = Some _ |- _ => injection G as G; subst
    | G : Ok _ = Ok _ |- _ => injection G as G; subst
    end;
    try congruence;
    try (eexists; split; [apply fallback_plan_well_formed|reflexivity]);
    match goal with
    | G : try_parse _ = Some _ |- _ =>
        apply try_parse_some in G; destruct G as (v & Hv & ->);
        exists v; split; [exact (loads_well_formed _ _ Hv)|reflexivity]
    end.
Qed.

(** C9.  Whenever [fix_json] returns a text, the text is the serialization
    ([json.dumps] with indent 2, keys in order, non-ASCII kept) of a value,
    and parsing it succeeds and gives that value, on every success path,
    the line-salvage fallback included. *)
Theorem fix_json_output_parses (json_str : option str) (out : str) :
  fix_json json_str = Ok (Some out) ->
  exists v, out = dumps v /\ loads out = Ok v.
Proof.
  intros H. destruct (fix_json_is_dumps _ _ H) as (v & Hwf & ->).
  exists v. split; [reflexivity|]. apply loads_dumps. assumption.
Qed.

Lemma blank_nonempty (a : attr str) :
  blank a = true ->
  match getattr a with
  | Ok t => nonempty t = None
  | Raise _ => True
  end.
Proof. destruct a as [| |[|c t]]; simpl; auto; discriminate. Qed.

Lemma append_part_texts_blank (ps : list part) :
  forallb (fun p => blank (part_text p)) ps = true ->
  no_result (append_part_texts ps []).
Proof.
  induction ps as [|p ps IH]; simpl; intros H.
  - left; reflexivity.
  - apply andb_true_iff in H as [Hp Hps].
    pose proof (blank_nonempty _ Hp) as Hb.
    destruct (getattr (part_text p)) as [t|e]; [|right; eauto].
    rewrite Hb. auto.
Qed.

Lemma append_candidates_blank (cs : list candidate) :
  forallb (fun c =>
             blank (candidate_text c) &&
             match candidate_content c with
             | Attr ct => parts_blank (content_parts ct)
             | _ => true
             end) cs = true ->
  no_result (append_candidates cs []).
Proof.
  induction cs as [|c cs IH]; simpl; intros H.
  - left; reflexivity.
  - apply andb_true_iff in H as [Hc Hcs]. apply andb_true_iff in Hc as [Ht Hct].
    specialize (IH Hcs).
    assert (Hc : no_result (append_candidate c [])).
    { unfold append_candidate.
      pose proof (blank_nonempty _ Ht) as Hb.
      destruct (candidate_content c) as [| |ct]; simpl.
      - destruct (getattr (candidate_text c)); [rewrite Hb; left|right]; eauto.
      - right; eauto.
      - destruct (content_parts ct) as [| |ps]; simpl.
        + destruct (getattr (candidate_text c)); [rewrite Hb; left|right]; eauto.
        + right; eauto.
        + destruct ps as [|p ps]; simpl nonempty; cbv iota.
          * destruct (getattr (candidate_text c)); [rewrite Hb; left|right]; eauto.
          * apply append_part_texts_blank. exact Hct. }
    destruct Hc as [->|[e ->]]; [exact IH|right; eauto].
Qed.

Lemma collect_parts_textless (r : response) :
  textless r = true -> no_result (collect_parts r).
Proof.
  unfold textless. intros H. apply andb_true_iff in H as [H Hc].
  apply andb_true_iff in H as [Ht Hr].
  assert (Hcands : no_result
    match getattr (response_candidates r) with
    | Raise e => Raise e
    | Ok cs => match nonempty cs with
               | Some cs' => append_candidates cs' []
               | None => Ok []
               end
    end).
  { destruct (response_candidates r) as [| |cs]; simpl.
    - left; reflexivity.
    - right; eauto.
    - destruct cs as [|c cs]; simpl nonempty; cbv iota; [left; reflexivity|].
      apply append_candidates_blank. exact Hc. }
  unfold collect_parts.
  destruct (response_result r) as [| |ro]; simpl getattr; cbv iota.
  - exact Hcands.
  - right; eauto.
  - destruct (result_parts ro) as [| |ps]; simpl getattr; cbv iota.
    + exact Hcands.
    + right; eauto.
    + destruct ps as [|p ps]; simpl nonempty; cbv iota; [exact Hcands|].
      apply append_part_texts_blank. exact Hr.
Qed.

Lemma extract_textless (r : response) :
  textless r = true -> _extract_text_from_response r = Ok None.
Proof.
  intros H. pose proof (collect_parts_textless r H) as Hc.
  unfold _extract_text_from_response, extract_body.
  unfold textless in H. apply andb_true_iff in H as [H _].
  apply andb_true_iff in H as [Ht _].
  pose proof (blank_nonempty _ Ht) as Hb.
  destruct (getattr (response_text r)) as [t|e].
  - rewrite Hb. destruct Hc as [->|[e ->]]; reflexivity.
  - destruct Hc as [->|[e' ->]]; reflexivity.
Qed.

Lemma nonempty_some {A : Type} (o : option (list A)) (x : list A) :
  nonempty o = Some x -> x <> [].
Proof.
  destruct o as [[|a l]|]; simpl; try discriminate.
  intros H; injection H as <-. discriminate.
Qed.

Lemma all_nonempty_snoc (acc : list str) (x : str) :
  all_nonempty acc -> x <> [] -> all_nonempty (acc ++ [x]).
Proof.
  intros Ha Hx. apply Forall_app. split; [assumption|]. constructor; auto.
Qed.

Lemma append_part_texts_nonempty (ps : list part) (acc acc' : list str) :
  all_nonempty acc -> append_part_texts ps acc = Ok acc' -> all_nonempty acc'.
Proof.
  revert acc. induction ps as [|p ps IH]; simpl; intros acc Ha H.
  - injection H as <-. assumption.
  - destruct (getattr (part_text p)) as [t|e]; [|discriminate].
    destruct (nonempty t) as [x|] eqn:E; (eapply IH; [|exact H]);
      [|assumption].
    apply all_nonempty_snoc; [assumption|]. eapply nonempty_some; eauto.
Qed.

Lemma candidate_text_nonempty (c : candidate) (acc acc' : list str) :
  all_nonempty acc ->
  match getattr (candidate_text c) with
  | Raise e => Raise e
  | Ok t => match nonempty t with
            | Some x => Ok (acc ++ [x])
            | None => Ok acc
            end
  end = Ok acc' -> all_nonempty acc'.
Proof.
  intros Ha H. destruct (getattr (candidate_text c)) as [t|e]; [|discriminate].
  destruct (nonempty t) as [x|] eqn:E; injection H as <-; [|assumption].
  apply all_nonempty_snoc; [assumption|]. eapply nonempty_some; eauto.
Qed.

Lemma append_candidate_nonempty (c : candidate) (acc acc' : list str) :
  all_nonempty acc -> append_candidate c acc = Ok acc' -> all_nonempty acc'.
Proof.
  unfold append_candidate. intros Ha H.
  destruct (getattr (candidate_content c)) as [[ct|]|e]; [| |discriminate].
  - destruct (getattr (content_parts ct)) as [ps|e]; [|discriminate].
    destruct (nonempty ps) as [ps'|].
    + eapply append_part_texts_nonempty; eauto.
    + eapply candidate_text_nonempty; eauto.
  - eapply candidate_text_nonempty; eauto.
Qed.

Lemma append_candidates_nonempty (cs : list candidate) (acc acc' : list str) :
  all_nonempty acc -> append_candidates cs acc = Ok acc' -> all_nonempty acc'.
Proof.
  revert acc. induction cs as [|c cs IH]; simpl; intros acc Ha H.
  - injection H as <-. assumption.
  - destruct (append_candidate c acc) as [acc1|e] eqn:E; [|discriminate].
    eapply IH; [|exact H]. eapply append_candidate_nonempty; eauto.
Qed.

Lemma collect_parts_nonempty (r : response) (parts : list str) :
  collect_parts r = Ok parts -> all_nonempty parts.
Proof.
  unfold collect_parts. intros H.
  assert (Hnil : all_nonempty []) by constructor.
  repeat (break_match_hyp H; try discriminate);
    try (injection H as <-; assumption);
    try (eapply append_part_texts_nonempty; eauto; fail);
    try (eapply append_candidates_nonempty; eauto; fail).
Qed.

Lemma join_nonempty (sep : str) (parts : list str) :
  parts <> [] -> all_nonempty parts -> join sep parts <> [].
Proof.
  intros Hne Hall. destruct parts as [|p ps]; [congruence|].
  inversion Hall as [|? ? Hp Hps]; subst.
  destruct ps as [|q ps]; simpl; [assumption|].
  destruct p; [congruence|discriminate].
Qed.

Theorem extract_never_empty (r : response) :
  _extract_text_from_response r <> Ok (Some []).
Proof.
  unfold _extract_text_from_response, extract_body.
  destruct (match getattr (response_text r) with
            | Ok t => nonempty t
            | Raise _ => None
            end) as [x|] eqn:E.
  - intros H. injection H as ->.
    destruct (getattr (response_text r)) as [t|e]; [|discriminate].
    apply nonempty_some in E. congruence.
  - destruct (collect_parts r) as [[|p ps]|e] eqn:Ec; try discriminate.
    intros H. injection H as H.
    apply (join_nonempty [LF] (p :: ps)); [discriminate| |exact H].
    eapply collect_parts_nonempty; eauto.
Qed.

Ltac pair_eqs :=
  repeat match goal with
  | G : (_, _) = (_, _) |- _ => inversion G; clear G; subst
  end.

(** C7.  [fix_json] and [_extract_text_from_response] never raise: each
    returns what its body returns, or absence when the body fails; and the
    JSON scanner they rest on never runs out of fuel, so that the functions
    of the model terminate like the code. *)
Theorem recovery_never_raises :
  (forall json_str,
      (exists x, fix_json_body json_str = Ok x /\ fix_json json_str = Ok x) \/
      fix_json json_str = Ok None) /\
  (forall r,
      (exists x, extract_body r = Ok x /\
                 _extract_text_from_response r = Ok x) \/
      _extract_text_from_response r = Ok None) /\
  (forall json_str, is_ok (fix_json json_str) = true) /\
  (forall r, is_ok (_extract_text_from_response r) = true) /\
  (forall s, scan_once (fuel_for s) (skip_ws s) <> OutOfFuel).
Proof.
  repeat split.
  - intros j. unfold fix_json. destruct (fix_json_body j); eauto.
  - intros r. unfold _extract_text_from_response.
    destruct (extract_body r); eauto.
  - intros j. unfold fix_json. destruct (fix_json_body j); reflexivity.
  - intros r. unfold _extract_text_from_response.
    destruct (extract_body r); reflexivity.
  - apply loads_fuel_enough.
Qed.

(** *** The planning stage *)

Lemma obtain_text_service (E : env) (mock : option str) (prompt : str)
    (tr : list event) :
  nonempty mock = None ->
  obtain_text E mock prompt tr =
  (match generate_content E tr prompt with
   | Raise e => Raise e
   | Ok response => _extract_text_from_response response
   end, tr ++ [Generate prompt]).
Proof.
  intros H. unfold obtain_text. rewrite H.
  destruct (generate_content E tr prompt); reflexivity.
Qed.

Lemma obtain_text_mock (E : env) (m : str) (prompt : str) (tr : list event) :
  m <> [] -> obtain_text E (Some m) prompt tr = (Ok (Some m), tr).
Proof. intros H. unfold obtain_text. destruct m; [congruence|reflexivity]. Qed.

(** C6.  A response that holds no non-empty text anywhere makes the
    extractor return absence (and the extractor never returns the empty
    text, whatever the response); the planning stage then fails with the
    no-text error, and its trace shows the call of the service and the
    debug dump only: no parse and no repair was attempted. *)
Theorem textless_response_fails_planning (E : env) (mock : option str)
    (user_request : str) (tr : list event) (r : response) :
  nonempty mock = None ->
  generate_content E tr (planning_prompt user_request) = Ok r ->
  textless r = true ->
  _extract_text_from_response r = Ok None /\
  (forall r', _extract_text_from_response r' <> Ok (Some [])) /\
  chain1_planning E mock user_request tr =
    (Raise no_text_error,
     (tr ++ [Generate (planning_prompt user_request)]) ++
     [WriteFile dump_path []
        (write_file E (tr ++ [Generate (planning_prompt user_request)])
           dump_path [])]).
Proof.
  intros Hmock Hgen Hr. pose proof (extract_textless r Hr) as Hx.
  split; [assumption|]. split; [apply extract_never_empty|].
  unfold chain1_planning, planning_try.
  rewrite (obtain_text_service E mock _ tr Hmock), Hgen, Hx. reflexivity.
Qed.

(** C8.  When the planning stage fails, the last event of its trace is the
    write of the raw text to the debug-dump path, whether or not the write
    succeeded; and the failure is the same under any file system: a failing
    dump never replaces it. *)
Theorem planning_failure_dumps_raw_text (E : env) (mock : option str)
    (user_request : str) (tr tr' : list event) (e : exn) :
  chain1_planning E mock user_request tr = (Raise e, tr') ->
  (exists pre done,
      tr' = pre ++ [WriteFile dump_path (raw_text E mock user_request tr) done]) /\
  (forall E',
      generate_content E' tr (planning_prompt user_request) =
      generate_content E tr (planning_prompt user_request) ->
      fst (chain1_planning E' mock user_request tr) = Raise e).
Proof.
  intros H. split.
  - unfold chain1_planning, planning_try, raw_text in *.
    destruct (obtain_text E mock (planning_prompt user_request) tr)
      as [[[t|]|e0] tr1] eqn:Eo; simpl fst.
    + repeat (break_any; try discriminate); pair_eqs;
        unfold dump_raw; eauto.
    + injection H as <- <-. unfold dump_raw. eauto.
    + injection H as <- <-. unfold dump_raw. eauto.
  - intros E' Hgen.
    assert (Ho : fst (obtain_text E' mock (planning_prompt user_request) tr)
                 = fst (obtain_text E mock (planning_prompt user_request) tr)).
    { unfold obtain_text. destruct (nonempty mock); [reflexivity|].
      rewrite Hgen. destruct (generate_content E tr _); reflexivity. }
    unfold chain1_planning, planning_try in *.
    destruct (obtain_text E mock (planning_prompt user_request) tr)
      as [o tr1] eqn:Eo.
    destruct (obtain_text E' mock (planning_prompt user_request) tr)
      as [o' tr1'] eqn:Eo'.
    simpl in Ho. subst o'.
    destruct o as [[t|]|e0].
    + repeat (break_any; try discriminate); pair_eqs;
        repeat match goal with
        | G : show_plan _ = _ |- _ => rewrite G
        end; reflexivity.
    + injection H as <- <-. reflexivity.
    + injection H as <- <-. reflexivity.
Qed.

(** C3 (amended).  With a non-empty mock text loaded, both stages take the
    mock text instead of calling the completion service: the planning stage
    parses it, the execution stage returns it as the guide, and a whole run
    makes no call of the service. *)
Theorem mock_replaces_both_stages (E : env) (m : str) (user_request : str)
    (plan : value) (tr : list event) :
  m <> [] ->
  (forall prompt, obtain_text E (Some m) prompt tr = (Ok (Some m), tr)) /\
  (exists r tr', chain1_planning E (Some m) user_request tr
                 = (r, tr ++ Parse m :: tr')) /\
  chain2_execution E (Some m) user_request plan tr = (Ok m, tr) /\
  existsb is_generate (snd (generate E (Some m) user_request [])) = false.
Proof.
  intros Hm. split; [intros; apply obtain_text_mock; assumption|].
  split; [|split].
  - unfold chain1_planning, planning_try. rewrite obtain_text_mock by assumption.
    unfold dump_raw.
    destruct (loads m) as [v|e].
    + destruct (show_plan v); eexists _, _; rewrite <- ?app_assoc; reflexivity.
    + destruct e; try (eexists _, _; rewrite <- ?app_assoc; reflexivity).
      destruct (fix_json (Some m)) as [[[|c fx]|]|e]; simpl nonempty; cbv iota;
        try (eexists _, _; rewrite <- ?app_assoc; reflexivity).
      destruct (loads (c :: fx)) as [v|e']; [destruct (show_plan v)|];
        eexists _, _; rewrite <- ?app_assoc; reflexivity.
  - unfold chain2_execution. rewrite obtain_text_mock by assumption.
    reflexivity.
  - unfold generate, chain1_planning, planning_try.
    rewrite obtain_text_mock by assumption. unfold dump_raw.
    assert (Hex : forall plan tr0, existsb is_generate tr0 = false ->
              existsb is_generate
                (snd (chain2_execution E (Some m) user_request plan tr0)) = false).
    { intros plan0 tr0 H0. unfold chain2_execution.
      rewrite obtain_text_mock by assumption. exact H0. }
    destruct (loads m) as [v|e].
    + destruct (show_plan v); [apply Hex|]; reflexivity.
    + destruct e; try reflexivity.
      destruct (fix_json (Some m)) as [[[|c fx]|]|e]; simpl nonempty; cbv iota;
        try reflexivity.
      destruct (loads (c :: fx)) as [v|e']; [destruct (show_plan v)|];
        try reflexivity.
      apply Hex. reflexivity.
Qed.


(** *** [str.replace] *)

Lemma char_eqb_sym (a b : char) : char_eqb a b = char_eqb b a.
Proof. apply N.eqb_sym. Qed.

Lemma replace_from_skip (old new X Y : str) :
  replace_from old new (length X) (X ++ Y) = replace_from old new 0 Y.
Proof.
  induction X as [|x X IH]; simpl.
  - destruct Y; reflexivity.
  - exact IH.
Qed.

Lemma startswith_app (old Y : str) : startswith old (old ++ Y) = true.
Proof.
  induction old as [|o old IH]; simpl; [destruct Y; reflexivity|].
  rewrite char_eqb_refl. exact IH.
Qed.

Lemma replace_hit (old new Y : str) :
  old <> [] ->
  replace old new (old ++ Y) = new ++ replace old new Y.
Proof.
  intros Hne. destruct old as [|o old']; [congruence|].
  unfold replace. rewrite <- app_comm_cons. cbn [replace_from].
  rewrite app_comm_cons, startswith_app.
  replace (length (o :: old') - 1) with (length old') by (simpl; lia).
  rewrite replace_from_skip. reflexivity.
Qed.

Lemma replace_pass (h : char) (old' new X Y : str) :
  forallb (fun c => negb (char_eqb h c)) X = true ->
  replace (h :: old') new (X ++ Y) = X ++ replace (h :: old') new Y.
Proof.
  intros H. unfold replace. induction X as [|x X IH]; [reflexivity|].
  simpl in H. apply andb_true_iff in H as [Hx HX].
  apply negb_true_iff in Hx.
  rewrite <- app_comm_cons. cbn [replace_from startswith]. rewrite Hx.
  simpl. rewrite (IH HX). reflexivity.
Qed.





Lemma replace_from_nil (old new : str) (k : nat) : replace_from old new k [] = [].
Proof. reflexivity. Qed.


(** *** What the number scanner matched *)

Lemma span_forallb (p : char -> bool) (s a b : str) :
  span p s = (a, b) -> forallb p a = true.
Proof.
  revert a b. induction s as [|c t IH]; simpl; intros a b H.
  - injection H as <- <-. reflexivity.
  - destruct (p c) eqn:E.
    + destruct (span p t) as [a' b'] eqn:E'. injection H as <- <-.
      simpl. rewrite E. eapply IH. reflexivity.
    + injection H as <- <-. reflexivity.
Qed.

Lemma match_integer_is_text (s i r : str) :
  match_integer s = Some (i, r) -> is_integer_text i = true.
Proof.
  unfold match_integer. intros H.
  assert (G : forall c t sign i r,
    (if char_eqb c (ch "0") then Some (sign ++ [c], t)
     else if is_digit c then
       let (ds, r') := span is_digit t in Some (sign ++ c :: ds, r')
     else None) = Some (i, r) ->
    exists ds, i = sign ++ c :: ds /\ forallb is_digit (c :: ds) = true /\
               (negb (char_eqb c (ch "0")) || str_eqb ds []) = true).
  { intros c t sign i0 r0 H0. destruct (char_eqb c (ch "0")) eqn:E0.
    - injection H0 as <- <-. exists []. apply char_eqb_eq in E0. subst c.
      repeat split; reflexivity.
    - destruct (is_digit c) eqn:Ed; [|discriminate].
      destruct (span is_digit t) as [ds r'] eqn:Es. injection H0 as <- <-.
      exists ds. repeat split. simpl. rewrite Ed.
      exact (span_forallb _ _ _ _ Es). }
  assert (I : forall c ds,
    forallb is_digit (c :: ds) = true ->
    (negb (char_eqb c (ch "0")) || str_eqb ds []) = true ->
    is_integer_text (c :: ds) = true /\
    is_integer_text (ch "-" :: c :: ds) = true).
  { intros c ds Hall H0. unfold is_integer_text.
    change (char_eqb (ch "-") (ch "-")) with true.
    assert (Hm : char_eqb c (ch "-") = false).
    { simpl in Hall. apply andb_true_iff in Hall as [Hc _].
      apply (digit_neq c (ch "-") Hc). left. reflexivity. }
    rewrite Hm. cbv iota. unfold is_digits. rewrite Hall, H0.
    split; reflexivity. }
  destruct s as [|c t]; [discriminate|].
  destruct (char_eqb c (ch "-")) eqn:Em.
  - apply char_eqb_eq in Em. subst c. destruct t as [|c' t']; [discriminate|].
    destruct (G _ _ _ _ _ H) as (ds & -> & Hall & H0).
    apply (I c' ds Hall H0).
  - destruct (G _ _ _ _ _ H) as (ds & -> & Hall & H0).
    apply (I c ds Hall H0).
Qed.

Lemma match_frac_is_text (s fr r : str) :
  match_frac s = (fr, r) -> is_frac_text fr = true.
Proof.
  unfold match_frac. intros H. destruct s as [|c t].
  - injection H as <- <-. reflexivity.
  - destruct (char_eqb c (ch ".")) eqn:E.
    + destruct (span is_digit t) as [[|d ds] r'] eqn:Es; injection H as <- <-;
        [reflexivity|].
      unfold is_frac_text. rewrite E. simpl.
      exact (span_forallb _ _ _ _ Es).
    + injection H as <- <-. reflexivity.
Qed.

Lemma match_exp_is_text (s ex r : str) :
  match_exp s = (ex, r) -> is_exp_text ex = true.
Proof.
  unfold match_exp. intros H. destruct s as [|c t].
  - injection H as <- <-. reflexivity.
  - destruct (char_eqb c (ch "e") || char_eqb c (ch "E")) eqn:E.
    + destruct t as [|x t'].
      * simpl in H. injection H as <- <-. reflexivity.
      * destruct (char_eqb x (ch "+") || char_eqb x (ch "-")) eqn:Es.
        -- destruct (span is_digit t') as [[|d ds] r'] eqn:Ed;
             injection H as <- <-; [reflexivity|].
           unfold is_exp_text. rewrite E. simpl app. rewrite Es.
           exact (span_forallb _ _ _ _ Ed).
        -- destruct (span is_digit (x :: t')) as [[|d ds] r'] eqn:Ed;
             injection H as <- <-; [reflexivity|].
           unfold is_exp_text. rewrite E. simpl app.
           assert (d = x).
           { simpl in Ed. destruct (is_digit x); [|discriminate].
             destruct (span is_digit t'). congruence. }
           subst d. rewrite Es.
           exact (span_forallb _ _ _ _ Ed).
    + injection H as <- <-. reflexivity.
Qed.

Lemma match_number_parts (s i fr ex r : str) :
  match_number s = Some (i, fr, ex, r) ->
  s = i ++ fr ++ ex ++ r /\ is_integer_text i = true /\
  is_frac_text fr = true /\ is_exp_text ex = true.
Proof.
  unfold match_number. intros H.
  destruct (match_integer s) as [[i' r0]|] eqn:Ei; [|discriminate].
  destruct (match_frac r0) as [fr' r1] eqn:Ef.
  destruct (match_exp r1) as [ex' r2] eqn:Ee.
  injection H as <- <- <- <-.
  destruct (match_integer_app _ _ _ Ei) as [-> _].
  rewrite (match_frac_app _ _ _ Ef), (match_exp_app _ _ _ Ee).
  repeat split.
  - exact (match_integer_is_text _ _ _ Ei).
  - exact (match_frac_is_text _ _ _ Ef).
  - exact (match_exp_is_text _ _ _ Ee).
Qed.

Lemma delimited_number_end (r X : str) :
  delimited r = true -> number_end (r ++ X) = true.
Proof.
  destruct r as [|c r]; [discriminate|]. simpl.
  intros H. apply orb_true_iff in H as [H|H].
  - unfold json_ws in H.
    repeat (apply orb_true_iff in H as [H|H]);
      apply N.eqb_eq in H; subst c; reflexivity.
  - repeat (apply orb_true_iff in H as [H|H];
            [apply char_eqb_eq in H; subst c; reflexivity|]).
    discriminate.
Qed.

Lemma match_number_ext (s i fr ex r X : str) :
  match_number s = Some (i, fr, ex, r) -> delimited r = true ->
  match_number (s ++ X) = Some (i, fr, ex, r ++ X).
Proof.
  intros H Hd. destruct (match_number_parts _ _ _ _ _ H) as (-> & Hi & Hf & He).
  repeat rewrite <- app_assoc.
  apply match_number_literal; auto. apply delimited_number_end. assumption.
Qed.

Lemma skip_ws_ext (r X : str) (c : char) (r1 : str) :
  skip_ws r = c :: r1 -> skip_ws (r ++ X) = c :: r1 ++ X.
Proof.
  unfold skip_ws. induction r as [|x r IH]; simpl; [discriminate|].
  destruct (json_ws x); [exact IH|]. intros H. injection H as <- <-. reflexivity.
Qed.

Lemma skip_ws_delimited (r : str) (c : char) (r1 : str) :
  skip_ws r = c :: r1 -> in_chars c (py ",]}") = true -> delimited r = true.
Proof.
  unfold skip_ws. destruct r as [|x r]; simpl; [discriminate|].
  destruct (json_ws x) eqn:E; [reflexivity|].
  intros H. injection H as <- <-. intros ->. apply orb_true_r.
Qed.

(** *** The string scanner on a longer text *)

Lemma scanstring_ext (s x r X : str) :
  scanstring s = Some (x, r) -> scanstring (s ++ X) = Some (x, r ++ X).
Proof.
  remember (length s) as n eqn:En. revert s x r En.
  induction n as [n IH] using lt_wf_ind. intros s x r En H.
  assert (Hrec : forall c' t', length t' < n ->
    match scanstring t' with
    | Some (x0, rest) => Some (c' :: x0, rest)
    | None => None
    end = Some (x, r) ->
    match scanstring (t' ++ X) with
    | Some (x0, rest) => Some (c' :: x0, rest)
    | None => None
    end = Some (x, r ++ X)).
  { intros c' t' Hlt Hs. destruct (scanstring t') as [[x1 r1]|] eqn:E;
      [|discriminate]. injection Hs as <- <-.
    rewrite (IH _ Hlt t' x1 r1 eq_refl E). reflexivity. }
  destruct s as [|c t]; [discriminate|]. simpl in En.
  rewrite <- app_comm_cons. cbn [scanstring] in H |- *.
  destruct (char_eqb c DQUOTE).
  { injection H as <- <-. reflexivity. }
  destruct (char_eqb c BACKSLASH).
  2: { destruct (c <=? 31)%N; [discriminate|]. apply Hrec; [lia|exact H]. }
  destruct t as [|e t1]; [discriminate|]. simpl in En.
  rewrite <- app_comm_cons.
  destruct (char_eqb e (ch "u")).
  2: { destruct (unescape e); [|discriminate]. apply Hrec; [lia|exact H]. }
  destruct t1 as [|h1 [|h2 [|h3 [|h4 t2]]]]; try discriminate.
  simpl in En. repeat rewrite <- app_comm_cons.
  destruct (hex4 h1 h2 h3 h4) as [u|]; [|discriminate].
  destruct (is_high_surrogate u).
  2: { apply Hrec; [lia|exact H]. }
  destruct t2 as [|b [|v t3]].
  - discriminate.
  - destruct (char_eqb b BACKSLASH) eqn:Eb.
    { apply char_eqb_eq in Eb. subst b. discriminate. }
    destruct X as [|x1 X'].
    + apply (Hrec u [b]); [simpl in *; lia|exact H].
    + change ([b] ++ x1 :: X') with (b :: x1 :: X'). cbv iota. rewrite Eb.
      change (false && char_eqb x1 (ch "u")) with false. cbv iota.
      apply (Hrec u [b]); [simpl in *; lia|exact H].
  - repeat rewrite <- app_comm_cons.
    destruct (char_eqb b BACKSLASH && char_eqb v (ch "u")).
    2: { apply (Hrec u (b :: v :: t3)); [simpl in *; lia|exact H]. }
    destruct t3 as [|k1 [|k2 [|k3 [|k4 t4]]]]; try discriminate.
    repeat rewrite <- app_comm_cons.
    destruct (hex4 k1 k2 k3 k4) as [u2|]; [|discriminate].
    destruct (is_low_surrogate u2).
    + apply Hrec; [simpl in *; lia|exact H].
    + apply (Hrec u (b :: v :: k1 :: k2 :: k3 :: k4 :: t4)); [simpl in *; lia|exact H].
Qed.

(** *** Constants and numbers on a longer text *)

Lemma startswith_ext (p s X : str) :
  startswith p s = true -> startswith p (s ++ X) = true.
Proof.
  revert s. induction p as [|a p IH]; intros s H; [reflexivity|].
  destruct s as [|c t]; [discriminate|]. simpl in *.
  apply andb_true_iff in H as [-> H]. simpl. auto.
Qed.

Lemma startswith_skipn (p s X : str) :
  startswith p s = true ->
  skipn (length p) (s ++ X) = skipn (length p) s ++ X.
Proof.
  revert s. induction p as [|a p IH]; intros s H; [reflexivity|].
  destruct s as [|c t]; [discriminate|]. simpl in *.
  apply andb_true_iff in H as [_ H]. auto.
Qed.

Lemma startswith_ext_false (p s X : str) :
  startswith p s = false -> startswith p (s ++ X) = true ->
  exists k, k < length p /\ s = firstn k p.
Proof.
  revert s. induction p as [|a p IH]; intros s H1 H2.
  - destruct s; discriminate.
  - destruct s as [|c t].
    + exists 0. split; [simpl; lia|reflexivity].
    + simpl in *. apply andb_true_iff in H2 as [Ha H2]. rewrite Ha in H1.
      simpl in H1. apply char_eqb_eq in Ha. subst c.
      destruct (IH t H1 H2) as (k & Hk & ->).
      exists (S k). split; [lia|reflexivity].
Qed.

Lemma match_number_none (s : str) :
  match_number s = None <-> match_integer s = None.
Proof.
  unfold match_number. destruct (match_integer s) as [[i r]|].
  - destruct (match_frac r) as [fr r1]. destruct (match_exp r1) as [ex r2].
    split; discriminate.
  - split; reflexivity.
Qed.

Lemma match_number_none_ext (c c' : char) (t X : str) :
  match_number (c :: c' :: t) = None ->
  match_number ((c :: c' :: t) ++ X) = None.
Proof.
  rewrite !match_number_none. unfold match_integer. simpl app. intros H.
  cbv beta iota in *.
  destruct (char_eqb c (ch "-")); cbv beta iota in *.
  - destruct (char_eqb c' (ch "0")); [discriminate|].
    destruct (is_digit c'); [|reflexivity].
    destruct (span is_digit t); discriminate.
  - destruct (char_eqb c (ch "0")); [discriminate|].
    destruct (is_digit c); [|reflexivity].
    destruct (span is_digit (c' :: t)); discriminate.
Qed.

Lemma match_number_none_single (c : char) (X : str) :
  match_number [c] = None -> char_eqb c (ch "-") = false ->
  match_number ([c] ++ X) = None.
Proof.
  rewrite !match_number_none. unfold match_integer. simpl app. intros H Hm.
  cbv beta iota in *. rewrite Hm in *. cbv beta iota in *.
  destruct (char_eqb c (ch "0")); [discriminate|].
  destruct (is_digit c); [discriminate|reflexivity].
Qed.

Lemma scan_once_atom (n : nat) (c : char) (t : str) :
  char_eqb c DQUOTE = false -> char_eqb c (ch "{") = false ->
  char_eqb c (ch "[") = false ->
  scan_once (S n) (c :: t) = atom_branch (c :: t).
Proof.
  intros E1 E2 E3. cbn [scan_once]. rewrite E1, E2, E3. reflexivity.
Qed.

Lemma prefix_not_scanned (p s X : str) (v : value) (r : str) :
  prefixes_fail p = true ->
  startswith p s = false -> startswith p (s ++ X) = true ->
  atom_branch s <> Scanned v r.
Proof.
  intros Hp H1 H2 Hs.
  destruct (startswith_ext_false p s X H1 H2) as (k & Hk & ->).
  unfold prefixes_fail in Hp.
  assert (Hin : In k (seq 0 (length p))) by (apply in_seq; lia).
  pose proof (proj1 (forallb_forall _ _) Hp k Hin) as Hf. simpl in Hf.
  rewrite Hs in Hf. discriminate.
Qed.

Lemma startswith_kept (p s X : str) (v : value) (r : str) :
  prefixes_fail p = true -> atom_branch s = Scanned v r ->
  startswith p (s ++ X) = startswith p s.
Proof.
  intros Hp Hs. destruct (startswith p s) eqn:E1.
  - apply startswith_ext. assumption.
  - destruct (startswith p (s ++ X)) eqn:E2; [|reflexivity].
    exfalso. exact (prefix_not_scanned p s X v r Hp E1 E2 Hs).
Qed.

Lemma match_number_kept_none (s X : str) (v : value) (r : str) :
  atom_branch s = Scanned v r -> match_number s = None ->
  match_number (s ++ X) = None.
Proof.
  intros Hs Hn. destruct s as [|c [|c' t]].
  - vm_compute in Hs. discriminate.
  - destruct (char_eqb c (ch "-")) eqn:E.
    + apply char_eqb_eq in E. subst c. vm_compute in Hs. discriminate.
    + apply match_number_none_single; assumption.
  - apply match_number_none_ext. assumption.
Qed.

Lemma atom_branch_ext (s X : str) (v : value) (r : str) :
  atom_branch s = Scanned v r -> settled v r ->
  atom_branch (s ++ X) = Scanned v (r ++ X).
Proof.
  intros Hs Hset. pose proof Hs as H. unfold atom_branch, number_branch in H |- *.
  rewrite (startswith_kept (py "null") s X v r eq_refl Hs).
  rewrite (startswith_kept (py "true") s X v r eq_refl Hs).
  rewrite (startswith_kept (py "false") s X v r eq_refl Hs).
  rewrite (startswith_kept (py "NaN") s X v r eq_refl Hs).
  rewrite (startswith_kept (py "Infinity") s X v r eq_refl Hs).
  rewrite (startswith_kept (py "-Infinity") s X v r eq_refl Hs).
  destruct (startswith (py "null") s) eqn:E1.
  { apply scanned_inj in H as [<- <-].
    pose proof (startswith_skipn (py "null") s X E1) as Hk.
    change (length (py "null")) with 4 in Hk. rewrite Hk. reflexivity. }
  destruct (startswith (py "true") s) eqn:E2.
  { apply scanned_inj in H as [<- <-].
    pose proof (startswith_skipn (py "true") s X E2) as Hk.
    change (length (py "true")) with 4 in Hk. rewrite Hk. reflexivity. }
  destruct (startswith (py "false") s) eqn:E3.
  { apply scanned_inj in H as [<- <-].
    pose proof (startswith_skipn (py "false") s X E3) as Hk.
    change (length (py "false")) with 5 in Hk. rewrite Hk. reflexivity. }
  destruct (match_number s) as [[[[i fr] ex] r0]|] eqn:Em.
  - assert (Hr : r = r0 /\ delimited r0 = true).
    { destruct fr, ex; [destruct (int_digits_ok i); [|discriminate]| | |];
        apply scanned_inj in H as [<- <-]; auto. }
    destruct Hr as [-> Hd]. rewrite (match_number_ext _ _ _ _ _ X Em Hd).
    destruct fr, ex; [destruct (int_digits_ok i); [|discriminate]| | |];
      apply scanned_inj in H as [<- _]; reflexivity.
  - rewrite (match_number_kept_none s X v r Hs Em).
    destruct (startswith (py "NaN") s) eqn:E4.
    { apply scanned_inj in H as [<- <-].
      pose proof (startswith_skipn (py "NaN") s X E4) as Hk.
    change (length (py "NaN")) with 3 in Hk. rewrite Hk. reflexivity. }
    destruct (startswith (py "Infinity") s) eqn:E5.
    { apply scanned_inj in H as [<- <-].
      pose proof (startswith_skipn (py "Infinity") s X E5) as Hk.
    change (length (py "Infinity")) with 8 in Hk. rewrite Hk. reflexivity. }
    destruct (startswith (py "-Infinity") s) eqn:E6; [|discriminate].
    apply scanned_inj in H as [<- <-].
    pose proof (startswith_skipn (py "-Infinity") s X E6) as Hk.
    change (length (py "-Infinity")) with 9 in Hk. rewrite Hk. reflexivity.
Qed.

Lemma skip_ws_ext_scanned (f : nat) (r X : str) (v : value) (r' : str) :
  scan_once f (skip_ws r) = Scanned v r' ->
  skip_ws (r ++ X) = skip_ws r ++ X.
Proof.
  intros H. destruct (skip_ws r) as [|c t] eqn:E.
  - destruct f; discriminate.
  - apply skip_ws_ext. assumption.
Qed.

Lemma skip_ws_ext_pairs (f : nat) (r X : str) (ps : list (str * value))
    (r' : str) :
  object_pairs f (skip_ws r) = Scanned ps r' ->
  skip_ws (r ++ X) = skip_ws r ++ X.
Proof.
  intros H. destruct (skip_ws r) as [|c t] eqn:E.
  - destruct f; discriminate.
  - apply skip_ws_ext. assumption.
Qed.

Lemma skip_ws_ext_items (r X : str) (c : char) (t : str) :
  skip_ws r = c :: t -> skip_ws (r ++ X) = skip_ws r ++ X.
Proof. intros H. rewrite H. apply skip_ws_ext. assumption. Qed.

Lemma settled_by (v : value) (r : str) (c : char) (r1 : str) :
  skip_ws r = c :: r1 -> in_chars c (py ",]}") = true -> settled v r.
Proof.
  intros H Hc. pose proof (skip_ws_delimited r c r1 H Hc).
  destruct v; simpl; auto.
Qed.

Lemma closer (c k : char) :
  char_eqb c k = true -> in_chars k (py ",]}") = true ->
  in_chars c (py ",]}") = true.
Proof. intros H. apply char_eqb_eq in H. subst c. auto. Qed.

Lemma scanner_extends (f : nat) : scan_extends f.
Proof.
  induction f as [|n (IH1 & IH2 & IH3)].
  - repeat split; intros; discriminate.
  - split; [|split].
    + intros s v r H Hset f' X Hf.
      destruct f' as [|n']; [lia|]. assert (Hn : n <= n') by lia.
      destruct s as [|c t]; [discriminate|].
      destruct (char_eqb c DQUOTE) eqn:E1.
      { cbn [scan_once] in H. rewrite <- app_comm_cons. cbn [scan_once].
        rewrite E1 in *.
        destruct (scanstring t) as [[x r0]|] eqn:Es; [|discriminate].
        apply scanned_inj in H as [<- <-].
        rewrite (scanstring_ext _ _ _ X Es). reflexivity. }
      destruct (char_eqb c (ch "{")) eqn:E2.
      { cbn [scan_once] in H. rewrite <- app_comm_cons. cbn [scan_once].
        rewrite E1, E2 in *.
        destruct (skip_ws t) as [|c' r0] eqn:Ew; [discriminate|].
        rewrite (skip_ws_ext _ X _ _ Ew).
        destruct (char_eqb c' (ch "}")).
        - apply scanned_inj in H as [<- <-]. reflexivity.
        - destruct (object_pairs n (c' :: r0)) as [ps r'| |e0|] eqn:Eo;
            try discriminate.
          apply scanned_inj in H as [<- <-].
          rewrite app_comm_cons, (IH2 _ _ _ Eo n' X Hn). reflexivity. }
      destruct (char_eqb c (ch "[")) eqn:E3.
      { cbn [scan_once] in H. rewrite <- app_comm_cons. cbn [scan_once].
        rewrite E1, E2, E3 in *.
        destruct (skip_ws t) as [|c' r0] eqn:Ew; [discriminate|].
        rewrite (skip_ws_ext _ X _ _ Ew).
        destruct (char_eqb c' (ch "]")).
        - apply scanned_inj in H as [<- <-]. reflexivity.
        - destruct (array_items n (c' :: r0)) as [l r'| |e0|] eqn:Eo;
            try discriminate.
          apply scanned_inj in H as [<- <-].
          rewrite app_comm_cons, (IH3 _ _ _ Eo n' X Hn). reflexivity. }
      rewrite scan_once_atom in H by assumption.
      rewrite <- app_comm_cons, scan_once_atom by assumption.
      rewrite app_comm_cons. apply atom_branch_ext; assumption.
    + intros s ps r H f' X Hf.
      destruct f' as [|n']; [lia|]. assert (Hn : n <= n') by lia.
      destruct s as [|c t]; [discriminate|].
      cbn [object_pairs] in H. rewrite <- app_comm_cons. cbn [object_pairs].
      destruct (char_eqb c DQUOTE); [|discriminate].
      destruct (scanstring t) as [[key r1]|] eqn:Es; [|discriminate].
      rewrite (scanstring_ext _ _ _ X Es).
      destruct (skip_ws r1) as [|c1 r2] eqn:Ew1; [discriminate|].
      rewrite (skip_ws_ext _ X _ _ Ew1).
      destruct (char_eqb c1 (ch ":")); [|discriminate].
      destruct (scan_once n (skip_ws r2)) as [v r3| |e0|] eqn:Ev; try discriminate.
      rewrite (skip_ws_ext_scanned _ _ X _ _ Ev).
      destruct (skip_ws r3) as [|c3 r4] eqn:Ew3; [discriminate|].
      destruct (char_eqb c3 (ch "}")) eqn:Eb.
      * apply scanned_inj in H as [<- <-].
        rewrite (IH1 _ _ _ Ev (settled_by v r3 c3 r4 Ew3
                                 (closer c3 (ch "}") Eb eq_refl)) n' X Hn).
        rewrite (skip_ws_ext _ X _ _ Ew3), Eb. reflexivity.
      * destruct (char_eqb c3 (ch ",")) eqn:Ec; [|discriminate].
        rewrite (IH1 _ _ _ Ev (settled_by v r3 c3 r4 Ew3
                                 (closer c3 (ch ",") Ec eq_refl)) n' X Hn).
        rewrite (skip_ws_ext _ X _ _ Ew3), Eb, Ec.
        destruct (object_pairs n (skip_ws r4)) as [ps' r5| |e0|] eqn:Eo;
          try discriminate.
        apply scanned_inj in H as [<- <-].
        rewrite (skip_ws_ext_pairs _ _ X _ _ Eo), (IH2 _ _ _ Eo n' X Hn).
        reflexivity.
    + intros s l r H f' X Hf.
      destruct f' as [|n']; [lia|]. assert (Hn : n <= n') by lia.
      cbn [array_items] in H |- *.
      destruct (scan_once n s) as [v r1| |e0|] eqn:Ev; try discriminate.
      destruct (skip_ws r1) as [|c r2] eqn:Ew; [discriminate|].
      destruct (char_eqb c (ch "]")) eqn:Eb.
      * apply scanned_inj in H as [<- <-].
        rewrite (IH1 _ _ _ Ev (settled_by v r1 c r2 Ew
                                 (closer c (ch "]") Eb eq_refl)) n' X Hn).
        rewrite (skip_ws_ext _ X _ _ Ew), Eb. reflexivity.
      * destruct (char_eqb c (ch ",")) eqn:Ec; [|discriminate].
        rewrite (IH1 _ _ _ Ev (settled_by v r1 c r2 Ew
                                 (closer c (ch ",") Ec eq_refl)) n' X Hn).
        rewrite (skip_ws_ext _ X _ _ Ew), Eb, Ec.
        destruct (array_items n (skip_ws r2)) as [l' r3| |e0|] eqn:Eo;
          try discriminate.
        apply scanned_inj in H as [<- <-].
        assert (Hsk : skip_ws (r2 ++ X) = skip_ws r2 ++ X).
        { destruct (skip_ws r2) as [|c' t'] eqn:E'.
          - destruct n; [discriminate|]. cbn [array_items] in Eo.
            destruct n; discriminate.
          - apply skip_ws_ext. assumption. }
        rewrite Hsk, (IH3 _ _ _ Eo n' X Hn). reflexivity.
Qed.

(** A text that parses, followed by anything: the whole parses to the same
    value or does not parse. *)
Lemma loads_object_prefix (t X : str) (v : value) :
  loads (ch "{" :: t) = Ok v ->
  loads ((ch "{" :: t) ++ X) = Ok v \/
  loads ((ch "{" :: t) ++ X) = Raise JSONDecodeError.
Proof.
  unfold loads. rewrite <- app_comm_cons.
  change (startswith [65279%N] (ch "{" :: t)) with false.
  change (startswith [65279%N] (ch "{" :: t ++ X)) with false. cbv iota.
  rewrite !skip_ws_start by reflexivity.
  destruct (scan_once (fuel_for (ch "{" :: t)) (ch "{" :: t)) as [v' r| |e0|] eqn:Es;
    try discriminate.
  assert (Hset : settled v' r).
  { unfold fuel_for in Es. rewrite Nat.add_comm in Es. cbn [Nat.add scan_once] in Es.
    change (char_eqb (ch "{") DQUOTE) with false in Es.
    change (char_eqb (ch "{") (ch "{")) with true in Es. cbv iota in Es.
    destruct (skip_ws t) as [|c' r0]; [discriminate|].
    destruct (char_eqb c' (ch "}")).
    - apply scanned_inj in Es as [<- _]. exact I.
    - destruct (object_pairs _ _); try discriminate.
      apply scanned_inj in Es as [<- _]. exact I. }
  pose proof (proj1 (scanner_extends _) _ _ _ Es Hset
                (fuel_for (ch "{" :: t ++ X)) X) as He.
  rewrite <- app_comm_cons in He. rewrite He.
  - destruct (skip_ws r) eqn:Er; [|discriminate].
    intros H. injection H as <-.
    destruct (skip_ws (r ++ X)); auto.
  - unfold fuel_for. simpl length. rewrite length_app. lia.
Qed.

(** *** Characters of the cleaned text *)

Lemma lstrip_by_incl (p : char -> bool) (s : str) (c : char) :
  In c (lstrip_by p s) -> In c s.
Proof.
  induction s as [|x s IH]; simpl; [auto|].
  destruct (p x); simpl; auto.
Qed.

Lemma rstrip_by_incl (p : char -> bool) (s : str) (c : char) :
  In c (rstrip_by p s) -> In c s.
Proof.
  unfold rstrip_by. intros H. apply in_rev in H. apply lstrip_by_incl in H.
  apply in_rev. exact H.
Qed.

Lemma strip_incl (s : str) (c : char) : In c (strip s) -> In c s.
Proof.
  unfold strip, strip_by. intros H. apply rstrip_by_incl in H.
  apply lstrip_by_incl in H. exact H.
Qed.

Lemma sub_from_empty_incl (r : regex) (c : char) (s : str) :
  forall b skip, In c (sub_from r repl_empty b skip s) -> In c s.
Proof.
  induction s as [|x s IH]; intros b skip H.
  - destruct skip; cbn [sub_from] in H; [|contradiction].
    destruct (match_here r b []); unfold repl_empty in H; simpl in H;
      contradiction.
  - destruct skip as [|n]; cbn [sub_from] in H.
    + destruct (match_here r b (x :: s)) as [st|].
      * destruct (length (x :: s) - length (rest st)) as [|k];
          unfold repl_empty in H; cbv beta iota in H;
          change (In c ([] ++ ?X)) with (In c X) in H.
        -- destruct H as [<-|H]; [left; reflexivity|right; eauto].
        -- right; eauto.
      * destruct H as [<-|H]; [left; reflexivity|right; eauto].
    + right; eauto.
Qed.

Lemma cleaned_incl (input : str) (c : char) :
  In c (cleaned (Some input)) -> In c input.
Proof.
  unfold cleaned, re_sub. intros H.
  apply strip_incl, sub_from_empty_incl, sub_from_empty_incl, strip_incl in H.
  exact H.
Qed.

Lemma contains_char (c : char) (s : str) :
  contains [c] s = false -> ~ In c s.
Proof.
  induction s as [|x s IH]; simpl; [auto|].
  intros H. apply orb_false_iff in H as [H1 H2].
  rewrite andb_true_r in H1. intros [->|Hin].
  - rewrite char_eqb_refl in H1. discriminate.
  - exact (IH H2 Hin).
Qed.

Lemma find_char_none (c : char) (s : str) :
  ~ In c s -> find_char c s = None.
Proof.
  induction s as [|x s IH]; simpl; [auto|]. intros H.
  destruct (char_eqb x c) eqn:E.
  - apply char_eqb_eq in E. subst. exfalso. auto.
  - rewrite IH by auto. reflexivity.
Qed.

Lemma filter_all {A : Type} (p : A -> bool) (l : list A) :
  forallb p l = true -> filter p l = l.
Proof.
  induction l as [|x l IH]; simpl; [reflexivity|].
  intros H. apply andb_true_iff in H as [-> H]. rewrite IH by assumption.
  reflexivity.
Qed.

(** *** The brace scan on a prefix *)

Lemma brace_scan_app (J X : str) :
  forall depth i e,
    brace_scan depth i J = Some e -> brace_scan depth i (J ++ X) = Some e.
Proof.
  induction J as [|c J IH]; intros depth i e H; [discriminate|].
  simpl in *. destruct (char_eqb c (ch "{")); [auto|].
  destruct (char_eqb c (ch "}")); [|auto].
  destruct ((depth - 1 =? 0)%Z); auto.
Qed.

(** C4 (amended).  For an input made of the text of a JSON object, whose
    braces, counted without regard to strings, first balance at its last
    character, followed by any prose: the brace-balanced strategy cuts out
    exactly the object, [fix_json] returns the serialization of its value
    whatever the prose is, and that serialization parses back to the same
    value. *)
Theorem balanced_object_extracted (A P : str) (v : value) :
  loads (braced A) = Ok v ->
  brace_scan 0 0 (braced A) = Some (length (braced A) - 1) ->
  balanced_candidate (cleaned (Some (braced A ++ P))) 0 = Some (braced A) /\
  fix_json (Some (braced A ++ P)) = Ok (Some (dumps v)) /\
  loads (dumps v) = Ok v.
Proof.
  intros Hv Hscan.
  assert (Hc : cleaned (Some (braced A ++ P)) = braced A ++ trailing P).
  { unfold braced. rewrite <- app_comm_cons, <- app_assoc. simpl app.
    rewrite cleaned_prefix by reflexivity.
    rewrite <- app_assoc. reflexivity. }
  assert (Hb : balanced_candidate (braced A ++ trailing P) 0 = Some (braced A)).
  { unfold balanced_candidate. cbn [skipn].
    rewrite (brace_scan_app _ _ _ _ _ Hscan). unfold slice. cbn [skipn].
    f_equal.
    replace (length (braced A) - 1 + 1 - 0) with (length (braced A) + 0)
      by (unfold braced; simpl; lia).
    rewrite firstn_app_2. cbn [firstn]. apply app_nil_r. }
  rewrite Hc in *. split; [exact Hb|]. split.
  - unfold fix_json, fix_json_body. rewrite Hc. unfold try_parse at 1.
    destruct (loads_object_prefix (A ++ [ch "}"]) (trailing P) v Hv)
      as [Hw|Hw]; fold (braced A) in Hw; rewrite Hw; [reflexivity|].
    assert (Hf : find_char (ch "{") (braced A ++ trailing P) = Some 0)
      by reflexivity.
    rewrite Hf, Hb. rewrite (try_parse_loads _ _ Hv). reflexivity.
  - apply loads_dumps. exact (loads_well_formed _ _ Hv).
Qed.

(** C1 (amended).  On the truncated input, the heuristic repair closes the
    open quote and pads the missing brace; the bracket stays open, so the
    repaired text does not parse.  [fix_json] then succeeds by line
    salvage: it returns the serialization of the fallback object whose
    steps hold the one fragment left of the line, and that text parses
    back to the object. *)
Lemma truncated_plan_line_salvaged :
  repaired_candidate truncated_plan 0 = pyq "{'steps': ['Warm up', 'Main set'}" /\
  loads (repaired_candidate truncated_plan 0) = Raise JSONDecodeError /\
  fix_json (Some truncated_plan) =
    Ok (Some (dumps (fallback_plan [salvaged_fragment]))) /\
  loads (dumps (fallback_plan [salvaged_fragment])) =
    Ok (fallback_plan [salvaged_fragment]).
Proof.
  repeat split; vm_compute; reflexivity.
Qed.

(** *** Blank input *)

Lemma lstrip_by_all (p : char -> bool) (s : str) :
  forallb p s = true -> lstrip_by p s = [].
Proof.
  induction s as [|c s IH]; simpl; [reflexivity|].
  intros H. apply andb_true_iff in H as [-> H]. auto.
Qed.

Lemma strip_blank (s : str) : forallb isspace s = true -> strip s = [].
Proof.
  intros H. unfold strip, strip_by. rewrite lstrip_by_all by assumption.
  reflexivity.
Qed.

Lemma count_char_app (c : char) (a b : str) :
  count_char c (a ++ b) = count_char c a + count_char c b.
Proof. unfold count_char. rewrite filter_app, length_app. reflexivity. Qed.

Lemma count_char_repeat (c : char) (n : nat) :
  count_char c (repeat_char c n) = n.
Proof.
  unfold count_char, repeat_char. induction n; simpl; [reflexivity|].
  rewrite char_eqb_refl. simpl. congruence.
Qed.

Lemma count_char_repeat_other (c d : char) (n : nat) :
  char_eqb c d = false -> count_char c (repeat_char d n) = 0.
Proof.
  intros H. unfold count_char, repeat_char. induction n; simpl; [reflexivity|].
  rewrite H. assumption.
Qed.

Lemma count_unescaped_quotes_snoc (text before : str) (q : char) :
  count_unescaped_quotes before (text ++ [q]) =
  count_unescaped_quotes before text +
  (if char_eqb q DQUOTE &&
      Nat.even (length (fst (span (char_eqb BACKSLASH) (rev text ++ before))))
   then 1 else 0).
Proof.
  revert before. induction text as [|c t IH]; intros before.
  - simpl. lia.
  - simpl app. cbn [count_unescaped_quotes]. rewrite IH.
    simpl rev. rewrite <- app_assoc. simpl app. lia.
Qed.

Lemma brace_scan_first (s : str) :
  forall (d : Z) (i e : nat),
    (1 <= d)%Z -> brace_scan d i s = Some e ->
    exists pre post,
      s = pre ++ ch "}" :: post /\ e = i + length pre /\
      brace_depth d pre = 1%Z /\
      (forall p q, pre = p ++ q -> (1 <= brace_depth d p)%Z).
Proof.
  induction s as [|c s IH]; intros d i e Hd H; [discriminate|].
  cbn [brace_scan] in H.
  destruct (char_eqb c (ch "{")) eqn:Eo.
  - apply char_eqb_eq in Eo. subst c.
    apply IH in H; [|lia]. destruct H as (pre & post & -> & -> & Hb & Hall).
    exists (ch "{" :: pre), post. repeat split.
    + simpl. lia.
    + unfold brace_depth in *. change (ch "{" :: pre) with ([ch "{"] ++ pre).
      rewrite !count_char_app. change (count_char (ch "{") [ch "{"]) with 1.
      change (count_char (ch "}") [ch "{"]) with 0. lia.
    + intros p q Hpq. destruct p as [|x p].
      * unfold brace_depth. simpl. lia.
      * injection Hpq as <- Hpq. specialize (Hall p q Hpq).
        unfold brace_depth in *. change (ch "{" :: p) with ([ch "{"] ++ p).
        rewrite !count_char_app. change (count_char (ch "{") [ch "{"]) with 1.
        change (count_char (ch "}") [ch "{"]) with 0. lia.
  - destruct (char_eqb c (ch "}")) eqn:Ec.
    + apply char_eqb_eq in Ec. subst c.
      destruct (d - 1 =? 0)%Z eqn:Ez.
      * injection H as <-. apply Z.eqb_eq in Ez.
        exists [], s. repeat split.
        -- simpl. lia.
        -- unfold brace_depth. simpl. lia.
        -- intros p q Hpq. destruct p; [|discriminate].
           unfold brace_depth. simpl. lia.
      * apply Z.eqb_neq in Ez. apply IH in H; [|lia].
        destruct H as (pre & post & -> & -> & Hb & Hall).
        exists (ch "}" :: pre), post. repeat split.
        -- simpl. lia.
        -- unfold brace_depth in *. change (ch "}" :: pre) with ([ch "}"] ++ pre).
           rewrite !count_char_app. change (count_char (ch "{") [ch "}"]) with 0.
           change (count_char (ch "}") [ch "}"]) with 1. lia.
        -- intros p q Hpq. destruct p as [|x p].
           ++ unfold brace_depth. simpl. lia.
           ++ injection Hpq as <- Hpq. specialize (Hall p q Hpq).
              unfold brace_depth in *. change (ch "}" :: p) with ([ch "}"] ++ p).
              rewrite !count_char_app. change (count_char (ch "{") [ch "}"]) with 0.
              change (count_char (ch "}") [ch "}"]) with 1. lia.
    + apply IH in H; [|lia].
      destruct H as (pre & post & -> & -> & Hb & Hall).
      assert (Hc : forall x, brace_depth d (c :: x) = brace_depth d x).
      { intros x. unfold brace_depth, count_char. cbn [filter].
        rewrite (char_eqb_sym (ch "{") c), (char_eqb_sym (ch "}") c), Eo, Ec.
        reflexivity. }
      exists (c :: pre), post. repeat split.
      * simpl. lia.
      * rewrite Hc. assumption.
      * intros p q Hpq. destruct p as [|x p].
        -- unfold brace_depth. simpl. lia.
        -- injection Hpq as <- Hpq. rewrite Hc. eauto.
Qed.

Lemma find_char_split (c : char) (s : str) (i : nat) :
  find_char c s = Some i ->
  exists pre post, s = pre ++ c :: post /\ length pre = i /\
                   count_char c pre = 0.
Proof.
  revert i. induction s as [|x s IH]; intros i H; [discriminate|].
  simpl in H. destruct (char_eqb x c) eqn:E.
  - injection H as <-. apply char_eqb_eq in E. subst x.
    exists [], s. auto.
  - destruct (find_char c s) as [j|]; [|discriminate]. injection H as <-.
    destruct (IH j eq_refl) as (pre & post & -> & <- & Hn).
    exists (x :: pre), post. split; [reflexivity|]. split; [reflexivity|].
    unfold count_char in *. cbn [filter]. rewrite char_eqb_sym, E. assumption.
Qed.

(** X1.  An absent, empty or blank input gives absence: [fix_json] returns
    [None] on [None] and on every text made of white space only. *)
Theorem fix_json_blank_is_none :
  fix_json None = Ok None /\
  forall s, forallb isspace s = true -> fix_json (Some s) = Ok None.
Proof.
  split; [reflexivity|].
  intros s H.
  assert (Hc : cleaned (Some s) = []).
  { unfold cleaned. rewrite (strip_blank s H). reflexivity. }
  unfold fix_json, fix_json_body. rewrite Hc. reflexivity.
Qed.

(** X2.  The candidate of the brace-balanced strategy, cut at the first
    opening brace: it is the part of the text that starts there, it begins
    with an opening and ends with a closing brace, it has as many opening
    as closing braces, and every shorter non-empty prefix of it has more
    opening than closing ones (it ends at the first return to depth 0). *)
Theorem balanced_candidate_shape (s : str) (start : nat) (c : str) :
  find_char (ch "{") s = Some start ->
  balanced_candidate s start = Some c ->
  (exists mid, c = ch "{" :: mid ++ [ch "}"]) /\
  (exists post, skipn start s = c ++ post) /\
  count_char (ch "{") c = count_char (ch "}") c /\
  (forall p q, c = p ++ q -> p <> [] -> q <> [] ->
     count_char (ch "}") p < count_char (ch "{") p).
Proof.
  intros Hf Hb.
  destruct (find_char_split _ _ _ Hf) as (pre0 & post0 & -> & <- & _).
  unfold balanced_candidate in Hb.
  assert (Hsk : skipn (length pre0) (pre0 ++ ch "{" :: post0) = ch "{" :: post0).
  { rewrite skipn_app, skipn_all, Nat.sub_diag. reflexivity. }
  rewrite Hsk in Hb. cbn [brace_scan] in Hb.
  change (char_eqb (ch "{") (ch "{")) with true in Hb. cbv iota in Hb.
  destruct (brace_scan (0 + 1) (S (length pre0)) post0) as [e|] eqn:Es;
    [|discriminate].
  injection Hb as <-.
  assert (H1 : (1 <= 0 + 1)%Z) by lia.
  destruct (brace_scan_first _ _ _ _ H1 Es)
    as (mid & post & -> & -> & Hd & Hall).
  assert (Hc : slice (length pre0) (S (length pre0) + length mid + 1)
                 (pre0 ++ ch "{" :: mid ++ ch "}" :: post)
               = ch "{" :: mid ++ [ch "}"]).
  { unfold slice. rewrite Hsk.
    replace (S (length pre0) + length mid + 1 - length pre0)
      with (length (ch "{" :: mid ++ [ch "}"]) + 0)
      by (cbn [length]; rewrite length_app; cbn [length]; lia).
    change (ch "{" :: mid ++ ch "}" :: post)
      with ((ch "{" :: mid) ++ [ch "}"] ++ post).
    rewrite app_assoc. rewrite firstn_app_2. simpl firstn.
    rewrite app_nil_r. reflexivity. }
  rewrite Hc. rewrite Hsk. repeat split.
  - eauto.
  - exists post. simpl. rewrite <- app_assoc. reflexivity.
  - unfold brace_depth in Hd.
    change (ch "{" :: mid ++ [ch "}"]) with ([ch "{"] ++ mid ++ [ch "}"]).
    rewrite !count_char_app.
    change (count_char (ch "{") [ch "{"]) with 1.
    change (count_char (ch "}") [ch "{"]) with 0.
    change (count_char (ch "{") [ch "}"]) with 0.
    change (count_char (ch "}") [ch "}"]) with 1. lia.
  - intros p q Hpq Hp Hq.
    destruct p as [|x p]; [congruence|]. injection Hpq as <- Hpq.
    assert (Hm : exists q', mid = p ++ q').
    { destruct q as [|y q] using rev_ind; [congruence|].
      clear IHq. rewrite app_assoc in Hpq.
      apply app_inj_tail in Hpq as [-> _]. eauto. }
    destruct Hm as [q' Hm]. specialize (Hall p q' Hm).
    unfold brace_depth in Hall.
    change (ch "{" :: p) with ([ch "{"] ++ p).
    rewrite !count_char_app.
    change (count_char (ch "{") [ch "{"]) with 1.
    change (count_char (ch "}") [ch "{"]) with 0. lia.
Qed.

(** X3.  [close_open_quotes] appends at most one quote, and what it
    returns has an even number of unescaped quotes, unless the text had an
    odd number of them and ends with an odd number of backslashes: the
    quote appended is then escaped itself and the string stays open. *)
Theorem close_open_quotes_parity (text : str) :
  (close_open_quotes text = text \/ close_open_quotes text = text ++ [DQUOTE]) /\
  Nat.even (count_unescaped_quotes [] (close_open_quotes text)) =
    Nat.even (count_unescaped_quotes [] text) ||
    Nat.even (trailing_backslashes text).
Proof.
  unfold close_open_quotes.
  rewrite <- Nat.negb_even.
  destruct (Nat.even (count_unescaped_quotes [] text)) eqn:E; simpl.
  - split; [auto|]. rewrite E. reflexivity.
  - split; [auto|]. rewrite count_unescaped_quotes_snoc.
    rewrite app_nil_r. fold (trailing_backslashes text).
    change (char_eqb DQUOTE DQUOTE) with true. cbv iota beta. simpl andb.
    destruct (Nat.even (trailing_backslashes text)).
    + rewrite Nat.add_1_r, Nat.even_succ, <- Nat.negb_even, E. reflexivity.
    + rewrite Nat.add_0_r. exact E.
Qed.

(** X4.  Padding the braces appends closing braces only, leaves the opening
    ones as they are, and brings the closing ones up to their number: after
    it there are at least as many closing as opening braces, and a text
    that had enough of them is returned unchanged. *)
Theorem pad_braces_balances (candidate : str) :
  (exists n, pad_braces candidate = candidate ++ repeat_char (ch "}") n) /\
  count_char (ch "{") (pad_braces candidate) = count_char (ch "{") candidate /\
  count_char (ch "}") (pad_braces candidate) =
    Nat.max (count_char (ch "{") candidate) (count_char (ch "}") candidate) /\
  (count_char (ch "{") candidate <= count_char (ch "}") candidate ->
   pad_braces candidate = candidate).
Proof.
  unfold pad_braces.
  destruct (count_char (ch "}") candidate <? count_char (ch "{") candidate) eqn:E.
  - apply Nat.ltb_lt in E. repeat split.
    + eauto.
    + rewrite count_char_app, count_char_repeat_other by reflexivity. lia.
    + rewrite count_char_app, count_char_repeat. lia.
    + lia.
  - apply Nat.ltb_ge in E. repeat split.
    + exists 0. rewrite app_nil_r. reflexivity.
    + lia.
Qed.

Lemma ends_solid_inv (s : str) :
  ends_solid s = true ->
  (exists c, s = [c] /\ solid c = true) \/
  (exists c A d, s = c :: A ++ [d] /\ solid c = true /\ solid d = true).
Proof.
  destruct s as [|c t]; [discriminate|]. simpl. intros H.
  apply andb_true_iff in H as [Hc Hd].
  destruct t as [|x t] using rev_ind.
  - left. eauto.
  - right. rewrite last_last in Hd. exists c, t, x. auto.
Qed.

Lemma ends_solid_snoc (c : char) (A : str) (d : char) :
  solid c = true -> solid d = true -> ends_solid (c :: A ++ [d]) = true.
Proof. intros Hc Hd. simpl. rewrite last_last, Hc, Hd. reflexivity. Qed.

Lemma last_in (t : str) (c : char) : In (last t c) (c :: t).
Proof.
  induction t as [|x t IH]; [left; reflexivity|].
  destruct t as [|y t]; [right; left; reflexivity|].
  change (last (x :: y :: t) c) with (last (y :: t) c).
  destruct IH as [IH|IH]; [left; assumption|right; right; assumption].
Qed.

Lemma all_solid_ends (s : str) :
  s <> [] -> forallb solid s = true -> ends_solid s = true.
Proof.
  destruct s as [|c t]; [congruence|]. intros _ H.
  rewrite forallb_forall in H. simpl.
  rewrite (H c) by (left; reflexivity).
  rewrite (H _ (last_in t c)). reflexivity.
Qed.

Lemma digit_cases (c : char) :
  is_digit c = true ->
  c = 48%N \/ c = 49%N \/ c = 50%N \/ c = 51%N \/ c = 52%N \/
  c = 53%N \/ c = 54%N \/ c = 55%N \/ c = 56%N \/ c = 57%N.
Proof.
  unfold is_digit. intros H. apply andb_true_iff in H as [H1 H2].
  apply N.leb_le in H1, H2. unfold char in c. lia.
Qed.

Lemma digit_solid (c : char) : is_digit c = true -> solid c = true.
Proof.
  intros H. apply digit_cases in H.
  repeat (destruct H as [->|H]; [reflexivity|]). subst c. reflexivity.
Qed.

Lemma number_char_solid (c : char) : number_char c = true -> solid c = true.
Proof.
  unfold number_char. intros H. apply orb_true_iff in H as [H|H].
  - apply digit_solid. assumption.
  - simpl in H. repeat (apply orb_true_iff in H as [H|H]);
      try discriminate; apply char_eqb_eq in H; subst c; reflexivity.
Qed.

Lemma digits_number_chars (s : str) :
  forallb is_digit s = true -> forallb number_char s = true.
Proof.
  induction s as [|c s IH]; simpl; [reflexivity|]. intros H.
  apply andb_true_iff in H as [Hc H]. unfold number_char at 1.
  rewrite Hc, IH by assumption. reflexivity.
Qed.

Lemma is_digits_number_chars (s : str) :
  is_digits s = true -> forallb number_char s = true.
Proof.
  destruct s; [discriminate|]. unfold is_digits. apply digits_number_chars.
Qed.

Lemma integer_text_chars (i : str) :
  is_integer_text i = true -> forallb number_char i = true.
Proof.
  unfold is_integer_text. destruct i as [|c t]; [discriminate|].
  destruct (char_eqb c (ch "-")) eqn:E.
  - apply char_eqb_eq in E. subst c. destruct t as [|x t]; [discriminate|].
    intros H. apply andb_true_iff in H as [H _].
    apply is_digits_number_chars in H. simpl in *. exact H.
  - intros H. apply andb_true_iff in H as [H _].
    apply is_digits_number_chars in H. exact H.
Qed.

Lemma frac_text_chars (fr : str) :
  is_frac_text fr = true -> forallb number_char fr = true.
Proof.
  destruct fr as [|c t]; [reflexivity|]. simpl. intros H.
  apply andb_true_iff in H as [Hc H]. apply char_eqb_eq in Hc. subst c.
  apply is_digits_number_chars in H. rewrite H. reflexivity.
Qed.

Lemma exp_text_chars (ex : str) :
  is_exp_text ex = true -> forallb number_char ex = true.
Proof.
  destruct ex as [|c t]; [reflexivity|]. simpl. intros H.
  apply andb_true_iff in H as [Hc H].
  assert (Hn : number_char c = true).
  { apply orb_true_iff in Hc as [Hc|Hc]; apply char_eqb_eq in Hc; subst c;
      reflexivity. }
  rewrite Hn. simpl. destruct t as [|x t]; [discriminate|].
  destruct (char_eqb x (ch "+") || char_eqb x (ch "-")) eqn:Ex.
  - apply is_digits_number_chars in H. simpl. rewrite H.
    apply orb_true_iff in Ex as [Ex|Ex]; apply char_eqb_eq in Ex; subst x;
      reflexivity.
  - apply is_digits_number_chars in H. exact H.
Qed.

Lemma forallb_impl {A : Type} (p q : A -> bool) (l : list A) :
  (forall x, p x = true -> q x = true) ->
  forallb p l = true -> forallb q l = true.
Proof.
  intros Hpq. induction l as [|x l IH]; simpl; [reflexivity|]. intros H.
  apply andb_true_iff in H as [Hx H]. rewrite (Hpq x Hx), IH by assumption.
  reflexivity.
Qed.

Lemma rstrip_blank (s : str) : forallb isspace s = true -> rstrip s = [].
Proof.
  intros H. unfold rstrip, rstrip_by. rewrite lstrip_by_all; [reflexivity|].
  rewrite forallb_forall in *. intros x Hx. apply H. apply in_rev. assumption.
Qed.

Lemma strip_padded (W0 : str) (c : char) (A : str) (d : char) (W3 : str) :
  forallb isspace W0 = true -> forallb isspace W3 = true ->
  isspace c = false -> isspace d = false ->
  strip (W0 ++ c :: A ++ d :: W3) = c :: A ++ [d].
Proof.
  intros H0 H3 Hc Hd. unfold strip, strip_by.
  rewrite lstrip_by_app_solid by assumption.
  rewrite lstrip_by_all by assumption. simpl app.
  rewrite app_comm_cons, rstrip_by_app_solid by assumption.
  fold (rstrip W3). rewrite rstrip_blank by assumption. reflexivity.
Qed.

(** *** [re.sub] at a match *)

Lemma sub_from_skip (r : regex) (repl : mstate -> str) (X Y : str) :
  sub_from r repl false (length X) (X ++ Y) = sub_from r repl false 0 Y.
Proof. induction X as [|x X IH]; [reflexivity|]. simpl. exact IH. Qed.

Lemma sub_from_match_prefix (r : regex) (repl : mstate -> str) (b : bool)
    (M R : str) (st : mstate) :
  match_here r b (M ++ R) = Some st -> rest st = R -> M <> [] ->
  sub_from r repl b 0 (M ++ R) = repl st ++ sub_from r repl false 0 R.
Proof.
  intros Hm Hr HM. destruct M as [|x M]; [congruence|].
  rewrite <- app_comm_cons in *. cbn [sub_from]. rewrite Hm, Hr. f_equal.
  replace (length (x :: M ++ R) - length R) with (S (length M))
    by (cbn [length]; rewrite length_app; lia).
  apply sub_from_skip.
Qed.

Lemma star_spaces (W : str) (c : char) (R : str) (g : option str) (b : bool) :
  forallb isspace W = true -> isspace c = false ->
  exists b', star_class isspace g b (W ++ c :: R) (fun st => Some st)
             = Some (MState b' (c :: R) g).
Proof.
  intros HW Hc. revert b. induction W as [|x W IH]; intros b.
  - simpl. rewrite Hc. eauto.
  - simpl in HW. apply andb_true_iff in HW as [Hx HW].
    simpl app. cbn [star_class]. rewrite Hx.
    destruct (IH HW false) as [b' ->]. eauto.
Qed.

Lemma space_not_j (x : char) :
  isspace x = true -> ignorecase_eqb (ch "j") x = false.
Proof.
  intros H. unfold ignorecase_eqb.
  change (ch "j" =? 105)%N with false. change (ch "j" =? 107)%N with false.
  change (ch "j" =? 115)%N with false. simpl andb. rewrite !orb_false_r.
  apply orb_false_iff.
  split; apply N.eqb_neq; intros ->; vm_compute in H; discriminate.
Qed.

Lemma fence_open_match (tag W1 : str) (c : char) (R : str) :
  is_json_tag tag = true -> forallb isspace W1 = true ->
  isspace c = false -> ignorecase_eqb (ch "j") c = false ->
  exists st, match_here re_fence_open true
               (py "```" ++ tag ++ W1 ++ c :: R) = Some st /\
             rest st = c :: R.
Proof.
  intros Ht HW Hc Hj.
  destruct (star_spaces W1 c R None false HW Hc) as [b' Hstar].
  destruct tag as [|a [|b [|c' [|d [|]]]]]; try discriminate.
  - assert (Hh : match W1 ++ c :: R with
                 | x :: _ => ignorecase_eqb (ch "j") x = false
                 | [] => True
                 end).
    { destruct W1 as [|x W1]; simpl; [assumption|].
      simpl in HW. apply andb_true_iff in HW as [Hx _].
      apply space_not_j. assumption. }
    unfold match_here, re_fence_open.
    cbn [rmatch lits py map list_ascii_of_string app].
    change (N_of_ascii "`") with (ch "`").
    cbv beta iota delta [eat rest group1 at_start].
    change (char_eqb (ch "`") (ch "`")) with true. cbv beta iota.
    destruct (W1 ++ c :: R) as [|x t] eqn:E.
    + destruct W1; discriminate.
    + rewrite Hh. rewrite Hstar. eexists. split; reflexivity.
  - cbn [is_json_tag] in Ht.
    apply andb_true_iff in Ht as [Ht Hd4]. apply andb_true_iff in Ht as [Ht Hd3].
    apply andb_true_iff in Ht as [Hd1 Hd2].
    unfold match_here, re_fence_open.
    cbn [rmatch lits py map list_ascii_of_string app].
    change (N_of_ascii "`") with (ch "`").
    cbv beta iota delta [eat rest group1 at_start].
    change (char_eqb (ch "`") (ch "`")) with true. cbv beta iota.
    rewrite Hd1, Hd2, Hd3, Hd4. rewrite Hstar.
    eexists. split; reflexivity.
Qed.

Lemma fence_close_match (W : str) (b : bool) :
  forallb isspace W = true ->
  exists st, match_here re_fence_close b (W ++ py "```") = Some st /\
             rest st = [].
Proof.
  intros HW. unfold match_here, re_fence_close. cbn [rmatch].
  cbn [group1 at_start rest]. revert b.
  induction W as [|x W IH]; intros b.
  - eexists. split; reflexivity.
  - simpl in HW. apply andb_true_iff in HW as [Hx HW].
    simpl app. cbn [star_class]. rewrite Hx.
    destruct (IH HW false) as (st & -> & Hr). eauto.
Qed.

Lemma sub_fence_close_all (W : str) (b : bool) :
  forallb isspace W = true ->
  sub_from re_fence_close repl_empty b 0 (W ++ py "```") = [].
Proof.
  intros HW. destruct (fence_close_match W b HW) as (st & Hm & Hr).
  rewrite <- (app_nil_r (W ++ py "```")).
  rewrite (sub_from_match_prefix _ _ _ _ _ st).
  - reflexivity.
  - rewrite app_nil_r. exact Hm.
  - exact Hr.
  - destruct W; discriminate.
Qed.

Lemma floatstr_solid (f : pyfloat) :
  floatstr f <> [] /\ forallb solid (floatstr f) = true.
Proof.
  destruct (floatstr_reads_back f) as [[E _]|[[E _]|[[E _]|H]]];
    try (rewrite E; split; [discriminate|reflexivity]).
  destruct H as (i & fr & ex & E & Hi & Hfr & Hex & _ & _). rewrite E.
  split.
  - destruct i; [discriminate|discriminate].
  - rewrite !forallb_app.
    rewrite (forallb_impl _ _ _ number_char_solid (integer_text_chars _ Hi)).
    rewrite (forallb_impl _ _ _ number_char_solid (frac_text_chars _ Hfr)).
    rewrite (forallb_impl _ _ _ number_char_solid (exp_text_chars _ Hex)).
    reflexivity.
Qed.

Lemma encode_ends_solid (lvl : nat) (v : value) :
  ends_solid (encode lvl v) = true.
Proof.
  destruct v as [|[]|z|f|s|[|x l]|[|kv d]]; cbn [encode];
    try reflexivity.
  - destruct (int_repr_shape z) as (c & t & E & Hi & _).
    apply all_solid_ends; [rewrite E; discriminate|].
    exact (forallb_impl _ _ _ number_char_solid (integer_text_chars _ Hi)).
  - destruct (floatstr_solid f). apply all_solid_ends; assumption.
  - unfold encode_basestring. apply ends_solid_snoc; reflexivity.
  - rewrite !app_assoc. apply ends_solid_snoc; reflexivity.
  - rewrite !app_assoc. apply ends_solid_snoc; reflexivity.
Qed.

Lemma cleaned_ends_solid (s : str) :
  ends_solid s = true -> cleaned (Some s) = s.
Proof.
  intros H. apply ends_solid_inv in H as [(c & -> & Hc)|(c & A & d & -> & Hc & Hd)].
  - destruct (solid_parts c Hc) as [Hc1 Hc2].
    unfold cleaned.
    assert (Hs : strip [c] = [c]).
    { unfold strip, strip_by, rstrip_by. simpl. rewrite Hc1. simpl.
      rewrite Hc1. reflexivity. }
    rewrite Hs, fence_open_solid by assumption.
    unfold re_sub.
    pose proof (sub_fence_close_prefix [] c [] true Hc) as Hp.
    cbn [app] in Hp. rewrite Hp. exact Hs.
  - rewrite cleaned_prefix by assumption. reflexivity.
Qed.

(** X5.  [fix_json] is idempotent on what it returns: a text it has
    returned passes through it unchanged. *)
Theorem fix_json_idempotent (json_str : option str) (out : str) :
  fix_json json_str = Ok (Some out) ->
  fix_json (Some out) = Ok (Some out).
Proof.
  intros H. destruct (fix_json_is_dumps _ _ H) as (v & Hwf & ->).
  apply fix_json_first_strategy.
  unfold dumps. rewrite cleaned_ends_solid by apply encode_ends_solid.
  apply try_parse_loads. apply loads_dumps. assumption.
Qed.

Lemma value_start_not_j (c : char) :
  value_start c = true ->
  isspace c = false /\ ignorecase_eqb (ch "j") c = false.
Proof.
  unfold value_start. intros H. apply orb_true_iff in H as [H|H].
  - pose proof (digit_solid c H) as Hs. apply solid_parts in Hs as [Hs _].
    split; [assumption|]. apply digit_cases in H.
    repeat (destruct H as [->|H]; [reflexivity|]). subst c. reflexivity.
  - simpl in H. repeat (apply orb_true_iff in H as [H|H]);
      try discriminate; apply char_eqb_eq in H; subst c; split; reflexivity.
Qed.

Lemma outer_close_none (whole post : str) (b : bool) (g : option str) :
  count_char (ch "}") post = 0 ->
  star_class any_char g b post (outer_close whole) = None.
Proof.
  revert b. induction post as [|c post IH]; intros b H; [reflexivity|].
  unfold count_char in H. cbn [filter] in H.
  destruct (char_eqb (ch "}") c) eqn:E; [discriminate|].
  cbn [star_class any_char]. rewrite (IH false H).
  unfold outer_close, eat. cbn [rest]. rewrite E. reflexivity.
Qed.

Lemma outer_close_last (whole mid post : str) (b : bool) (g : option str) :
  count_char (ch "}") post = 0 ->
  star_class any_char g b (mid ++ ch "}" :: post) (outer_close whole) =
  Some (MState false post
          (Some (firstn (length whole - length post) whole))).
Proof.
  intros H. revert b. induction mid as [|c mid IH]; intros b.
  - simpl app. cbn [star_class any_char].
    rewrite (outer_close_none whole post false g H).
    unfold outer_close, eat. cbn [rest group1 at_start].
    rewrite char_eqb_refl. reflexivity.
  - simpl app. cbn [star_class any_char]. rewrite (IH false). reflexivity.
Qed.

Lemma outer_braces_here (mid post : str) (b : bool) :
  count_char (ch "}") post = 0 ->
  match_here re_outer_braces b (ch "{" :: mid ++ ch "}" :: post) =
  Some (MState false post (Some (ch "{" :: mid ++ [ch "}"]))).
Proof.
  intros H. unfold match_here, re_outer_braces. cbn [rmatch].
  unfold eat at 1. cbn [rest group1 at_start]. rewrite char_eqb_refl.
  change (fun st' : mstate => eat (char_eqb (ch "}")) st' _)
    with (outer_close (ch "{" :: mid ++ ch "}" :: post)).
  rewrite outer_close_last by assumption. do 3 f_equal.
  replace (length (ch "{" :: mid ++ ch "}" :: post) - length post)
    with (length (ch "{" :: mid ++ [ch "}"]) + 0)
    by (cbn [length]; rewrite !length_app; cbn [length]; lia).
  change (ch "{" :: mid ++ ch "}" :: post)
    with ((ch "{" :: mid) ++ [ch "}"] ++ post).
  rewrite app_assoc, firstn_app_2. simpl firstn. rewrite app_nil_r.
  reflexivity.
Qed.

Lemma outer_braces_not_here (c : char) (t : str) (b : bool) :
  char_eqb (ch "{") c = false ->
  match_here re_outer_braces b (c :: t) = None.
Proof.
  intros H. unfold match_here, re_outer_braces. cbn [rmatch].
  unfold eat at 1. cbn [rest]. rewrite H. reflexivity.
Qed.

Lemma outer_braces_no_close (s : str) (b : bool) :
  count_char (ch "}") s = 0 -> search_from re_outer_braces b s = None.
Proof.
  revert b. induction s as [|c s IH]; intros b H; [reflexivity|].
  unfold count_char in H. cbn [filter] in H.
  destruct (char_eqb (ch "}") c) eqn:E; [discriminate|].
  cbn [search_from]. rewrite (IH false H).
  unfold match_here, re_outer_braces. cbn [rmatch].
  unfold eat at 1. cbn [rest group1 at_start].
  destruct (char_eqb (ch "{") c); [|reflexivity].
  change (fun st' : mstate => eat (char_eqb (ch "}")) st' _)
    with (outer_close (c :: s)).
  rewrite outer_close_none by assumption. reflexivity.
Qed.

(** X8.  The greedy search of the fifth strategy takes the text from the
    first opening brace to the last closing brace after it; it finds
    nothing when the text has no opening brace, or no closing brace after
    the first opening one. *)
Theorem outer_braces_span (pre mid post : str) :
  count_char (ch "{") pre = 0 ->
  (count_char (ch "}") post = 0 ->
   re_search re_outer_braces (pre ++ ch "{" :: mid ++ ch "}" :: post) =
     Some (ch "{" :: mid ++ [ch "}"])) /\
  (count_char (ch "}") post = 0 ->
   re_search re_outer_braces (pre ++ ch "{" :: post) = None) /\
  re_search re_outer_braces pre = None.
Proof.
  intros Hpre. unfold re_search.
  assert (Hgo : forall X b,
            search_from re_outer_braces b (pre ++ X) =
            match pre with
            | [] => search_from re_outer_braces b X
            | _ => search_from re_outer_braces false X
            end).
  { intros X. clear - Hpre. induction pre as [|c pre IH]; intros b;
      [reflexivity|].
    unfold count_char in Hpre. cbn [filter] in Hpre.
    destruct (char_eqb (ch "{") c) eqn:E; [discriminate|].
    simpl app. cbn [search_from].
    rewrite (outer_braces_not_here c _ b E).
    rewrite (IH Hpre false). destruct pre; reflexivity. }
  split; [|split].
  - intros Hpost. rewrite Hgo.
    assert (Hs : forall b, search_from re_outer_braces b
                             (ch "{" :: mid ++ ch "}" :: post)
                           = Some (ch "{" :: mid ++ [ch "}"])).
    { intros b. cbn [search_from].
      rewrite outer_braces_here by assumption. reflexivity. }
    destruct pre; apply Hs.
  - intros Hpost. rewrite Hgo.
    assert (Hs : forall b, search_from re_outer_braces b (ch "{" :: post) = None).
    { intros b. cbn [search_from].
      rewrite (outer_braces_no_close post false Hpost).
      unfold match_here, re_outer_braces. cbn [rmatch].
      unfold eat at 1. cbn [rest group1 at_start]. rewrite char_eqb_refl.
      change (fun st' : mstate => eat (char_eqb (ch "}")) st' _)
        with (outer_close (ch "{" :: post)).
      rewrite outer_close_none by assumption. reflexivity. }
    destruct pre; apply Hs.
  - rewrite <- (app_nil_r pre), Hgo. destruct pre; reflexivity.
Qed.

Lemma append_part_texts_readable (ps : list part) (acc : list str) :
  forallb readable ps = true ->
  append_part_texts ps acc = Ok (acc ++ part_texts ps).
Proof.
  revert acc. induction ps as [|p ps IH]; intros acc H.
  - simpl. rewrite app_nil_r. reflexivity.
  - simpl in H. apply andb_true_iff in H as [Hp H].
    cbn [append_part_texts]. unfold part_texts. cbn [map filter].
    destruct p as [[| |[|c t]]]; try discriminate;
      cbn [part_text part_text_of getattr nonempty nonblank].
    + rewrite (IH acc H). reflexivity.
    + rewrite (IH acc H). reflexivity.
    + rewrite (IH _ H). unfold part_texts. rewrite <- app_assoc. reflexivity.
Qed.

Lemma append_part_texts_failing (ps : list part) (acc : list str) :
  forallb readable ps = false ->
  exists e, append_part_texts ps acc = Raise e.
Proof.
  revert acc. induction ps as [|p ps IH]; intros acc H; [discriminate|].
  cbn [forallb] in H. cbn [append_part_texts].
  destruct p as [[| |[|c t]]];
    cbn [readable part_text getattr nonempty andb] in *; eauto.
Qed.

Lemma blank_no_text (a : attr str) :
  blank a = true ->
  match getattr a with Ok t => nonempty t | Raise _ => None end = None.
Proof. destruct a as [| |[|c t]]; simpl; auto; discriminate. Qed.

Lemma append_candidates_parts (cs : list candidate) (acc : list str) :
  Forall (fun c => content_part_list c <> [] /\
                   forallb readable (content_part_list c) = true) cs ->
  append_candidates cs acc =
  Ok (acc ++ flat_map (fun c => part_texts (content_part_list c)) cs).
Proof.
  revert acc. induction cs as [|c cs IH]; intros acc H.
  - simpl. rewrite app_nil_r. reflexivity.
  - inversion H as [|? ? [Hne Hr] Hcs]; subst.
    cbn [append_candidates flat_map].
    assert (Hc : append_candidate c acc =
                 Ok (acc ++ part_texts (content_part_list c))).
    { clear IH H Hcs. unfold append_candidate.
      destruct c as [[| |[[| |[|p ps]]]] ct];
        cbn [content_part_list candidate_content content_parts] in *;
        try congruence.
      cbn [getattr nonempty].
      apply append_part_texts_readable. assumption. }
    rewrite Hc, (IH _ Hcs), <- app_assoc. reflexivity.
Qed.

(** X9.  When the response has no direct text and its result has parts,
    none of which raises when read, the extractor returns the non-empty
    texts of these parts in order, joined by line feeds, or absence when
    no part has a text; the candidates are not looked at. *)
Theorem result_parts_joined (t : attr str) (ps : list part)
    (cands : attr (list candidate)) :
  blank t = true -> ps <> [] -> forallb readable ps = true ->
  _extract_text_from_response
    (Response t (Attr (ResultObj (Attr ps))) cands)
  = Ok (joined (part_texts ps)).
Proof.
  intros Ht Hne Hr. unfold _extract_text_from_response, extract_body.
  cbn [response_text]. rewrite (blank_no_text t Ht).
  unfold collect_parts. cbn [response_result getattr result_parts].
  destruct ps as [|p ps]; [congruence|]. cbn [nonempty].
  rewrite append_part_texts_readable by assumption. cbn [app].
  destruct (part_texts (p :: ps)); reflexivity.
Qed.

(** X10.  One part whose text cannot be read loses everything: when the
    response has no direct text and reading a part of its result raises,
    the extractor returns absence, whatever texts the other parts and the
    candidates hold. *)
Theorem failing_part_loses_all (t : attr str) (ps : list part)
    (cands : attr (list candidate)) :
  blank t = true -> forallb readable ps = false ->
  _extract_text_from_response
    (Response t (Attr (ResultObj (Attr ps))) cands)
  = Ok None.
Proof.
  intros Ht Hr. unfold _extract_text_from_response, extract_body.
  cbn [response_text]. rewrite (blank_no_text t Ht).
  unfold collect_parts. cbn [response_result getattr result_parts].
  destruct ps as [|p ps]; [discriminate|]. cbn [nonempty].
  destruct (append_part_texts_failing (p :: ps) [] Hr) as [e ->].
  reflexivity.
Qed.

(** X11.  The shape the completion service gives: when the response has no
    direct text and no result, and every candidate has a content with
    parts that can be read, the extractor returns the non-empty texts of
    all the parts, candidate by candidate and in order, joined by line
    feeds; the text attribute of a candidate is not read. *)
Theorem candidate_parts_joined (t : attr str) (cs : list candidate) :
  blank t = true ->
  Forall (fun c => content_part_list c <> [] /\
                   forallb readable (content_part_list c) = true) cs ->
  _extract_text_from_response (Response t NoAttr (Attr cs))
  = Ok (joined (flat_map (fun c => part_texts (content_part_list c)) cs)).
Proof.
  intros Ht Hcs. unfold _extract_text_from_response, extract_body.
  cbn [response_text]. rewrite (blank_no_text t Ht).
  unfold collect_parts.
  cbn [response_result response_candidates getattr].
  destruct cs as [|c cs]; [reflexivity|]. cbn [nonempty].
  rewrite append_candidates_parts by assumption. cbn [app].
  destruct (flat_map _ (c :: cs)); reflexivity.
Qed.

Lemma PLANNING_PROMPT_parts :
  PLANNING_PROMPT = planning_head ++ py "{user_request}" ++ planning_tail.
Proof. vm_compute. reflexivity. Qed.

Lemma space_neq (c x : char) :
  isspace c = true -> isspace x = false ->
  char_eqb c x = false /\ char_eqb x c = false.
Proof.
  intros Hc Hx. rewrite (char_eqb_sym x c).
  destruct (char_eqb c x) eqn:E; [|auto].
  apply char_eqb_eq in E. congruence.
Qed.

Lemma space_not_digit (c : char) : isspace c = true -> is_digit c = false.
Proof.
  intros H. destruct (is_digit c) eqn:E; [|reflexivity].
  apply digit_solid, solid_parts in E. destruct E. congruence.
Qed.

Lemma match_number_space (c : char) (t : str) :
  isspace c = true -> match_number (c :: t) = None.
Proof.
  intros H. unfold match_number, match_integer.
  rewrite (proj1 (space_neq c (ch "-") H eq_refl)).
  rewrite (proj1 (space_neq c (ch "0") H eq_refl)).
  rewrite (space_not_digit c H). reflexivity.
Qed.

Lemma scan_once_space (fuel : nat) (c : char) (t : str) :
  isspace c = true -> scan_once fuel (c :: t) = ScanError \/ fuel = 0.
Proof.
  intros H. destruct fuel as [|n]; [auto|left].
  cbn [scan_once].
  rewrite (proj1 (space_neq c DQUOTE H eq_refl)).
  rewrite (proj1 (space_neq c (ch "{") H eq_refl)).
  rewrite (proj1 (space_neq c (ch "[") H eq_refl)).
  rewrite (match_number_space c t H).
  cbn [startswith py map list_ascii_of_string].
  change (N_of_ascii "n") with (ch "n"). change (N_of_ascii "t") with (ch "t").
  change (N_of_ascii "f") with (ch "f"). change (N_of_ascii "N") with (ch "N").
  change (N_of_ascii "I") with (ch "I"). change (N_of_ascii "-") with (ch "-").
  rewrite (proj2 (space_neq c (ch "n") H eq_refl)).
  rewrite (proj2 (space_neq c (ch "t") H eq_refl)).
  rewrite (proj2 (space_neq c (ch "f") H eq_refl)).
  rewrite (proj2 (space_neq c (ch "N") H eq_refl)).
  rewrite (proj2 (space_neq c (ch "I") H eq_refl)).
  rewrite (proj2 (space_neq c (ch "-") H eq_refl)).
  reflexivity.
Qed.

Lemma lstrip_by_suffix (p : char -> bool) (q : char -> bool) (s : str) :
  forallb q s = true -> forallb q (lstrip_by p s) = true.
Proof.
  induction s as [|c s IH]; simpl; [reflexivity|]. intros H.
  apply andb_true_iff in H as [Hc H].
  destruct (p c); [auto|]. simpl. rewrite Hc, H. reflexivity.
Qed.

Lemma loads_cases (s : str) :
  (exists v, loads s = Ok v) \/ loads s = Raise JSONDecodeError \/
  (exists i, loads s = Raise (int_digits_error i)).
Proof.
  unfold loads. destruct (startswith _ s); [auto|].
  pose proof (scanner_raises (fuel_for s)) as (Hr & _).
  destruct (scan_once _ _) as [v r| |e0|] eqn:Es; auto.
  - destruct (skip_ws r); eauto.
  - destruct (Hr _ _ Es) as [i ->]. eauto.
Qed.

Lemma loads_blank (s : str) :
  forallb isspace s = true -> loads s = Raise JSONDecodeError.
Proof.
  intros H. unfold loads. destruct (startswith _ s); [reflexivity|].
  pose proof (lstrip_by_suffix json_ws isspace s H) as Hs.
  fold (skip_ws s) in Hs.
  destruct (skip_ws s) as [|c t];
    [unfold fuel_for; rewrite Nat.add_comm; reflexivity|].
  simpl in Hs. apply andb_true_iff in Hs as [Hc _].
  destruct (scan_once_space (fuel_for s) c t Hc) as [->|E]; [reflexivity|].
  unfold fuel_for in E. lia.
Qed.

Lemma dumps_nonempty (v : value) : dumps v <> [].
Proof.
  unfold dumps. destruct (encode_start 0 v) as (c & t & -> & _). discriminate.
Qed.

Lemma fix_json_returns (json_str : option str) :
  exists x, fix_json json_str = Ok x.
Proof. unfold fix_json. destruct (fix_json_body json_str); eauto. Qed.

Lemma plan_outcome_shown (E : env) (t : str) (v : value) (tr : list event) :
  match show_plan v with
  | Ok plan => (Ok plan, tr)
  | Raise e => (Raise e, dump_raw E (Some t) tr)
  end =
  if printable (dumps v) then (Ok v, tr)
  else (Raise UnicodeEncodeError, dump_raw E (Some t) tr).
Proof.
  unfold show_plan, print. destruct (printable (dumps v)); reflexivity.
Qed.

(** What the planning stage does with a text it has obtained. *)
Lemma planning_with_text (E : env) (mock : option str) (user_request : str)
    (tr tr1 : list event) (t : str) :
  obtain_text E mock (planning_prompt user_request) tr = (Ok (Some t), tr1) ->
  (exists v, loads t = Ok v /\
     chain1_planning E mock user_request tr =
       plan_outcome E t v (tr1 ++ [Parse t])) \/
  (loads t = Raise JSONDecodeError /\
   exists v, fix_json (Some t) = Ok (Some (dumps v)) /\
     well_formed v = true /\
     chain1_planning E mock user_request tr =
       plan_outcome E t v
         (((tr1 ++ [Parse t]) ++ [Repair t]) ++ [Parse (dumps v)])) \/
  (loads t = Raise JSONDecodeError /\ fix_json (Some t) = Ok None /\
   chain1_planning E mock user_request tr =
     (Raise repair_error,
      dump_raw E (Some t)
        (dump_raw E (Some t) ((tr1 ++ [Parse t]) ++ [Repair t])))) \/
  (exists i, loads t = Raise (int_digits_error i) /\
   chain1_planning E mock user_request tr =
     (Raise (int_digits_error i), dump_raw E (Some t) (tr1 ++ [Parse t]))).
Proof.
  intros Ho. unfold chain1_planning, planning_try, plan_outcome. rewrite Ho.
  destruct (loads_cases t) as [[v Hv]|[Hl|[i Hi]]]; rewrite ?Hv, ?Hl, ?Hi.
  - left. exists v. split; [reflexivity|]. apply plan_outcome_shown.
  - right. destruct (fix_json (Some t)) as [[out|]|e] eqn:Ef.
    + left. destruct (fix_json_is_dumps _ _ Ef) as (v & Hwf & ->).
      split; [reflexivity|]. exists v. split; [reflexivity|].
      split; [assumption|].
      destruct (dumps v) as [|c d] eqn:Ed; [destruct (dumps_nonempty v Ed)|].
      cbn [nonempty]. rewrite <- Ed. rewrite (loads_dumps v Hwf).
      apply plan_outcome_shown.
    + right. left. repeat split; reflexivity.
    + destruct (fix_json_returns (Some t)) as [x Hx]. congruence.
  - right. right. right. exists i. split; reflexivity.
Qed.

Lemma plan_outcome_cases (E : env) (t : str) (v : value) (tr : list event) :
  (printable (dumps v) = true /\ plan_outcome E t v tr = (Ok v, tr)) \/
  (printable (dumps v) = false /\
   plan_outcome E t v tr =
     (Raise UnicodeEncodeError, dump_raw E (Some t) tr)).
Proof.
  unfold plan_outcome. destruct (printable (dumps v)); auto.
Qed.

Lemma obtain_text_cases (E : env) (mock : option str) (prompt : str)
    (tr : list event) :
  (exists m, nonempty mock = Some m /\ m <> [] /\
             obtain_text E mock prompt tr = (Ok (Some m), tr)) \/
  (nonempty mock = None /\
   obtain_text E mock prompt tr =
   (match generate_content E tr prompt with
    | Raise e => Raise e
    | Ok response => _extract_text_from_response response
    end, tr ++ [Generate prompt])).
Proof.
  destruct (nonempty mock) as [m|] eqn:Em.
  - left. exists m. split; [reflexivity|]. split.
    + eapply nonempty_some; eauto.
    + unfold obtain_text. rewrite Em. reflexivity.
  - right. split; [reflexivity|]. apply obtain_text_service. assumption.
Qed.

(** X12.  A planning stage that succeeds writes no file, and the plan it
    returns is what the last text it parsed parses to: its trace is the
    one it started from, then events none of which is a file write, then
    the parse of that text. *)
Theorem planning_success_trace (E : env) (mock : option str)
    (user_request : str) (tr tr' : list event) (v : value) :
  chain1_planning E mock user_request tr = (Ok v, tr') ->
  exists pre txt,
    tr' = tr ++ pre ++ [Parse txt] /\ loads txt = Ok v /\
    existsb is_write pre = false.
Proof.
  intros H.
  destruct (obtain_text E mock (planning_prompt user_request) tr)
    as [[[t|]|e] tr1] eqn:Eo.
  - assert (Htr : exists pre0, tr1 = tr ++ pre0 /\ existsb is_write pre0 = false).
    { destruct (obtain_text_cases E mock (planning_prompt user_request) tr)
        as [(m & _ & _ & Hm)|[_ Hs]]; rewrite Eo in *.
      - injection Hm as _ ->. exists []. rewrite app_nil_r. auto.
      - injection Hs as _ ->. exists [Generate (planning_prompt user_request)].
        auto. }
    destruct Htr as (pre0 & -> & Hw).
    destruct (planning_with_text _ _ _ _ _ _ Eo)
      as [(v' & Hv & Hc)|[(Hl & v' & Hf & Hwf & Hc)|[(Hl & Hf & Hc)
         |(i & Hl & Hc)]]];
      rewrite Hc in H; try discriminate.
    + destruct (plan_outcome_cases E t v' ((tr ++ pre0) ++ [Parse t]))
        as [[_ Hp]|[_ Hp]]; rewrite Hp in H; [|discriminate].
      injection H as <- <-.
      exists pre0, t. rewrite <- app_assoc. auto.
    + destruct (plan_outcome_cases E t v'
                  ((((tr ++ pre0) ++ [Parse t]) ++ [Repair t]) ++
                   [Parse (dumps v')]))
        as [[_ Hp]|[_ Hp]]; rewrite Hp in H; [|discriminate].
      injection H as <- <-.
      exists (pre0 ++ [Parse t; Repair t]), (dumps v').
      rewrite <- !app_assoc. split; [reflexivity|].
      split; [apply loads_dumps; assumption|].
      rewrite existsb_app, Hw. reflexivity.
  - unfold chain1_planning, planning_try in H. rewrite Eo in H. discriminate.
  - unfold chain1_planning, planning_try in H. rewrite Eo in H. discriminate.
Qed.

(** X13.  The repair-parse error is never raised by the planning stage
    itself: a text that [fix_json] returns always parses, so the stage
    fails with that error only if the completion service raises it. *)
Theorem repair_parse_error_unreachable (E : env) (mock : option str)
    (user_request : str) (tr : list event) :
  generate_content E tr (planning_prompt user_request)
    <> Raise repair_parse_error ->
  fst (chain1_planning E mock user_request tr) <> Raise repair_parse_error.
Proof.
  intros Hg.
  destruct (obtain_text E mock (planning_prompt user_request) tr)
    as [[[t|]|e] tr1] eqn:Eo.
  - destruct (planning_with_text _ _ _ _ _ _ Eo)
      as [(v' & Hv & ->)|[(Hl & v' & Hf & Hwf & ->)|[(Hl & Hf & ->)
         |(i & Hl & ->)]]];
      try (unfold plan_outcome; destruct (printable (dumps v'));
           simpl; discriminate);
      simpl; discriminate.
  - unfold chain1_planning, planning_try. rewrite Eo. simpl. discriminate.
  - unfold chain1_planning, planning_try. rewrite Eo. simpl.
    intros H. injection H as ->.
    destruct (obtain_text_cases E mock (planning_prompt user_request) tr)
      as [(m & _ & _ & Hm)|[_ Hs]]; rewrite Eo in *; [discriminate|].
    injection Hs as Hs _.
    destruct (generate_content E tr (planning_prompt user_request))
      as [r|e]; [|congruence].
    assert (Hok : is_ok (_extract_text_from_response r) = true).
    { unfold _extract_text_from_response. destruct (extract_body r); reflexivity. }
    rewrite <- Hs in Hok. discriminate.
Qed.

(** X14.  A response that is white space only is a text, not an absence:
    the planning stage parses it, tries the repair, and fails with the
    repair error (not the no-text error), after writing the text to the
    debug file twice, once by the repair branch and once by the outer
    handler. *)
Theorem blank_response_fails_repair (E : env) (mock : option str)
    (user_request : str) (tr tr1 : list event) (t : str) :
  obtain_text E mock (planning_prompt user_request) tr = (Ok (Some t), tr1) ->
  forallb isspace t = true ->
  exists w1 w2,
    chain1_planning E mock user_request tr =
    (Raise repair_error,
     tr1 ++ [Parse t; Repair t; WriteFile dump_path t w1;
             WriteFile dump_path t w2]).
Proof.
  intros Ho Hb.
  assert (Hf : fix_json (Some t) = Ok None).
  { assert (Hc : cleaned (Some t) = []).
    { unfold cleaned. rewrite (strip_blank t Hb). reflexivity. }
    unfold fix_json, fix_json_body. rewrite Hc. reflexivity. }
  destruct (planning_with_text _ _ _ _ _ _ Ho)
    as [(v' & Hv & Hc)|[(Hl & v' & Hf' & _)|[(Hl & _ & Hc)|(i & Hl & _)]]].
  - rewrite (loads_blank t Hb) in Hv. discriminate.
  - congruence.
  - rewrite Hc. unfold dump_raw. do 2 eexists. rewrite <- !app_assoc.
    reflexivity.
  - rewrite (loads_blank t Hb) in Hl.
    destruct (int_digits_error_is_value_error i) as [msg Hm].
    rewrite Hm in Hl. discriminate.
Qed.

(** X16.  The planning prompt is the template with the request put in its
    one placeholder as it is: nothing in the request is escaped or
    replaced, and the rest of the template does not depend on it. *)
Theorem planning_prompt_shape (user_request : str) :
  planning_prompt user_request =
  planning_head ++ user_request ++ planning_tail.
Proof.
  unfold planning_prompt. rewrite PLANNING_PROMPT_parts.
  change (py "{user_request}") with (ch "{" :: py "user_request}").
  rewrite (replace_pass (ch "{") (py "user_request}") user_request planning_head)
    by (vm_compute; reflexivity).
  rewrite replace_hit by discriminate.
  assert (E1 : replace (ch "{" :: py "user_request}") user_request planning_tail
               = planning_tail) by (vm_compute; reflexivity).
  rewrite E1. reflexivity.
Qed.

(** *** The whole run *)

Lemma obtain_text_events (E : env) (mock : option str) (prompt : str)
    (tr tr1 : list event) (r : res (option str)) :
  obtain_text E mock prompt tr = (r, tr1) ->
  (tr1 = tr /\ exists m, m <> [] /\ r = Ok (Some m)) \/
  (tr1 = tr ++ [Generate prompt] /\ nonempty mock = None /\
   r <> Ok (Some [])).
Proof.
  intros H.
  destruct (obtain_text_cases E mock prompt tr)
    as [(m & _ & Hm & Ho)|[Hn Ho]]; rewrite Ho in H.
  - injection H as <- <-. left. eauto.
  - injection H as <- <-. right. split; [reflexivity|]. split; [assumption|].
    destruct (generate_content E tr prompt) as [resp|e]; [|discriminate].
    apply extract_never_empty.
Qed.

Lemma chain1_planning_events (E : env) (mock : option str)
    (user_request : str) (tr : list event) :
  exists evs,
    snd (chain1_planning E mock user_request tr) =
    snd (obtain_text E mock (planning_prompt user_request) tr) ++ evs /\
    (is_ok (fst (chain1_planning E mock user_request tr)) = true ->
     existsb is_write evs = false).
Proof.
  destruct (obtain_text E mock (planning_prompt user_request) tr)
    as [[[t|]|e] tr1] eqn:Eo.
  - destruct (planning_with_text _ _ _ _ _ _ Eo)
      as [(v' & Hv & ->)|[(Hl & v' & Hf' & _ & ->)|[(Hl & Hf & ->)
         |(i & Hl & ->)]]];
      cbn [fst snd].
    + destruct (plan_outcome_cases E t v' (tr1 ++ [Parse t]))
        as [[_ ->]|[_ ->]]; cbn [fst snd]; unfold dump_raw.
      * eexists. split; [reflexivity|reflexivity].
      * eexists. rewrite <- !app_assoc. split; [reflexivity|discriminate].
    + destruct (plan_outcome_cases E t v'
                  (((tr1 ++ [Parse t]) ++ [Repair t]) ++ [Parse (dumps v')]))
        as [[_ ->]|[_ ->]]; cbn [fst snd]; unfold dump_raw.
      * exists [Parse t; Repair t; Parse (dumps v')].
        rewrite <- !app_assoc. split; reflexivity.
      * eexists. rewrite <- !app_assoc. split; [reflexivity|discriminate].
    + unfold dump_raw. eexists. rewrite <- !app_assoc.
      split; [reflexivity|discriminate].
    + unfold dump_raw. eexists. rewrite <- !app_assoc.
      split; [reflexivity|discriminate].
  - unfold chain1_planning, planning_try. rewrite Eo. unfold dump_raw.
    cbn [fst snd]. eexists. split; [reflexivity|discriminate].
  - unfold chain1_planning, planning_try. rewrite Eo. unfold dump_raw.
    cbn [fst snd]. eexists. split; [reflexivity|discriminate].
Qed.


(** X17.  A run without mock text that succeeds has called the completion
    service exactly twice: first with the planning prompt, last with the
    execution prompt built from the plan that the planning stage returned;
    between the two calls there are parses and at most a repair, no file
    is written, and the guide is not empty. *)
Theorem generate_calls_service_twice (E : env) (mock : option str)
    (user_request : str) (tr tr' : list event) (guide : str) :
  nonempty mock = None ->
  generate E mock user_request tr = (Ok guide, tr') ->
  exists plan pre,
    fst (chain1_planning E mock user_request tr) = Ok plan /\
    tr' = tr ++ Generate (planning_prompt user_request) :: pre ++
                [Generate (execution_prompt user_request plan)] /\
    existsb is_generate pre = false /\ existsb is_write pre = false /\
    guide <> [].
Proof.
  intros Hm H. unfold generate in H.
  destruct (chain1_planning E mock user_request tr) as [[plan|e] tr1] eqn:Ec;
    [|discriminate].
  exists plan.
  pose proof (obtain_text_service E mock (planning_prompt user_request) tr Hm)
    as Ho.
  destruct (obtain_text E mock (planning_prompt user_request) tr)
    as [[[t|]|e] tr0] eqn:Eo;
    try (unfold chain1_planning, planning_try in Ec; rewrite Eo in Ec;
         discriminate).
  injection Ho as _ ->.
  assert (Hpre : exists pre, tr1 = tr ++ Generate (planning_prompt user_request) :: pre
                 /\ existsb is_generate pre = false
                 /\ existsb is_write pre = false).
  { destruct (planning_with_text _ _ _ _ _ _ Eo)
      as [(v' & Hv & Hc)|[(Hl & v' & Hf' & _ & Hc)|[(Hl & Hf & Hc)
         |(i & Hl & Hc)]]];
      rewrite Hc in Ec; try discriminate.
    - destruct (plan_outcome_cases E t v'
                  ((tr ++ [Generate (planning_prompt user_request)]) ++
                   [Parse t]))
        as [[_ Hp]|[_ Hp]]; rewrite Hp in Ec; [|discriminate].
      injection Ec as _ <-.
      exists [Parse t]. rewrite <- app_assoc. auto.
    - destruct (plan_outcome_cases E t v'
                  ((((tr ++ [Generate (planning_prompt user_request)]) ++
                     [Parse t]) ++ [Repair t]) ++ [Parse (dumps v')]))
        as [[_ Hp]|[_ Hp]]; rewrite Hp in Ec; [|discriminate].
      injection Ec as _ <-.
      exists [Parse t; Repair t; Parse (dumps v')]. rewrite <- !app_assoc. auto. }
  destruct Hpre as (pre & -> & Hg & Hw). exists pre.
  unfold chain2_execution in H.
  rewrite (obtain_text_service E mock _ _ Hm) in H.
  destruct (generate_content E _ (execution_prompt user_request plan))
    as [resp|e]; [|discriminate].
  pose proof (extract_never_empty resp) as Hne.
  destruct (_extract_text_from_response resp) as [[g|]|e];
    try discriminate.
  injection H as <- <-. split; [reflexivity|]. split.
  - rewrite <- app_assoc. reflexivity.
  - split; [assumption|]. split; [assumption|].
    intros ->. apply Hne. reflexivity.
Qed.

Lemma generate_success (E : env) (mock : option str) (user_request : str)
    (tr tr' : list event) (guide : str) :
  generate E mock user_request tr = (Ok guide, tr') ->
  guide <> [] /\ exists evs, tr' = tr ++ evs /\ existsb is_write evs = false.
Proof.
  intros H. unfold generate in H.
  destruct (chain1_planning E mock user_request tr) as [[plan|e] tr1] eqn:Ec;
    [|discriminate].
  destruct (chain1_planning_events E mock user_request tr)
    as (evs1 & He1 & Hw1).
  rewrite Ec in He1, Hw1. cbn [fst snd is_ok] in *.
  specialize (Hw1 eq_refl).
  destruct (obtain_text E mock (planning_prompt user_request) tr)
    as [r0 tr0] eqn:Eo0.
  cbn [snd] in He1.
  assert (H0 : exists evs0, tr0 = tr ++ evs0 /\ existsb is_write evs0 = false).
  { destruct (obtain_text_events _ _ _ _ _ _ Eo0) as [[-> _]|[-> _]].
    - exists []. rewrite app_nil_r. auto.
    - eexists. split; reflexivity. }
  destruct H0 as (evs0 & -> & Hw0). subst tr1.
  unfold chain2_execution in H.
  destruct (obtain_text E mock (execution_prompt user_request plan)
              ((tr ++ evs0) ++ evs1)) as [[[g|]|e] tr2] eqn:Eo2;
    try discriminate.
  injection H as <- <-.
  destruct (obtain_text_events _ _ _ _ _ _ Eo2)
    as [[-> (m & Hm & Hr)]|[-> [_ Hr]]].
  - injection Hr as ->. split; [assumption|].
    exists (evs0 ++ evs1). rewrite app_assoc, existsb_app, Hw0, Hw1. auto.
  - split; [intros ->; apply Hr; reflexivity|].
    exists (evs0 ++ evs1 ++ [Generate (execution_prompt user_request plan)]).
    rewrite !app_assoc. split; [reflexivity|].
    rewrite !existsb_app, Hw0, Hw1. reflexivity.
Qed.



Lemma scan_once_not_start (n : nat) (c : char) (t : str) :
  value_start c = false -> scan_once (S n) (c :: t) = ScanError.
Proof.
  unfold value_start. intros H. apply orb_false_iff in H as [Hd H].
  assert (Hall : forall x, In x (DQUOTE :: py "-{[ntfNI") ->
                           char_eqb c x = false /\ char_eqb x c = false).
  { intros x Hx. rewrite (char_eqb_sym x c).
    destruct (char_eqb c x) eqn:E; [|auto].
    unfold in_chars in H.
    assert (Ht : existsb (char_eqb c) (DQUOTE :: py "-{[ntfNI") = true)
      by (apply existsb_exists; eauto).
    congruence. }
  assert (Hz : char_eqb c (ch "0") = false).
  { destruct (char_eqb c (ch "0")) eqn:E; [|reflexivity].
    apply char_eqb_eq in E. subst c. discriminate. }
  assert (Hq : char_eqb c DQUOTE = false) by (apply Hall; vm_compute; tauto).
  assert (Hm : char_eqb c (ch "-") = false) by (apply Hall; vm_compute; tauto).
  assert (Hb : char_eqb c (ch "{") = false) by (apply Hall; vm_compute; tauto).
  assert (Hk : char_eqb c (ch "[") = false) by (apply Hall; vm_compute; tauto).
  assert (H1 : char_eqb (ch "n") c = false) by (apply Hall; vm_compute; tauto).
  assert (H2 : char_eqb (ch "t") c = false) by (apply Hall; vm_compute; tauto).
  assert (H3 : char_eqb (ch "f") c = false) by (apply Hall; vm_compute; tauto).
  assert (H4 : char_eqb (ch "N") c = false) by (apply Hall; vm_compute; tauto).
  assert (H5 : char_eqb (ch "I") c = false) by (apply Hall; vm_compute; tauto).
  assert (H6 : char_eqb (ch "-") c = false) by (apply Hall; vm_compute; tauto).
  assert (Hn : match_number (c :: t) = None).
  { unfold match_number, match_integer. rewrite Hm, Hz, Hd. reflexivity. }
  cbn [scan_once]. rewrite Hq, Hb, Hk, Hn.
  cbn [startswith py map list_ascii_of_string].
  change (N_of_ascii "n") with (ch "n"). change (N_of_ascii "t") with (ch "t").
  change (N_of_ascii "f") with (ch "f"). change (N_of_ascii "N") with (ch "N").
  change (N_of_ascii "I") with (ch "I"). change (N_of_ascii "-") with (ch "-").
  rewrite H1, H2, H3, H4, H5, H6. reflexivity.
Qed.

Lemma space_not_start (c : char) : isspace c = true -> value_start c = false.
Proof.
  intros H. destruct (value_start c) eqn:E; [|reflexivity].
  apply value_start_not_j in E as [E _]. congruence.
Qed.

Lemma loads_fence (W0 R : str) :
  forallb isspace W0 = true ->
  loads (W0 ++ ch "`" :: R) = Raise JSONDecodeError.
Proof.
  intros H. unfold loads. destruct (startswith _ _); [reflexivity|].
  unfold skip_ws. rewrite lstrip_by_app_solid by reflexivity.
  pose proof (lstrip_by_suffix json_ws isspace W0 H) as Hs.
  unfold fuel_for. rewrite Nat.add_comm. cbn [Nat.add].
  destruct (lstrip_by json_ws W0) as [|c t].
  - cbn [app]. rewrite scan_once_not_start by reflexivity. reflexivity.
  - simpl in Hs. apply andb_true_iff in Hs as [Hc _].
    rewrite <- app_comm_cons.
    rewrite scan_once_not_start by (apply space_not_start; assumption).
    reflexivity.
Qed.

Lemma splitlines_from_lines (n : nat) :
  forall s cur, length s = n -> no_linebreak cur = true ->
  Forall (fun l => no_linebreak l = true) (splitlines_from cur s).
Proof.
  induction n as [n IH] using lt_wf_ind. intros s cur Hn Hcur.
  assert (Hrev : no_linebreak (rev cur) = true).
  { unfold no_linebreak in *. rewrite forallb_forall in *.
    intros x Hx. apply Hcur. apply in_rev. assumption. }
  destruct s as [|c t]; cbn [splitlines_from].
  - destruct cur; constructor; [assumption|constructor].
  - simpl in Hn. destruct (is_linebreak c) eqn:Ec.
    + destruct t as [|c' t'].
      * constructor; [assumption|constructor].
      * simpl in Hn.
        destruct (char_eqb c CR && char_eqb c' LF);
          (constructor; [assumption|]).
        -- apply (IH (length t')); [lia|reflexivity|reflexivity].
        -- apply (IH (length (c' :: t'))); [simpl; lia|reflexivity|reflexivity].
    + apply (IH (length t)); [lia|reflexivity|].
      unfold no_linebreak in *. simpl. rewrite Ec. assumption.
Qed.

Lemma lstrip_by_head (p : char -> bool) (s : str) (c : char) (t : str) :
  lstrip_by p s = c :: t -> p c = false.
Proof.
  induction s as [|x s IH]; simpl; [discriminate|].
  destruct (p x) eqn:E; [assumption|]. intros H. injection H as <- _.
  assumption.
Qed.

Lemma lstrip_by_split (p : char -> bool) (s : str) :
  exists d, s = d ++ lstrip_by p s.
Proof.
  induction s as [|x s [d IH]]; simpl; [exists []; reflexivity|].
  destruct (p x).
  - exists (x :: d). simpl. congruence.
  - exists []. reflexivity.
Qed.

Lemma rstrip_by_split (p : char -> bool) (s : str) :
  exists d, s = rstrip_by p s ++ d.
Proof.
  unfold rstrip_by. destruct (lstrip_by_split p (rev s)) as [d Hd].
  exists (rev d). rewrite <- rev_app_distr, <- Hd, rev_involutive.
  reflexivity.
Qed.

Lemma last_cons (c d : char) (t : str) : last (c :: t) d = last t c.
Proof.
  revert c d. induction t as [|x t IH]; intros c d; [reflexivity|].
  change (last (c :: x :: t) d) with (last (x :: t) d).
  rewrite (IH x d), (IH x c). reflexivity.
Qed.

Lemma strip_by_ends (p : char -> bool) (s : str) :
  ends_outside p (strip_by p s) = true.
Proof.
  unfold strip_by, ends_outside.
  destruct (rstrip_by p (lstrip_by p s)) as [|c t] eqn:E; [reflexivity|].
  apply andb_true_iff. split; apply negb_true_iff.
  - destruct (rstrip_by_split p (lstrip_by p s)) as [d Hd].
    rewrite E in Hd. simpl in Hd.
    apply (lstrip_by_head p s c (t ++ d)). assumption.
  - unfold rstrip_by in E.
    destruct (lstrip_by p (rev (lstrip_by p s))) as [|h u] eqn:Eh;
      [discriminate|].
    apply lstrip_by_head in Eh. simpl in E.
    assert (Hl : last (c :: t) c = h) by (rewrite <- E; apply last_last).
    rewrite last_cons in Hl. congruence.
Qed.

Lemma strip_by_no_linebreak (p : char -> bool) (s : str) :
  no_linebreak s = true -> no_linebreak (strip_by p s) = true.
Proof.
  unfold no_linebreak. rewrite !forallb_forall. intros H x Hx. apply H.
  unfold strip_by in Hx.
  apply (lstrip_by_incl p), (rstrip_by_incl p). assumption.
Qed.

(** X21.  Every step of the line-salvage fallback is one trimmed line: it
    is longer than ten characters, holds no line break, and neither
    begins nor ends with a double quote or a comma. *)
Theorem salvaged_steps_are_lines (s ln : str) :
  In ln (salvage_lines s) ->
  10 < length ln /\ no_linebreak ln = true /\
  ends_outside (fun c => in_chars c [DQUOTE; ch ","]) ln = true.
Proof.
  unfold salvage_lines. intros H. apply filter_In in H as [H Hlen].
  apply Nat.ltb_lt in Hlen. split; [assumption|].
  unfold candidate_lines in H. apply in_map_iff in H as (l & <- & Hl).
  apply filter_In in Hl as [Hl _].
  split.
  - apply strip_by_no_linebreak. apply strip_by_no_linebreak.
    unfold splitlines in Hl.
    match type of Hl with In _ (splitlines_from [] ?x) =>
      pose proof (splitlines_from_lines _ x [] eq_refl eq_refl) as Hall
    end.
    rewrite Forall_forall in Hall. apply Hall. exact Hl.
  - apply strip_by_ends.
Qed.

Lemma plain_quiet (c : char) : plain c = true -> quiet c = true.
Proof.
  unfold plain, quiet. intros H. apply andb_true_iff in H as [_ H].
  apply negb_true_iff in H. apply negb_true_iff.
  cbn [in_chars existsb] in *. apply orb_false_iff in H as [_ H]. exact H.
Qed.

Lemma plain_not_quote (c : char) : plain c = true -> char_eqb DQUOTE c = false.
Proof.
  unfold plain. intros H. apply andb_true_iff in H as [_ H].
  apply negb_true_iff in H. cbn [in_chars existsb] in H.
  apply orb_false_iff in H as [H _]. rewrite char_eqb_sym. exact H.
Qed.

Lemma escape_plain_char (c : char) : plain c = true -> escape_char c = [c].
Proof.
  unfold plain. intros H. apply andb_true_iff in H as [H1 H2].
  apply N.leb_le in H1. apply negb_true_iff in H2.
  cbn [in_chars existsb] in H2.
  apply orb_false_iff in H2 as [Hq H2]. apply orb_false_iff in H2 as [Hb _].
  unfold escape_char. rewrite Hq, Hb.
  assert (Hc : forall x, (x < 32)%N -> char_eqb c x = false).
  { intros x Hx. apply N.eqb_neq. intros ->. lia. }
  rewrite !Hc by reflexivity.
  destruct (N.ltb_spec c 32); [lia|reflexivity].
Qed.

Lemma escape_plain (s : str) :
  plain_text s = true -> flat_map escape_char s = s.
Proof.
  induction s as [|c s IH]; simpl; [reflexivity|]. intros H.
  apply andb_true_iff in H as [Hc H].
  rewrite (escape_plain_char c Hc), (IH H). reflexivity.
Qed.

Lemma join_snoc_concat (sep : str) (l : list str) (x : str) :
  join sep (l ++ [x]) = concat (map (fun y => y ++ sep) l) ++ x.
Proof.
  induction l as [|y l IH]; [reflexivity|].
  simpl app. simpl map. simpl concat.
  destruct (l ++ [x]) as [|z l'] eqn:E; [destruct l; discriminate|].
  rewrite join_cons2, IH, <- !app_assoc. reflexivity.
Qed.

Lemma firstn_drop_end (A B : str) :
  firstn (length (A ++ B) - length B) (A ++ B) = A.
Proof.
  rewrite length_app. replace (length A + length B - length B) with (length A + 0)
    by lia.
  rewrite firstn_app_2. simpl. apply app_nil_r.
Qed.

Lemma number_end_close (W rest : str) :
  forallb json_ws W = true -> number_end (W ++ ch "}" :: rest) = true.
Proof.
  destruct W as [|c W]; [reflexivity|]. simpl. intros H.
  apply andb_true_iff in H as [H _].
  unfold json_ws in H.
  repeat (apply orb_true_iff in H as [H|H]);
    apply N.eqb_eq in H; subst c; reflexivity.
Qed.

Lemma skip_ws_nil_app (r X : str) :
  skip_ws r = [] -> skip_ws (r ++ X) = skip_ws X.
Proof.
  unfold skip_ws. induction r as [|c r IH]; [reflexivity|]. simpl.
  destruct (json_ws c); [exact IH|discriminate].
Qed.

Lemma brace_scan_no_close (s : str) (d : Z) (i : nat) :
  count_char (ch "}") s = 0 -> brace_scan d i s = None.
Proof.
  revert d i. induction s as [|c s IH]; intros d i H; [reflexivity|].
  unfold count_char in H. cbn [filter] in H.
  destruct (char_eqb (ch "}") c) eqn:E; [discriminate|].
  cbn [brace_scan]. rewrite (char_eqb_sym c (ch "}")), E.
  destruct (char_eqb c (ch "{")); apply IH; assumption.
Qed.

Lemma count_char_none (c : char) (s : str) :
  forallb (fun x => negb (char_eqb c x)) s = true -> count_char c s = 0.
Proof.
  unfold count_char. induction s as [|x s IH]; simpl; [reflexivity|].
  intros H. apply andb_true_iff in H as [Hx H]. apply negb_true_iff in Hx.
  rewrite Hx. auto.
Qed.

Lemma count_unescaped_no_backslash (s before : str) :
  forallb (fun c => negb (char_eqb BACKSLASH c)) s = true ->
  match before with c :: _ => char_eqb BACKSLASH c = false | [] => True end ->
  count_unescaped_quotes before s = count_char DQUOTE s.
Proof.
  revert before. induction s as [|c s IH]; intros before H Hb; [reflexivity|].
  simpl in H. apply andb_true_iff in H as [Hc H]. apply negb_true_iff in Hc.
  cbn [count_unescaped_quotes]. rewrite (IH (c :: before) H Hc).
  assert (Hs : fst (span (char_eqb BACKSLASH) before) = []).
  { destruct before as [|x before]; [reflexivity|]. cbn [span].
    rewrite Hb. reflexivity. }
  rewrite Hs. unfold count_char. cbn [filter length Nat.even andb].
  rewrite andb_true_r, (char_eqb_sym c DQUOTE).
  destruct (char_eqb DQUOTE c); reflexivity.
Qed.

Lemma object_pairs_encode_close (d : list (str * value)) :
  forallb (fun kv => well_formed (snd kv)) d = true -> d <> [] ->
  forall lvl W rest fuel,
    forallb json_ws W = true -> pairs_size d <= fuel ->
    object_pairs fuel
      (join (item_sep lvl) (map (pair_text lvl) d) ++
       W ++ ch "}" :: rest) = Scanned d rest.
Proof.
  induction d as [|[k v] d IH]; [congruence|].
  intros Hwf _ lvl W rest fuel HW Hfuel.
  simpl in Hwf. apply andb_true_iff in Hwf as [Hwx Hwd].
  rewrite pairs_size_cons in Hfuel. simpl snd in *.
  destruct fuel as [|n]; [lia|].
  assert (Hstep : forall Y, number_end Y = true ->
    object_pairs (S n) (pair_text lvl (k, v) ++ Y) =
    match skip_ws Y with
    | c3 :: r3 =>
        if char_eqb c3 (ch "}") then Scanned [(k, v)] r3
        else if char_eqb c3 (ch ",") then
          match object_pairs n (skip_ws r3) with
          | Scanned ps r4 => Scanned ((k, v) :: ps) r4
          | ScanError => ScanError
          | ScanRaise e => ScanRaise e
          | OutOfFuel => OutOfFuel
          end
        else ScanError
    | [] => ScanError
    end).
  { intros Y HY. rewrite pair_text_app. cbn [object_pairs].
    change (char_eqb DQUOTE DQUOTE) with true. cbv iota.
    rewrite scanstring_encode. rewrite skip_ws_start by reflexivity.
    change (char_eqb (ch ":") (ch ":")) with true. cbv iota.
    change (skip_ws (ch " " :: encode lvl v ++ Y))
      with (skip_ws (encode lvl v ++ Y)).
    rewrite skip_ws_encode.
    rewrite (scan_once_encode v Hwx lvl Y n) by (auto; lia).
    reflexivity. }
  destruct d as [|kv d].
  - simpl map. simpl join. rewrite Hstep by (apply number_end_close; assumption).
    rewrite skip_ws_app, skip_ws_start by (assumption || reflexivity).
    change (char_eqb (ch "}") (ch "}")) with true. reflexivity.
  - simpl map. rewrite join_cons2. repeat rewrite <- app_assoc.
    rewrite Hstep by reflexivity.
    rewrite item_sep_app, skip_ws_start by reflexivity.
    change (char_eqb (ch ",") (ch "}")) with false.
    change (char_eqb (ch ",") (ch ",")) with true. cbv iota.
    rewrite skip_ws_newline_indent.
    change (pair_text lvl kv :: map (pair_text lvl) d)
      with (map (pair_text lvl) (kv :: d)).
    rewrite skip_ws_pairs by congruence.
    rewrite (IH Hwd) by (try congruence; try assumption; lia). reflexivity.
Qed.

(** An object serialized with its closing brace right after the last
    value parses like the indented one. *)
Lemma loads_closed_early (d : list (str * value)) :
  well_formed (PyDict d) = true -> d <> [] ->
  loads (ch "{" :: newline_indent 1 ++
         join (item_sep 1) (map (pair_text 1) d) ++ [ch "}"]) = Ok (PyDict d).
Proof.
  intros Hwf Hne. unfold loads.
  change (startswith [65279%N] (ch "{" :: _)) with false. cbv iota.
  rewrite skip_ws_start by reflexivity.
  set (J := join (item_sep 1) (map (pair_text 1) d)).
  assert (Hfuel : exists n, fuel_for (ch "{" :: newline_indent 1 ++ J ++ [ch "}"])
                            = S n /\ pairs_size d <= n).
  { unfold fuel_for. eexists. rewrite Nat.add_comm. cbn [Nat.add].
    split; [reflexivity|].
    pose proof (value_size_le_length (PyDict d) 0) as Hs.
    destruct d as [|kv d]; [congruence|].
    change (value_size (PyDict (kv :: d))) with (S (pairs_size (kv :: d))) in Hs.
    change (encode 0 (PyDict (kv :: d))) with
      (ch "{" :: (newline_indent 1 ++
       join (item_sep 1) (map (pair_text 1) (kv :: d)) ++
       newline_indent 0 ++ [ch "}"])) in Hs.
    fold J in Hs. cbn [length] in *. rewrite !length_app in *.
    cbn [length] in *. change (length (newline_indent 0)) with 1 in Hs.
    clearbody J. lia. }
  destruct Hfuel as (n & -> & Hn). cbn [scan_once].
  change (char_eqb (ch "{") DQUOTE) with false.
  change (char_eqb (ch "{") (ch "{")) with true. cbv iota.
  rewrite skip_ws_newline_indent.
  simpl in Hwf. apply andb_true_iff in Hwf as [Hkeys Hwf].
  assert (Hhd : exists t, J = DQUOTE :: t).
  { subst J. destruct d as [|[k v] d]; [congruence|].
    destruct d as [|kv' d]; simpl map.
    - simpl join. unfold pair_text, encode_basestring.
      rewrite <- app_comm_cons. eauto.
    - rewrite join_cons2. unfold pair_text at 1, encode_basestring.
      repeat rewrite <- app_comm_cons. eauto. }
  destruct Hhd as (t & E).
  pose proof (object_pairs_encode_close d Hwf Hne 1 [] [] n eq_refl Hn) as Hp.
  fold J in Hp. cbn [app] in Hp. rewrite E in *. rewrite <- app_comm_cons in *.
  rewrite skip_ws_start by reflexivity.
  change (char_eqb DQUOTE (ch "}")) with false. cbv iota.
  rewrite Hp. rewrite dict_of_pairs_distinct by exact Hkeys. reflexivity.
Qed.

(** A text that parses, followed by more than white space, does not. *)
Lemma loads_object_extended (t X : str) (v : value) :
  loads (ch "{" :: t) = Ok v -> skip_ws X <> [] ->
  loads ((ch "{" :: t) ++ X) = Raise JSONDecodeError.
Proof.
  unfold loads. rewrite <- app_comm_cons.
  change (startswith [65279%N] (ch "{" :: t)) with false.
  change (startswith [65279%N] (ch "{" :: t ++ X)) with false. cbv iota.
  rewrite !skip_ws_start by reflexivity.
  destruct (scan_once (fuel_for (ch "{" :: t)) (ch "{" :: t)) as [v' r| |e0|] eqn:Es;
    try discriminate.
  assert (Hset : settled v' r).
  { unfold fuel_for in Es. rewrite Nat.add_comm in Es. cbn [Nat.add scan_once] in Es.
    change (char_eqb (ch "{") DQUOTE) with false in Es.
    change (char_eqb (ch "{") (ch "{")) with true in Es. cbv iota in Es.
    destruct (skip_ws t) as [|c' r0]; [discriminate|].
    destruct (char_eqb c' (ch "}")).
    - apply scanned_inj in Es as [<- _]. exact I.
    - destruct (object_pairs _ _); try discriminate.
      apply scanned_inj in Es as [<- _]. exact I. }
  pose proof (proj1 (scanner_extends _) _ _ _ Es Hset
                (fuel_for (ch "{" :: t ++ X)) X) as He.
  rewrite <- app_comm_cons in He. rewrite He.
  - destruct (skip_ws r) eqn:Er; [|discriminate].
    intros _ HX. rewrite (skip_ws_nil_app r X Er).
    destruct (skip_ws X); [congruence|reflexivity].
  - unfold fuel_for. simpl length. rewrite length_app. lia.
Qed.

(** A proper prefix of a text that parses, cut before more than white
    space, does not parse. *)
Lemma loads_cut_fails (t X : str) (v : value) :
  loads ((ch "{" :: t) ++ X) = Ok v -> skip_ws X <> [] ->
  try_parse (ch "{" :: t) = None.
Proof.
  intros Hv HX. unfold try_parse.
  destruct (loads (ch "{" :: t)) as [v'|e] eqn:E; [|reflexivity].
  rewrite (loads_object_extended t X v' E HX) in Hv. discriminate.
Qed.

Lemma quiet_parts (c : char) :
  quiet c = true ->
  char_eqb BACKSLASH c = false /\ char_eqb (ch "{") c = false /\
  char_eqb (ch "}") c = false /\ not_closer c = true.
Proof.
  unfold quiet, not_closer. intros H. apply negb_true_iff in H.
  cbn [in_chars existsb py map list_ascii_of_string] in H.
  change (N_of_ascii "{") with (ch "{") in H.
  change (N_of_ascii "}") with (ch "}") in H.
  change (N_of_ascii "]") with (ch "]") in H.
  apply orb_false_iff in H as [H1 H]. apply orb_false_iff in H as [H2 H].
  apply orb_false_iff in H as [H3 H]. apply orb_false_iff in H as [H4 _].
  rewrite (char_eqb_sym BACKSLASH c), (char_eqb_sym (ch "{") c),
    (char_eqb_sym (ch "}") c), (char_eqb_sym (ch "]") c), H1, H2, H3, H4.
  auto.
Qed.

Lemma star_no_closer (A : str) (g : option str) (b : bool)
    (k : mstate -> option mstate) :
  (forall b' g' c t, not_closer c = true ->
     k (MState b' (c :: t) g') = None) ->
  forallb not_closer A = true ->
  star_class isspace g b (A ++ [DQUOTE; ch "}"]) k = None.
Proof.
  intros Hk. revert b. induction A as [|x A IH]; intros b H.
  - simpl app. cbn [star_class].
    change (isspace DQUOTE) with false. cbv iota. apply Hk. reflexivity.
  - simpl in H. apply andb_true_iff in H as [Hx H].
    simpl app. cbn [star_class]. rewrite (IH false H).
    rewrite (Hk b g x _ Hx).
    destruct (isspace x); reflexivity.
Qed.

Lemma trailing_comma_none (A : str) (b : bool) :
  forallb not_closer A = true ->
  match_here re_trailing_comma b (A ++ [DQUOTE; ch "}"]) = None.
Proof.
  intros H. unfold match_here, re_trailing_comma. cbn [rmatch].
  unfold eat at 1. cbn [rest group1 at_start].
  destruct A as [|x A].
  - reflexivity.
  - simpl in H. apply andb_true_iff in H as [_ H]. simpl app. cbv iota.
    destruct (char_eqb (ch ",") x); [|reflexivity].
    apply star_no_closer; [|assumption].
    intros b' g' c t Hc. unfold not_closer in Hc.
    apply andb_true_iff in Hc as [H1 H2]. apply negb_true_iff in H1, H2.
    unfold eat. cbn [rest]. rewrite H1, H2. reflexivity.
Qed.

Lemma sub_trailing_comma_clean (A : str) (b : bool) :
  forallb not_closer A = true ->
  sub_from re_trailing_comma repl_group1 b 0 (A ++ [DQUOTE; ch "}"])
  = A ++ [DQUOTE; ch "}"].
Proof.
  revert b. induction A as [|x A IH]; intros b H.
  - reflexivity.
  - pose proof (trailing_comma_none (x :: A) b H) as Hm.
    simpl in H. apply andb_true_iff in H as [_ H].
    simpl app in *. cbn [sub_from]. rewrite Hm, (IH false H). reflexivity.
Qed.

Lemma sub_fence_tail_solid (A : str) (d : char) (b : bool) :
  solid d = true ->
  sub_from re_fence_tail repl_empty b 0 (A ++ [d]) = A ++ [d].
Proof.
  intros Hd. revert b. induction A as [|c A IH]; intros b.
  - simpl app. cbn [sub_from].
    change (match_here re_fence_tail b [d]) with (fence_tail_k (MState b [d] None)).
    rewrite (fence_tail_solid b None [d] d) by (simpl; auto).
    reflexivity.
  - simpl app. cbn [sub_from].
    change (match_here re_fence_tail b (c :: A ++ [d]))
      with (fence_tail_k (MState b (c :: A ++ [d]) None)).
    rewrite (fence_tail_solid b None (c :: A ++ [d]) d);
      [|right; apply in_elt|assumption].
    rewrite IH. reflexivity.
Qed.

Lemma rstrip_solid_end (A : str) (d : char) :
  isspace d = false -> rstrip (A ++ [d]) = A ++ [d].
Proof.
  intros Hd. unfold rstrip. rewrite rstrip_by_app_solid by assumption.
  reflexivity.
Qed.

(** *** The serialization of an object of strings *)

Lemma value_end_split (X v : str) :
  value_end_ok v = true ->
  exists A c, X ++ DQUOTE :: v = A ++ [c] /\ solid c = true.
Proof.
  unfold value_end_ok. destruct v as [|c v] using rev_ind.
  - intros _. exists X, DQUOTE. auto.
  - clear IHv. rewrite rev_app_distr. simpl. intros H.
    exists (X ++ DQUOTE :: v), c. rewrite <- app_assoc. auto.
Qed.

Lemma plain_text_quiet (s : str) :
  plain_text s = true -> forallb quiet s = true.
Proof. apply forallb_impl. exact plain_quiet. Qed.

Lemma plain_text_no_quote (s : str) :
  plain_text s = true -> count_char DQUOTE s = 0.
Proof.
  intros H. apply count_char_none.
  revert H. apply forallb_impl. intros x Hx.
  rewrite (plain_not_quote x Hx). reflexivity.
Qed.

Lemma count_char_cons (c x : char) (s : str) :
  count_char c (x :: s) = (if char_eqb c x then 1 else 0) + count_char c s.
Proof. unfold count_char. cbn [filter]. destruct (char_eqb c x); reflexivity. Qed.

Lemma pairs_text_quiet (d0 : list (str * str)) :
  plain_pairs d0 = true -> forallb quiet (pairs_text d0) = true.
Proof.
  unfold pairs_text, plain_pairs.
  induction d0 as [|[k v] d0 IH]; [reflexivity|]. intros H.
  simpl in H. apply andb_true_iff in H as [Hkv H].
  apply andb_true_iff in Hkv as [Hk Hv].
  cbn [map concat fst snd]. rewrite forallb_app, (IH H), andb_true_r.
  repeat first [rewrite forallb_app | progress cbn [forallb app]].
  rewrite (plain_text_quiet k Hk), (plain_text_quiet v Hv). reflexivity.
Qed.

Lemma pairs_text_quotes (d0 : list (str * str)) :
  plain_pairs d0 = true ->
  Nat.even (count_char DQUOTE (pairs_text d0)) = true.
Proof.
  unfold pairs_text, plain_pairs.
  induction d0 as [|[k v] d0 IH]; [reflexivity|]. intros H.
  simpl in H. apply andb_true_iff in H as [Hkv H].
  apply andb_true_iff in Hkv as [Hk Hv].
  cbn [map concat fst snd]. rewrite count_char_app.
  rewrite Nat.even_add, (IH H).
  repeat first [rewrite count_char_app | rewrite count_char_cons
               | progress cbn [app py map list_ascii_of_string]].
  rewrite (plain_text_no_quote k Hk), (plain_text_no_quote v Hv).
  reflexivity.
Qed.

Lemma pair_text_plain (k v : str) :
  plain_text k = true -> plain_text v = true ->
  pair_text 1 (k, PyStr v) =
  DQUOTE :: k ++ DQUOTE :: py ": " ++ DQUOTE :: v ++ [DQUOTE].
Proof.
  intros Hk Hv. unfold pair_text, encode_basestring. cbn [fst snd encode].
  unfold encode_basestring. rewrite (escape_plain k Hk), (escape_plain v Hv).
  rewrite <- app_comm_cons, <- app_assoc. reflexivity.
Qed.

Lemma pairs_text_join (d0 : list (str * str)) :
  plain_pairs d0 = true ->
  concat (map (fun y => y ++ item_sep 1)
            (map (pair_text 1)
               (map (fun kv => (fst kv, PyStr (snd kv))) d0)))
  = pairs_text d0.
Proof.
  unfold pairs_text, plain_pairs.
  induction d0 as [|[k v] d0 IH]; [reflexivity|]. intros H.
  simpl in H. apply andb_true_iff in H as [Hkv H].
  apply andb_true_iff in Hkv as [Hk Hv].
  cbn [map concat fst snd]. rewrite (IH H), (pair_text_plain k v Hk Hv).
  reflexivity.
Qed.

(** The pairs of the object, joined, are the cut text and a quote. *)
Lemma flat_join (d0 : list (str * str)) (k v : str) :
  plain_pairs (d0 ++ [(k, v)]) = true ->
  ch "{" :: newline_indent 1 ++
  join (item_sep 1)
    (map (pair_text 1)
       (map (fun kv => (fst kv, PyStr (snd kv))) (d0 ++ [(k, v)])))
  = cut_text d0 k v ++ [DQUOTE].
Proof.
  intros H. unfold plain_pairs in H. rewrite forallb_app in H.
  apply andb_true_iff in H as [H0 Hkv]. simpl in Hkv.
  rewrite andb_true_r in Hkv. apply andb_true_iff in Hkv as [Hk Hv].
  rewrite !map_app. cbn [map fst snd].
  rewrite join_snoc_concat, (pairs_text_join d0 H0),
    (pair_text_plain k v Hk Hv).
  unfold cut_text. cbn [app]. rewrite <- !app_assoc. cbn [app].
  do 2 f_equal. rewrite <- !app_assoc. cbn [app]. rewrite <- !app_assoc.
  reflexivity.
Qed.

Lemma dumps_flat (d0 : list (str * str)) (k v : str) :
  plain_pairs (d0 ++ [(k, v)]) = true ->
  dumps (flat_object (d0 ++ [(k, v)])) =
  cut_text d0 k v ++ [DQUOTE; LF; ch "}"].
Proof.
  intros H. pose proof (flat_join d0 k v H) as Hj.
  unfold dumps, flat_object.
  destruct (map (fun kv => (fst kv, PyStr (snd kv))) (d0 ++ [(k, v)]))
    as [|kv d] eqn:E.
  - destruct d0; discriminate.
  - change (encode 0 (PyDict (kv :: d))) with
      (ch "{" :: (newline_indent 1 ++
       join (item_sep 1) (map (pair_text 1) (kv :: d)) ++
       newline_indent 0 ++ [ch "}"])).
    rewrite app_comm_cons, app_assoc. rewrite <- app_comm_cons, Hj.
    rewrite <- app_assoc. reflexivity.
Qed.

Lemma flat_object_well_formed (d : list (str * str)) :
  distinct_keys (map fst d) = true -> well_formed (flat_object d) = true.
Proof.
  intros H. unfold flat_object. cbn [well_formed].
  assert (E : map fst (map (fun kv : str * str => (fst kv, PyStr (snd kv))) d)
              = map fst d)
    by (rewrite map_map; apply map_ext; reflexivity).
  rewrite E, H. cbn [andb]. clear.
  induction d as [|kv d IH]; [reflexivity|]. simpl. exact IH.
Qed.

(** The cut text: what it is made of. *)
Lemma cut_text_facts (d0 : list (str * str)) (k v : str) :
  plain_pairs (d0 ++ [(k, v)]) = true ->
  exists B, cut_text d0 k v = ch "{" :: B /\
            forallb quiet B = true /\
            Nat.even (count_char DQUOTE B) = false.
Proof.
  intros H. unfold plain_pairs in H. rewrite forallb_app in H.
  apply andb_true_iff in H as [H0 Hkv]. simpl in Hkv.
  rewrite andb_true_r in Hkv. apply andb_true_iff in Hkv as [Hk Hv].
  unfold cut_text. eexists. split; [reflexivity|]. split.
  - repeat first [rewrite forallb_app | progress cbn [forallb app]].
    rewrite (pairs_text_quiet d0 H0), (plain_text_quiet k Hk),
      (plain_text_quiet v Hv). reflexivity.
  - pose proof (pairs_text_quotes d0 H0) as He.
    rewrite count_char_app, Nat.even_add.
    change (count_char DQUOTE (newline_indent 1)) with 0.
    rewrite count_char_app, Nat.even_add, He.
    repeat first [rewrite count_char_app | rewrite count_char_cons
                 | progress cbn [app py map list_ascii_of_string]].
    rewrite (plain_text_no_quote k Hk), (plain_text_no_quote v Hv).
    reflexivity.
Qed.

Lemma cut_text_app (d0 : list (str * str)) (k v1 v2 : str) :
  cut_text d0 k (v1 ++ v2) = cut_text d0 k v1 ++ v2.
Proof.
  unfold cut_text. rewrite <- !app_comm_cons.
  repeat first [rewrite <- app_assoc | rewrite <- app_comm_cons].
  reflexivity.
Qed.

Lemma cut_text_end (d0 : list (str * str)) (k v : str) :
  value_end_ok v = true ->
  exists A c, cut_text d0 k v = A ++ [c] /\ solid c = true.
Proof.
  intros H.
  destruct (value_end_split
              (ch "{" :: newline_indent 1 ++ pairs_text d0 ++
               DQUOTE :: k ++ DQUOTE :: py ": ") v H) as (A & c & E & Hc).
  exists A, c. split; [|assumption]. rewrite <- E. unfold cut_text.
  rewrite <- !app_comm_cons.
  repeat first [rewrite <- app_assoc | rewrite <- app_comm_cons].
  reflexivity.
Qed.

Lemma quiet_counts (B : str) :
  forallb quiet B = true ->
  forallb (fun c => negb (char_eqb BACKSLASH c)) B = true /\
  count_char (ch "{") B = 0 /\ count_char (ch "}") B = 0 /\
  forallb not_closer B = true.
Proof.
  intros H. repeat split.
  - revert H. apply forallb_impl. intros x Hx.
    destruct (quiet_parts x Hx) as (-> & _). reflexivity.
  - apply count_char_none. revert H. apply forallb_impl. intros x Hx.
    destruct (quiet_parts x Hx) as (_ & -> & _). reflexivity.
  - apply count_char_none. revert H. apply forallb_impl. intros x Hx.
    destruct (quiet_parts x Hx) as (_ & _ & -> & _). reflexivity.
  - revert H. apply forallb_impl. intros x Hx.
    destruct (quiet_parts x Hx) as (_ & _ & _ & Hn). exact Hn.
Qed.

(** The heuristic repair of a cut text: the quote is closed and one brace
    is added. *)
Lemma repaired_cut_text (A B : str) (c : char) :
  ch "{" :: B = A ++ [c] -> solid c = true ->
  forallb quiet B = true -> Nat.even (count_char DQUOTE B) = false ->
  repaired_candidate (ch "{" :: B) 0 = (ch "{" :: B) ++ [DQUOTE; ch "}"].
Proof.
  intros E Hc Hq Hodd.
  destruct (quiet_counts B Hq) as (Hbs & Ho & Hcl & Hnc).
  destruct (solid_parts c Hc) as [Hsp _].
  unfold repaired_candidate. cbn [skipn]. unfold re_sub.
  rewrite E, (sub_fence_tail_solid A c true Hc), (rstrip_solid_end A c Hsp).
  rewrite <- E.
  assert (Hcount : count_unescaped_quotes [] (ch "{" :: B)
                   = count_char DQUOTE B).
  { rewrite count_unescaped_no_backslash.
    - rewrite count_char_cons. reflexivity.
    - cbn [forallb]. rewrite Hbs. reflexivity.
    - exact I. }
  assert (Hclose : close_open_quotes (ch "{" :: B) = (ch "{" :: B) ++ [DQUOTE]).
  { unfold close_open_quotes. rewrite Hcount, <- Nat.negb_even, Hodd.
    reflexivity. }
  rewrite Hclose.
  assert (Hpad : pad_braces ((ch "{" :: B) ++ [DQUOTE])
                 = ((ch "{" :: B) ++ [DQUOTE]) ++ [ch "}"]).
  { unfold pad_braces. rewrite !count_char_app, !count_char_cons, Ho, Hcl.
    reflexivity. }
  rewrite Hpad, <- app_assoc. cbn [app].
  change (ch "{" :: B ++ [DQUOTE; ch "}"])
    with ((ch "{" :: B) ++ [DQUOTE; ch "}"]).
  apply sub_trailing_comma_clean. cbn [forallb]. rewrite Hnc. reflexivity.
Qed.

Lemma fix_json_by_repair (s0 s out : str) :
  cleaned (Some s0) = s -> try_parse s = None ->
  find_char (ch "{") s = Some 0 -> balanced_candidate s 0 = None ->
  try_parse (repaired_candidate s 0) = Some out ->
  fix_json (Some s0) = Ok (Some out).
Proof.
  intros Hc H1 Hf H2 H3. unfold fix_json, fix_json_body.
  rewrite Hc, H1, Hf, H2, H3. reflexivity.
Qed.

Lemma repair_of_cut_value (d0 : list (str * str)) (k v v1 v2 : str) :
  v = v1 ++ v2 ->
  distinct_keys (map fst (d0 ++ [(k, v1)])) = true ->
  plain_pairs (d0 ++ [(k, v)]) = true ->
  value_end_ok v1 = true ->
  fix_json
    (Some (firstn
             (length (dumps (flat_object (d0 ++ [(k, v)]))) - (3 + length v2))
             (dumps (flat_object (d0 ++ [(k, v)])))))
  = Ok (Some (dumps (flat_object (d0 ++ [(k, v1)])))).
Proof.
  intros Ev Hkeys Hfull Hend.
  assert (Hplain : plain_pairs (d0 ++ [(k, v1)]) = true).
  { unfold plain_pairs in *. rewrite forallb_app in *.
    apply andb_true_iff in Hfull as [H0 Hkv]. rewrite H0.
    cbn [forallb fst snd andb] in *. rewrite andb_true_r in *.
    apply andb_true_iff in Hkv as [Hk Hv]. rewrite Hk.
    unfold plain_text in *. rewrite Ev, forallb_app in Hv.
    apply andb_true_iff in Hv as [Hv _]. rewrite Hv. reflexivity. }
  assert (Hin : firstn
             (length (dumps (flat_object (d0 ++ [(k, v)]))) - (3 + length v2))
             (dumps (flat_object (d0 ++ [(k, v)])))
           = cut_text d0 k v1).
  { rewrite (dumps_flat d0 k v Hfull), Ev, cut_text_app, <- app_assoc.
    replace (3 + length v2) with (length (v2 ++ [DQUOTE; LF; ch "}"]))
      by (rewrite length_app; cbn [length]; lia).
    apply firstn_drop_end. }
  destruct (cut_text_facts d0 k v1 Hplain) as (B & EB & Hq & Hodd).
  destruct (cut_text_end d0 k v1 Hend) as (A & c & EA & Hc).
  pose proof (flat_object_well_formed (d0 ++ [(k, v1)]) Hkeys) as Hwf.
  pose proof (loads_dumps _ Hwf) as Hload.
  rewrite (dumps_flat d0 k v1 Hplain) in Hload.
  rewrite EB in *.
  assert (Hends : ends_solid (ch "{" :: B) = true).
  { cbn [ends_solid]. rewrite <- (last_cons (ch "{") (ch "{") B), EA, last_last.
    rewrite Hc. reflexivity. }
  assert (Hs1 : try_parse (ch "{" :: B) = None).
  { apply (loads_cut_fails B [DQUOTE; LF; ch "}"] _ Hload). discriminate. }
  assert (Hs2 : balanced_candidate (ch "{" :: B) 0 = None).
  { unfold balanced_candidate. cbn [skipn brace_scan].
    change (char_eqb (ch "{") (ch "{")) with true. cbv iota.
    rewrite brace_scan_no_close; [reflexivity|].
    apply (quiet_counts B Hq). }
  assert (Hs3 : try_parse (repaired_candidate (ch "{" :: B) 0)
                = Some (dumps (flat_object (d0 ++ [(k, v1)])))).
  { rewrite (repaired_cut_text A B c EA Hc Hq Hodd).
    apply try_parse_loads.
    replace ((ch "{" :: B) ++ [DQUOTE; ch "}"])
      with (((ch "{" :: B) ++ [DQUOTE]) ++ [ch "}"])
      by (rewrite <- app_assoc; reflexivity).
    rewrite <- EB, <- (flat_join d0 k v1 Hplain).
    rewrite <- app_comm_cons, <- app_assoc.
    apply loads_closed_early.
    - exact Hwf.
    - destruct d0; discriminate. }
  apply (fix_json_by_repair _ (ch "{" :: B)).
  - transitivity (cleaned (Some (ch "{" :: B))).
    + f_equal. f_equal. exact Hin.
    + apply cleaned_ends_solid. exact Hends.
  - exact Hs1.
  - reflexivity.
  - exact Hs2.
  - exact Hs3.
Qed.

(** X22.  The heuristic repair recovers an object cut inside its last
    value: for an object whose values are strings, with texts free of
    control characters, quotes, backslashes, braces and closing brackets,
    the indented serialization cut anywhere inside the last value (or
    just before its closing quote), at a point that is not after white
    space or a backtick, makes [fix_json] return the serialization of the
    object with the last value cut there: the quote is closed and the
    brace added. *)
Theorem cut_value_repaired (d0 : list (str * str)) (k v1 v2 : str) :
  distinct_keys (map fst (with_last d0 k v1)) = true ->
  plain_pairs (with_last d0 k (v1 ++ v2)) = true ->
  value_end_ok v1 = true ->
  fix_json
    (Some (firstn
             (length (dumps (flat_object (with_last d0 k (v1 ++ v2)))) -
              (3 + length v2))
             (dumps (flat_object (with_last d0 k (v1 ++ v2))))))
  = Ok (Some (dumps (flat_object (with_last d0 k v1)))).
Proof.
  unfold with_last. intros Hkeys Hfull Hend.
  exact (repair_of_cut_value d0 k (v1 ++ v2) v1 v2 eq_refl Hkeys Hfull Hend).
Qed.

Lemma strip_ends_solid (s : str) : ends_solid s = true -> strip s = s.
Proof.
  intros H.
  apply ends_solid_inv in H as [(c & -> & Hc)|(c & A & d & -> & Hc & Hd)].
  - destruct (solid_parts c Hc) as [Hc1 _].
    unfold strip, strip_by, rstrip_by. simpl. rewrite Hc1. simpl.
    rewrite Hc1. reflexivity.
  - destruct (solid_parts c Hc) as [Hc1 _].
    destruct (solid_parts d Hd) as [Hd1 _].
    apply (strip_padded [] c A d []); auto.
Qed.

Lemma fence_open_ends_solid (s : str) :
  ends_solid s = true -> re_sub re_fence_open repl_empty s = s.
Proof.
  destruct s as [|c t]; [discriminate|]. simpl. intros H.
  apply andb_true_iff in H as [Hc _].
  apply fence_open_solid. apply (solid_parts c Hc).
Qed.

Lemma fence_close_ends_solid (s : str) :
  ends_solid s = true -> re_sub re_fence_close repl_empty s = s.
Proof.
  intros H. unfold re_sub.
  apply ends_solid_inv in H as [(c & -> & Hc)|(c & A & d & -> & Hc & Hd)].
  - exact (sub_fence_close_prefix [] c [] true Hc).
  - rewrite app_comm_cons.
    exact (sub_fence_close_prefix (c :: A) d [] true Hd).
Qed.

Lemma lstrip_by_prefix (p : char -> bool) (s : str) :
  exists W, s = W ++ lstrip_by p s /\ forallb p W = true.
Proof.
  induction s as [|x s (W & IH & HW)]; simpl; [exists []; auto|].
  destruct (p x) eqn:E.
  - exists (x :: W). simpl. rewrite E, HW. split; [congruence|reflexivity].
  - exists []. auto.
Qed.

Lemma strip_prefix (s : str) :
  exists W R, s = W ++ strip s ++ R /\ forallb isspace W = true.
Proof.
  unfold strip, strip_by.
  destruct (lstrip_by_prefix isspace s) as (W & Hs & HW).
  destruct (rstrip_by_split isspace (lstrip_by isspace s)) as [R HR].
  exists W, R. split; [|assumption]. rewrite <- HR. exact Hs.
Qed.

Lemma cleaned_strip (s : str) :
  ends_solid (strip s) = true -> cleaned (Some s) = strip s.
Proof.
  intros H. unfold cleaned.
  rewrite (fence_open_ends_solid _ H), (fence_close_ends_solid _ H).
  apply strip_ends_solid. assumption.
Qed.

(** On a text with no fence left and no brace at its head, the lines the
    salvage works on are the lines of the text. *)
Lemma candidate_lines_ends_solid (s : str) :
  ends_solid s = true -> startswith (py "{") s = false ->
  candidate_lines s = input_lines s.
Proof.
  intros H Hb. unfold candidate_lines, input_lines.
  rewrite (fence_open_ends_solid _ H), (strip_ends_solid _ H).
  rewrite (fence_close_ends_solid _ H), (strip_ends_solid _ H).
  rewrite Hb. reflexivity.
Qed.

(** *** Texts that cannot be JSON *)

Lemma loads_not_start (W : str) (c : char) (R : str) :
  forallb isspace W = true -> isspace c = false -> value_start c = false ->
  loads (W ++ c :: R) = Raise JSONDecodeError.
Proof.
  intros H Hc Hv. unfold loads. destruct (startswith _ _); [reflexivity|].
  assert (Hj : json_ws c = false).
  { destruct (json_ws c) eqn:E; [|reflexivity].
    unfold json_ws in E.
    repeat (apply orb_true_iff in E as [E|E]);
      apply N.eqb_eq in E; subst c; discriminate. }
  unfold skip_ws. rewrite lstrip_by_app_solid by assumption.
  pose proof (lstrip_by_suffix json_ws isspace W H) as Hs.
  unfold fuel_for. rewrite Nat.add_comm. cbn [Nat.add].
  destruct (lstrip_by json_ws W) as [|x t].
  - cbn [app]. rewrite scan_once_not_start by assumption. reflexivity.
  - simpl in Hs. apply andb_true_iff in Hs as [Hx _].
    rewrite <- app_comm_cons.
    rewrite scan_once_not_start by (apply space_not_start; assumption).
    reflexivity.
Qed.

Lemma loads_opens_no_value (s : str) :
  ends_solid (strip s) = true -> opens_no_value (strip s) = true ->
  loads s = Raise JSONDecodeError /\ loads (strip s) = Raise JSONDecodeError.
Proof.
  intros He Ho. destruct (strip_prefix s) as (W & R & Hs & HW).
  destruct (strip s) as [|c t] eqn:E; [discriminate|].
  simpl in He, Ho. apply andb_true_iff in He as [Hc _].
  destruct (solid_parts c Hc) as [Hsp _]. apply negb_true_iff in Ho.
  split.
  - rewrite Hs, <- app_comm_cons. apply loads_not_start; assumption.
  - apply (loads_not_start [] c t); auto.
Qed.

(** A text that parses begins with a character that opens a value. *)
Lemma loads_value_start (c : char) (R : str) (v : value) :
  loads (c :: R) = Ok v -> isspace c = false -> value_start c = true.
Proof.
  intros H Hc. destruct (value_start c) eqn:E; [reflexivity|].
  pose proof (loads_not_start [] c R eq_refl Hc E) as Hn. cbn [app] in Hn.
  rewrite Hn in H. discriminate.
Qed.

(** *** The line salvage *)

Lemma salvage_lines_ends_solid (s : str) :
  ends_solid s = true -> startswith (py "{") s = false ->
  salvage_lines s = filter long_line (input_lines s).
Proof.
  intros H Hb. unfold salvage_lines.
  rewrite (candidate_lines_ends_solid s H Hb). reflexivity.
Qed.

Lemma no_brace_head (s : str) :
  ~ In (ch "{") s -> startswith (py "{") s = false.
Proof.
  intros Hb. destruct (startswith (py "{") s) eqn:E; [|reflexivity].
  exfalso. apply Hb. destruct s as [|c t]; [discriminate|].
  cbn [startswith py map list_ascii_of_string] in E.
  apply andb_true_iff in E as [E _]. apply char_eqb_eq in E.
  left. symmetry. exact E.
Qed.

Lemma filter_some {A : Type} (p : A -> bool) (l : list A) :
  existsb p l = true -> filter p l <> [].
Proof.
  intros Hx E. apply existsb_exists in Hx as (y & Hy & Hp).
  assert (Hin : In y (filter p l)) by (apply filter_In; auto).
  rewrite E in Hin. destruct Hin.
Qed.

Lemma fix_json_salvage (json_str : option str) :
  is_ok (loads (cleaned json_str)) = false ->
  ~ In (ch "{") (cleaned json_str) ->
  ends_solid (cleaned json_str) = true ->
  existsb long_line (input_lines (cleaned json_str)) = true ->
  fix_json json_str =
    Ok (Some (dumps (fallback_plan
                       (filter long_line (input_lines (cleaned json_str)))))).
Proof.
  intros Hl Hb He Hx. unfold fix_json, fix_json_body, try_parse.
  destruct (loads (cleaned json_str)) as [v|e]; [discriminate|].
  rewrite (find_char_none _ _ Hb).
  rewrite (salvage_lines_ends_solid _ He (no_brace_head _ Hb)).
  pose proof (filter_some _ _ Hx) as Hne.
  destruct (filter long_line (input_lines (cleaned json_str))) as [|x l];
    [congruence|reflexivity].
Qed.

(** *** A text in a fence *)

Lemma fenced_text_cleaned (J tag W0 W1 W2 W3 : str) (c : char) (R : str) :
  J = c :: R -> value_start c = true -> ends_solid J = true ->
  is_json_tag tag = true ->
  forallb isspace W0 = true -> forallb isspace W1 = true ->
  forallb isspace W2 = true -> forallb isspace W3 = true ->
  cleaned (Some (W0 ++ py "```" ++ tag ++ W1 ++ J ++ W2 ++
                 py "```" ++ W3)) = J.
Proof.
  intros Hd Hc He Ht H0 H1 H2 H3.
  unfold cleaned.
  assert (Hs : strip (W0 ++ py "```" ++ tag ++ W1 ++ J ++ W2 ++
                      py "```" ++ W3)
               = py "```" ++ tag ++ W1 ++ J ++ W2 ++ py "```").
  { change (py "```" ++ tag ++ W1 ++ J ++ W2 ++ py "```" ++ W3)
      with (ch "`" :: (py "``" ++ tag ++ W1 ++ J ++ W2 ++
                       py "``" ++ ch "`" :: W3)).
    replace (py "``" ++ tag ++ W1 ++ J ++ W2 ++ py "``" ++ ch "`" :: W3)
      with ((py "``" ++ tag ++ W1 ++ J ++ W2 ++ py "``") ++ ch "`" :: W3)
      by (rewrite <- !app_assoc; reflexivity).
    rewrite strip_padded by (assumption || reflexivity).
    rewrite <- !app_assoc. reflexivity. }
  rewrite Hs. clear Hs.
  destruct (value_start_not_j c Hc) as [Hsp Hj].
  assert (Ho : re_sub re_fence_open repl_empty
                 (py "```" ++ tag ++ W1 ++ J ++ W2 ++ py "```")
               = J ++ W2 ++ py "```").
  { rewrite Hd. rewrite <- app_comm_cons.
    destruct (fence_open_match tag W1 c (R ++ W2 ++ py "```") Ht H1 Hsp Hj)
      as (st & Hm & Hr).
    unfold re_sub.
    replace (py "```" ++ tag ++ W1 ++ c :: R ++ W2 ++ py "```")
      with ((py "```" ++ tag ++ W1) ++ c :: R ++ W2 ++ py "```")
      in * by (rewrite <- !app_assoc; reflexivity).
    rewrite (sub_from_match_prefix _ _ _ _ _ st Hm Hr) by discriminate.
    rewrite sub_from_no_match by apply fence_open_later. reflexivity. }
  rewrite Ho. clear Ho.
  assert (Hcs : re_sub re_fence_close repl_empty (J ++ W2 ++ py "```") = J).
  { unfold re_sub. clear Hd.
    apply ends_solid_inv in He
      as [(x & -> & Hx)|(x & A & d & -> & Hx & Hdd)].
    - pose proof (sub_fence_close_prefix [] x (W2 ++ py "```") true Hx) as Hp.
      cbn [app] in Hp. cbn [app]. rewrite Hp.
      rewrite sub_fence_close_all by assumption. reflexivity.
    - replace ((x :: A ++ [d]) ++ W2 ++ py "```")
        with ((x :: A) ++ d :: W2 ++ py "```")
        by (cbn [app]; rewrite <- app_assoc; reflexivity).
      rewrite (sub_fence_close_prefix (x :: A) d _ true Hdd).
      rewrite sub_fence_close_all by assumption. reflexivity. }
  rewrite Hcs. apply strip_ends_solid. assumption.
Qed.

(** A text that parses and begins with a solid character, in a fence. *)
Lemma fenced_json_cleaned (J tag W0 W1 W2 W3 : str) (v : value) :
  loads J = Ok v -> ends_solid J = true -> is_json_tag tag = true ->
  forallb isspace W0 = true -> forallb isspace W1 = true ->
  forallb isspace W2 = true -> forallb isspace W3 = true ->
  cleaned (Some (W0 ++ py "```" ++ tag ++ W1 ++ J ++ W2 ++
                 py "```" ++ W3)) = J.
Proof.
  intros Hv He. destruct J as [|c R] eqn:EJ; [discriminate|].
  assert (Hc : value_start c = true).
  { apply (loads_value_start c R v Hv). simpl in He.
    apply andb_true_iff in He as [Hc _]. apply (solid_parts c Hc). }
  apply (fenced_text_cleaned (c :: R) tag W0 W1 W2 W3 c R eq_refl Hc He).
Qed.

(** *** Texts the console can print *)

Lemma printable_app (a b : str) :
  printable (a ++ b) = printable a && printable b.
Proof. apply forallb_app. Qed.

Lemma printable_incl (a b : str) :
  (forall c, In c a -> In c b) -> printable b = true -> printable a = true.
Proof.
  unfold printable. rewrite !forallb_forall. intros H Hb c Hc. auto.
Qed.

Lemma space_printable (W : str) :
  forallb isspace W = true -> printable W = true.
Proof.
  apply forallb_impl. intros c Hc.
  destruct (is_surrogate c) eqn:E; [|reflexivity].
  unfold is_surrogate in E. apply andb_true_iff in E as [E1 E2].
  apply N.leb_le in E1, E2. unfold isspace in Hc.
  repeat (apply orb_true_iff in Hc as [Hc|Hc]);
    repeat (apply andb_true_iff in Hc as [Hc ?]);
    repeat match goal with
    | G : (_ <=? _)%N = true |- _ => apply N.leb_le in G
    | G : (_ =? _)%N = true |- _ => apply N.eqb_eq in G
    end; lia.
Qed.

Lemma solid_number_printable (c : char) :
  number_char c = true -> negb (is_surrogate c) = true.
Proof.
  unfold number_char. intros H. apply orb_true_iff in H as [H|H].
  - apply digit_cases in H.
    repeat (destruct H as [->|H]; [reflexivity|]). subst c. reflexivity.
  - simpl in H. repeat (apply orb_true_iff in H as [H|H]);
      try discriminate; apply char_eqb_eq in H; subst c; reflexivity.
Qed.

Lemma hex_char_printable (n : N) :
  (n < 16)%N -> is_surrogate (hex_char n) = false.
Proof.
  intros H. unfold hex_char, is_surrogate.
  destruct (n <? 10)%N; apply andb_false_iff; left; apply N.leb_gt; lia.
Qed.

Lemma escape_char_printable (c : char) :
  is_surrogate c = false -> printable (escape_char c) = true.
Proof.
  intros Hc. unfold escape_char.
  repeat match goal with
  | |- context [if char_eqb c ?k then _ else _] =>
      destruct (char_eqb c k); [reflexivity|]
  end.
  destruct (c <? 32)%N eqn:E.
  - apply N.ltb_lt in E. rewrite printable_app.
    change (printable (py "\u00")) with true. cbn [andb].
    unfold printable. cbn [forallb].
    assert (H1 : (c / 16 < 16)%N).
    { apply N.Div0.div_lt_upper_bound. lia. }
    assert (H2 : (c mod 16 < 16)%N) by (apply N.mod_lt; lia).
    rewrite (hex_char_printable _ H1), (hex_char_printable _ H2). reflexivity.
  - unfold printable. cbn [forallb]. rewrite Hc. reflexivity.
Qed.

Lemma encode_basestring_printable (s : str) :
  printable s = true -> printable (encode_basestring s) = true.
Proof.
  intros H. unfold encode_basestring.
  change (DQUOTE :: flat_map escape_char s ++ [DQUOTE])
    with ([DQUOTE] ++ flat_map escape_char s ++ [DQUOTE]).
  rewrite !printable_app. simpl. rewrite andb_true_r.
  induction s as [|c s IH]; [reflexivity|].
  simpl in H. apply andb_true_iff in H as [Hc H].
  simpl flat_map. rewrite printable_app, (IH H), andb_true_r.
  apply escape_char_printable. apply negb_true_iff. assumption.
Qed.

Lemma newline_indent_printable (lvl : nat) :
  printable (newline_indent lvl) = true.
Proof.
  unfold newline_indent. induction lvl as [|n IH]; [reflexivity|].
  simpl in *. exact IH.
Qed.

Lemma join_printable (sep : str) (parts : list str) :
  printable sep = true -> forallb printable parts = true ->
  printable (join sep parts) = true.
Proof.
  intros Hs. induction parts as [|p ps IH]; [reflexivity|].
  intros H. simpl in H. apply andb_true_iff in H as [Hp H].
  destruct ps as [|q ps]; [exact Hp|].
  change (join sep (p :: q :: ps)) with (p ++ sep ++ join sep (q :: ps)).
  rewrite !printable_app, Hp, Hs, (IH H). reflexivity.
Qed.

Lemma splitlines_from_incl (s : str) :
  forall cur l c, In l (splitlines_from cur s) -> In c l ->
                  In c cur \/ In c s.
Proof.
  induction s as [s IH] using (induction_ltof1 _ (@length char)).
  unfold ltof in IH. intros cur l c Hl Hc.
  destruct s as [|x t]; cbn [splitlines_from] in Hl.
  - destruct cur as [|y cur]; [destruct Hl|].
    destruct Hl as [<-|[]]. left. apply in_rev. assumption.
  - destruct (is_linebreak x).
    + destruct t as [|x' t'].
      * destruct Hl as [<-|[]]. left. apply in_rev. assumption.
      * destruct (char_eqb x CR && char_eqb x' LF);
          (destruct Hl as [<-|Hl]; [left; apply in_rev; assumption|]).
        -- destruct (IH t' ltac:(simpl; lia) [] l c Hl Hc) as [[]|H].
           right. right. right. assumption.
        -- destruct (IH (x' :: t') ltac:(simpl; lia) [] l c Hl Hc) as [[]|H].
           right. right. assumption.
    + destruct (IH t ltac:(simpl; lia) (x :: cur) l c Hl Hc) as [[<-|H]|H].
      * right. left. reflexivity.
      * left. assumption.
      * right. right. assumption.
Qed.

Lemma input_lines_incl (s ln : str) (c : char) :
  In ln (input_lines s) -> In c ln -> In c s.
Proof.
  unfold input_lines. intros H Hc. apply in_map_iff in H as (l & <- & Hl).
  apply filter_In in Hl as [Hl _]. unfold strip_chars, strip, strip_by in Hc.
  apply rstrip_by_incl, lstrip_by_incl, rstrip_by_incl, lstrip_by_incl in Hc.
  destruct (splitlines_from_incl s [] l c Hl Hc) as [[]|H]. exact H.
Qed.

Lemma input_lines_printable (s : str) :
  printable s = true -> forallb printable (input_lines s) = true.
Proof.
  intros H. apply forallb_forall. intros ln Hln.
  apply (printable_incl ln s); [|assumption].
  intros c Hc. exact (input_lines_incl s ln c Hln Hc).
Qed.

Lemma encoded_steps_printable (lvl : nat) (steps : list str) :
  forallb printable steps = true ->
  forallb printable (map (encode lvl) (map PyStr steps)) = true.
Proof.
  induction steps as [|x l IH]; [reflexivity|]. intros H.
  cbn [forallb] in H. apply andb_true_iff in H as [Hx H].
  cbn [map forallb encode].
  rewrite (encode_basestring_printable x Hx), (IH H). reflexivity.
Qed.

Lemma steps_printable (lvl : nat) (steps : list str) :
  forallb printable steps = true ->
  printable (encode lvl (PyList (map PyStr steps))) = true.
Proof.
  intros H. pose proof (encoded_steps_printable (S lvl) steps H) as Ha.
  destruct steps as [|x l]; [reflexivity|].
  cbn [map]. cbn [encode].
  change (PyStr x :: map PyStr l) with (map PyStr (x :: l)).
  set (L := map (encode (S lvl)) (map PyStr (x :: l))) in *.
  change (ch "[" :: newline_indent (S lvl) ++
          join (ch "," :: newline_indent (S lvl)) L ++
          newline_indent lvl ++ [ch "]"])
    with ([ch "["] ++ newline_indent (S lvl) ++
          join ([ch ","] ++ newline_indent (S lvl)) L ++
          newline_indent lvl ++ [ch "]"]).
  rewrite !printable_app, !newline_indent_printable.
  rewrite join_printable; [reflexivity| |exact Ha].
  rewrite printable_app, newline_indent_printable. reflexivity.
Qed.

(** The fallback object of printable lines can be printed. *)
Lemma fallback_plan_printable (steps : list str) :
  forallb printable steps = true ->
  printable (dumps (fallback_plan steps)) = true.
Proof.
  intros H. unfold dumps, fallback_plan.
  pose proof (steps_printable 1 steps H) as Hs.
  generalize dependent (PyList (map PyStr steps)). intros v Hs.
  cbn [encode map fst snd join].
  change (ch "{" :: ?X) with ([ch "{"] ++ X).
  repeat first [rewrite printable_app | rewrite Hs
               | rewrite newline_indent_printable
               | rewrite encode_basestring_printable by reflexivity ].
  reflexivity.
Qed.

(** *** The first line of a text *)

Lemma linebreak_space (c : char) : is_linebreak c = true -> isspace c = true.
Proof.
  unfold is_linebreak, isspace. intros H.
  repeat (apply orb_true_iff in H as [H|H]);
    repeat (apply andb_true_iff in H as [H ?]);
    repeat match goal with
    | G : (_ <=? _)%N = true |- _ => apply N.leb_le in G
    | G : (_ =? _)%N = true |- _ => apply N.eqb_eq in G
    end;
    repeat (apply orb_true_iff;
            first [ left; apply andb_true_iff; split; apply N.leb_le; lia
                  | left; apply N.eqb_eq; lia
                  | right; apply N.eqb_eq; lia
                  | right; apply andb_true_iff; split; apply N.leb_le; lia
                  | left ]).
Qed.

Lemma splitlines_from_first (s cur : str) :
  cur <> [] -> exists p rest, splitlines_from cur s = (rev cur ++ p) :: rest.
Proof.
  revert cur. induction s as [|x t IH]; intros cur Hc; cbn [splitlines_from].
  - destruct cur; [congruence|]. exists [], []. rewrite app_nil_r. reflexivity.
  - destruct (is_linebreak x).
    + destruct t as [|x' t'].
      * exists [], []. rewrite app_nil_r. reflexivity.
      * destruct (char_eqb x CR && char_eqb x' LF);
          eexists [], _; rewrite app_nil_r; reflexivity.
    + destruct (IH (x :: cur) ltac:(discriminate)) as (p & rest & ->).
      exists (x :: p), rest. simpl rev. rewrite <- app_assoc. reflexivity.
Qed.

Lemma strip_head_solid (c : char) (t : str) :
  isspace c = false -> exists u, strip (c :: t) = c :: u.
Proof.
  intros Hc. unfold strip, strip_by. cbn [lstrip_by]. rewrite Hc.
  pose proof (rstrip_by_app_solid isspace [] c t Hc) as H. cbn [app] in H.
  rewrite H. eauto.
Qed.

Lemma input_lines_nonempty (s : str) :
  ends_solid s = true -> input_lines s <> [].
Proof.
  destruct s as [|c t]; [discriminate|]. simpl. intros H.
  apply andb_true_iff in H as [Hc _]. apply solid_parts in Hc as [Hc _].
  unfold input_lines, splitlines. cbn [splitlines_from].
  assert (Hl : is_linebreak c = false).
  { destruct (is_linebreak c) eqn:E; [|reflexivity].
    apply linebreak_space in E. congruence. }
  rewrite Hl.
  destruct (splitlines_from_first t [c] ltac:(discriminate)) as (p & rest & ->).
  cbn [rev app filter]. destruct (strip_head_solid c p Hc) as [u ->].
  discriminate.
Qed.

Lemma forallb_existsb {A : Type} (p : A -> bool) (l : list A) :
  l <> [] -> forallb p l = true -> existsb p l = true.
Proof.
  destruct l as [|x l]; [congruence|]. simpl. intros _ H.
  apply andb_true_iff in H as [-> _]. reflexivity.
Qed.

Lemma no_guide_write_in (l : list event) (g : str) (d : bool) :
  existsb is_guide_write l = false -> ~ In (WriteFile guide_path g d) l.
Proof.
  intros H Hin.
  assert (Ht : existsb is_guide_write l = true).
  { apply existsb_exists. eexists. split; [exact Hin|]. reflexivity. }
  congruence.
Qed.

Lemma no_write_no_guide_write (l : list event) :
  existsb is_write l = false -> existsb is_guide_write l = false.
Proof.
  induction l as [|e l IH]; [reflexivity|]. simpl. intros H.
  apply orb_false_iff in H as [He H]. rewrite (IH H).
  destruct e; try reflexivity. discriminate.
Qed.

Lemma chain1_no_guide_write (E : env) (mock : option str)
    (user_request : str) (tr : list event) :
  exists evs,
    snd (chain1_planning E mock user_request tr) = tr ++ evs /\
    existsb is_guide_write evs = false.
Proof.
  destruct (obtain_text E mock (planning_prompt user_request) tr)
    as [r tr1] eqn:Eo.
  assert (H0 : exists evs0, tr1 = tr ++ evs0 /\
                            existsb is_guide_write evs0 = false).
  { destruct (obtain_text_events _ _ _ _ _ _ Eo) as [[-> _]|[-> _]].
    - exists []. rewrite app_nil_r. auto.
    - eexists. split; reflexivity. }
  destruct H0 as (evs0 & -> & H0).
  destruct r as [[t|]|e].
  - destruct (planning_with_text _ _ _ _ _ _ Eo)
      as [(v' & Hv & ->)|[(Hl & v' & Hf' & _ & ->)|[(Hl & Hf & ->)
         |(i & Hl & ->)]]];
      try match goal with
      | |- context [plan_outcome ?a ?b ?c ?d] =>
          destruct (plan_outcome_cases a b c d) as [[_ ->]|[_ ->]]
      end;
      cbn [snd]; unfold dump_raw; rewrite <- ?app_assoc;
      eexists; (split; [reflexivity|]);
      rewrite existsb_app, H0; reflexivity.
  - unfold chain1_planning, planning_try. rewrite Eo. unfold dump_raw.
    cbn [snd]. rewrite <- ?app_assoc. eexists. split; [reflexivity|].
    rewrite existsb_app, H0. reflexivity.
  - unfold chain1_planning, planning_try. rewrite Eo. unfold dump_raw.
    cbn [snd]. rewrite <- ?app_assoc. eexists. split; [reflexivity|].
    rewrite existsb_app, H0. reflexivity.
Qed.

Lemma generate_no_guide_write (E : env) (mock : option str)
    (user_request : str) (tr : list event) :
  exists evs,
    snd (generate E mock user_request tr) = tr ++ evs /\
    existsb is_guide_write evs = false.
Proof.
  destruct (chain1_no_guide_write E mock user_request tr) as (evs1 & H1 & G1).
  unfold generate.
  destruct (chain1_planning E mock user_request tr) as [[plan|e] tr1];
    cbn [snd] in *; subst tr1.
  - unfold chain2_execution.
    destruct (obtain_text E mock (execution_prompt user_request plan)
                (tr ++ evs1)) as [[[g|]|e] tr2] eqn:Eo;
      destruct (obtain_text_events _ _ _ _ _ _ Eo) as [[-> _]|[-> _]];
      cbn [snd]; rewrite <- ?app_assoc; eexists;
      (split; [reflexivity|]); rewrite ?existsb_app, G1; reflexivity.
  - exists evs1. auto.
Qed.

(** C5 (amended).  For an input with no brace whose fence-stripped,
    trimmed text is not itself valid JSON and has no fence left (it
    neither begins nor ends with a backtick), and whose lines (of that
    text: the non-empty trimmed lines, quote and comma characters
    stripped) are each longer than 10 characters: [fix_json] returns the
    object with exactly those lines, in order, as steps and with empty
    assumptions and success_criteria, and that text parses back. *)
Theorem line_salvage_of_long_lines (input : str) :
  contains (py "{") input = false ->
  is_ok (loads (cleaned (Some input))) = false ->
  ends_solid (cleaned (Some input)) = true ->
  forallb long_line (input_lines (cleaned (Some input))) = true ->
  fix_json (Some input) =
    Ok (Some (dumps (fallback_plan (input_lines (cleaned (Some input)))))) /\
  loads (dumps (fallback_plan (input_lines (cleaned (Some input))))) =
    Ok (fallback_plan (input_lines (cleaned (Some input)))).
Proof.
  intros Hbrace Hloads He Hlong. split.
  - rewrite <- (filter_all long_line _ Hlong) at 1.
    apply fix_json_salvage; try assumption.
    + intros Hin. apply cleaned_incl in Hin.
      exact (contains_char (ch "{") input Hbrace Hin).
    + apply forallb_existsb; [|assumption].
      apply input_lines_nonempty. assumption.
  - apply loads_dumps, fallback_plan_well_formed.
Qed.


(** X6.  A JSON text inside a Markdown fence is recovered: for every text
    that [json.loads] accepts, that neither begins nor ends with white
    space or a backtick and that opens at most a hundred arrays and
    objects (within the recursion limit of the interpreter), the text made
    of an opening fence (three backticks, alone or followed by [json] in
    any case), that text and a closing fence, with any white space around
    the fences and the text, makes [fix_json] return the serialization of
    the value the text parses to. *)
Theorem fenced_value_recovered (J : str) (v : value)
    (tag W0 W1 W2 W3 : str) :
  loads J = Ok v -> ends_solid J = true -> shallow J = true ->
  is_json_tag tag = true ->
  forallb isspace W0 = true -> forallb isspace W1 = true ->
  forallb isspace W2 = true -> forallb isspace W3 = true ->
  fix_json (Some (W0 ++ py "```" ++ tag ++ W1 ++ J ++ W2 ++
                  py "```" ++ W3)) = Ok (Some (dumps v)).
Proof.
  intros Hv He _ Ht H0 H1 H2 H3. unfold fix_json, fix_json_body.
  rewrite (fenced_json_cleaned J tag W0 W1 W2 W3 v) by assumption.
  rewrite (try_parse_loads _ _ Hv). reflexivity.
Qed.

(** X7.  The lossy fallback makes the repair succeed on any text with a
    long line: when the fence-stripped, trimmed text has no fence left (it
    neither begins nor ends with a backtick), does not begin with a brace,
    and one of its lines (trimmed of white space, then of quotes and
    commas) has more than ten characters, [fix_json] returns a text,
    whatever else the text holds. *)
Theorem fix_json_long_line_succeeds (json_str : option str) :
  ends_solid (cleaned json_str) = true ->
  startswith (py "{") (cleaned json_str) = false ->
  existsb long_line (input_lines (cleaned json_str)) = true ->
  exists out, fix_json json_str = Ok (Some out).
Proof.
  intros He Hb Hx.
  pose proof (salvage_lines_ends_solid _ He Hb) as Hs.
  pose proof (filter_some _ _ Hx) as Hne. rewrite <- Hs in Hne.
  unfold fix_json, fix_json_body.
  destruct (try_parse (cleaned json_str)); [eauto|].
  destruct (find_char (ch "{") (cleaned json_str)) as [start|].
  - destruct (balanced_candidate (cleaned json_str) start) as [c|].
    + destruct (try_parse c); [eauto|].
      destruct (try_parse (repaired_candidate _ _)); [eauto|].
      destruct (salvage_lines (cleaned json_str)); [congruence|eauto].
    + destruct (try_parse (repaired_candidate _ _)); [eauto|].
      destruct (salvage_lines (cleaned json_str)); [congruence|eauto].
  - destruct (salvage_lines (cleaned json_str)); [congruence|eauto].
Qed.

(** X15.  Prose is accepted as a plan: when the text obtained can be
    printed, holds no brace, begins (white space apart) with a character
    that cannot open a JSON value, neither begins nor ends with a
    backtick, and has a line of more than ten characters, the planning
    stage fails to parse it, repairs it and returns the fallback object
    whose steps are the long lines of the text, without writing any
    file. *)
Theorem planning_accepts_long_lines (E : env) (mock : option str)
    (user_request : str) (tr tr1 : list event) (t : str) :
  obtain_text E mock (planning_prompt user_request) tr = (Ok (Some t), tr1) ->
  printable t = true -> contains (py "{") t = false ->
  ends_solid (strip t) = true -> opens_no_value (strip t) = true ->
  existsb long_line (input_lines (strip t)) = true ->
  chain1_planning E mock user_request tr =
    (Ok (fallback_plan (filter long_line (input_lines (strip t)))),
     tr1 ++ [Parse t; Repair t;
             Parse (dumps (fallback_plan
                             (filter long_line (input_lines (strip t)))))]).
Proof.
  intros Ho Hp Hb He Hn Hx.
  destruct (loads_opens_no_value t He Hn) as [Hl Hls].
  pose proof (cleaned_strip t He) as Hc.
  assert (Hf : fix_json (Some t) =
               Ok (Some (dumps (fallback_plan
                                  (filter long_line (input_lines (strip t))))))).
  { rewrite <- Hc. apply fix_json_salvage; rewrite ?Hc; try assumption.
    - rewrite Hls. reflexivity.
    - intros Hin. apply strip_incl in Hin.
      exact (contains_char (ch "{") t Hb Hin). }
  set (plan := fallback_plan (filter long_line (input_lines (strip t)))) in *.
  assert (Hpp : printable (dumps plan) = true).
  { apply fallback_plan_printable. apply forallb_forall. intros ln Hln.
    apply filter_In in Hln as [Hln _].
    apply (printable_incl ln t); [|assumption].
    intros c Hcl. apply (strip_incl t).
    exact (input_lines_incl (strip t) ln c Hln Hcl). }
  assert (Hld : loads (dumps plan) = Ok plan)
    by apply loads_dumps, fallback_plan_well_formed.
  unfold chain1_planning, planning_try. rewrite Ho, Hl, Hf.
  destruct (dumps plan) as [|c d] eqn:Ed; [destruct (dumps_nonempty plan Ed)|].
  cbn [nonempty]. rewrite Hld. unfold show_plan, print. rewrite Ed, Hpp.
  rewrite <- !app_assoc. reflexivity.
Qed.

(** X18.  The guide file is written by a run that went through: when the
    trace of [main] holds a write of the guide file, that write is the last
    event, the guide written is not empty and no file was written before
    it (no debug dump is left); a write that succeeded gives the exit
    status 0, and the exit status 1 means that it failed. *)
Theorem guide_written_last (E : env) (prompt : str) (mock : bool)
    (status : nat) (tr : list event) (guide : str) (done : bool) :
  main E prompt mock = (status, tr) ->
  In (WriteFile guide_path guide done) tr ->
  guide <> [] /\
  (done = true -> status = 0) /\ (status = 1 -> done = false) /\
  exists pre,
    tr = pre ++ [WriteFile guide_path guide done] /\
    existsb is_write pre = false.
Proof.
  unfold main. destruct (nonempty (api_key E)).
  2:{ intros H. injection H as <- <-. intros []. }
  assert (Hl : exists evs, snd (load_mock E mock []) = evs /\
                           existsb is_write evs = false).
  { unfold load_mock. destruct mock; [|eexists; split; reflexivity].
    destruct (read_file E [] dump_path); eexists; split; reflexivity. }
  destruct (load_mock E mock []) as [mock_text tr0].
  destruct Hl as (evs0 & <- & Hw0). cbn [snd] in Hw0.
  destruct (generate_no_guide_write E mock_text prompt tr0) as (evs & Hg & Hnw).
  destruct (generate E mock_text prompt tr0) as [[g|e] tr1] eqn:Eg;
    cbn [snd] in Hg; subst tr1.
  - destruct (generate_success _ _ _ _ _ _ Eg) as (Hne & evs' & Hev & Hw).
    apply app_inv_head in Hev. subst evs'.
    assert (Hpre : existsb is_write (tr0 ++ evs) = false)
      by (rewrite existsb_app, Hw0, Hw; reflexivity).
    assert (Hend : forall b,
              In (WriteFile guide_path guide done)
                 ((tr0 ++ evs) ++ [WriteFile guide_path g b]) ->
              g = guide /\ b = done).
    { intros b Hin. apply in_app_or in Hin as [Hin|[Hin|[]]].
      - exfalso.
        exact (no_guide_write_in _ _ _ (no_write_no_guide_write _ Hpre) Hin).
      - injection Hin as -> ->. auto. }
    destruct (write_file E (tr0 ++ evs) guide_path g);
      intros H Hin; injection H as <- <-;
      destruct (Hend _ Hin) as [-> <-];
      (split; [assumption|]);
      (split; [intros; congruence|]); (split; [intros; congruence|]); eauto.
  - intros H Hin. injection H as <- <-. exfalso.
    apply (no_guide_write_in (tr0 ++ evs) guide done); [|assumption].
    rewrite existsb_app, (no_write_no_guide_write _ Hw0), Hnw. reflexivity.
Qed.

(** X20.  A plan in a Markdown fence is accepted: when the text obtained
    is a JSON text inside a fence (as in X6: accepted by [json.loads],
    with no white space or backtick at its ends, opening at most a hundred
    arrays and objects), holds no lone surrogate and parses to a value
    whose serialization can be printed, its direct parse fails, the repair
    recovers the serialization of the value, and the planning stage
    returns the value, without writing any file. *)
Theorem fenced_plan_accepted (E : env) (mock : option str)
    (user_request : str) (tr tr1 : list event) (J : str) (v : value)
    (tag W0 W1 W2 W3 : str) :
  loads J = Ok v -> ends_solid J = true -> shallow J = true ->
  is_json_tag tag = true ->
  forallb isspace W0 = true -> forallb isspace W1 = true ->
  forallb isspace W2 = true -> forallb isspace W3 = true ->
  printable J = true -> printable (dumps v) = true ->
  obtain_text E mock (planning_prompt user_request) tr =
    (Ok (Some (W0 ++ py "```" ++ tag ++ W1 ++ J ++ W2 ++
               py "```" ++ W3)), tr1) ->
  chain1_planning E mock user_request tr =
    (Ok v,
     tr1 ++ [Parse (W0 ++ py "```" ++ tag ++ W1 ++ J ++ W2 ++
                    py "```" ++ W3);
             Repair (W0 ++ py "```" ++ tag ++ W1 ++ J ++ W2 ++
                     py "```" ++ W3);
             Parse (dumps v)]).
Proof.
  intros Hv He _ Ht H0 H1 H2 H3 _ Hp Ho.
  remember (W0 ++ py "```" ++ tag ++ W1 ++ J ++ W2 ++ py "```" ++ W3)
    as t eqn:Et in *.
  assert (Hl : loads t = Raise JSONDecodeError).
  { subst t. apply (loads_fence W0 _ H0). }
  assert (Hf0 : fix_json (Some t) = Ok (Some (dumps v))).
  { subst t. unfold fix_json, fix_json_body.
    rewrite (fenced_json_cleaned J tag W0 W1 W2 W3 v) by assumption.
    rewrite (try_parse_loads _ _ Hv). reflexivity. }
  assert (Hld : loads (dumps v) = Ok v)
    by (apply loads_dumps; exact (loads_well_formed _ _ Hv)).
  assert (Hf : fix_json (@Some str t) = Ok (Some (dumps v))) by exact Hf0.
  unfold chain1_planning, planning_try. rewrite Ho, Hl, Hf.
  destruct (dumps v) as [|c d] eqn:Ed; [destruct (dumps_nonempty v Ed)|].
  cbn [nonempty]. rewrite Hld. unfold show_plan, print. rewrite Ed, Hp.
  rewrite <- !app_assoc. reflexivity.
Qed.

Lemma balanced_candidate_shape_witness :
  find_char (ch "{") (pyq "x {'a': {}} y") = Some 2 /\
  balanced_candidate (pyq "x {'a': {}} y") 2 = Some (pyq "{'a': {}}") /\
  count_char (ch "{") (pyq "{'a': {}}") = count_char (ch "}") (pyq "{'a': {}}").
Proof.
  split; [reflexivity|]. split; [reflexivity|].
  exact (proj1 (proj2 (proj2
    (balanced_candidate_shape (pyq "x {'a': {}} y") 2
       (pyq "{'a': {}}") eq_refl eq_refl)))).
Defined.

Lemma outer_braces_span_witness :
  count_char (ch "{") (py "plan: ") = 0 /\
  re_search re_outer_braces (py "plan: " ++ ch "{" :: pyq "'a': '}'" ++
                             ch "}" :: py " done") =
    Some (ch "{" :: pyq "'a': '}'" ++ [ch "}"]).
Proof.
  split; [reflexivity|].
  exact (proj1 (outer_braces_span (py "plan: ") (pyq "'a': '}'")
                  (py " done") eq_refl) eq_refl).
Defined.

Lemma result_parts_joined_witness :
  forallb readable two_parts = true /\
  _extract_text_from_response
    (Response AttrRaises (Attr (ResultObj (Attr two_parts))) AttrRaises)
  = Ok (Some (py "first" ++ [LF] ++ py "second")).
Proof.
  split; [reflexivity|].
  exact (result_parts_joined AttrRaises two_parts AttrRaises
           eq_refl ltac:(discriminate) eq_refl).
Defined.

Lemma failing_part_loses_all_witness :
  forallb readable [Part (Attr (py "first")); Part AttrRaises] = false /\
  _extract_text_from_response
    (Response NoAttr
       (Attr (ResultObj (Attr [Part (Attr (py "first")); Part AttrRaises])))
       (Attr [Candidate NoAttr (Attr (py "other"))]))
  = Ok None.
Proof.
  split; [reflexivity|].
  exact (failing_part_loses_all NoAttr
           [Part (Attr (py "first")); Part AttrRaises]
           (Attr [Candidate NoAttr (Attr (py "other"))]) eq_refl eq_refl).
Defined.

Lemma candidate_parts_joined_witness :
  _extract_text_from_response
    (Response NoAttr NoAttr
       (Attr [Candidate (Attr (Content (Attr two_parts))) AttrRaises;
              Candidate (Attr (Content (Attr [Part (Attr (py "third"))])))
                        (Attr (py "unused"))]))
  = Ok (Some (py "first" ++ [LF] ++ py "second" ++ [LF] ++ py "third")).
Proof.
  refine (candidate_parts_joined NoAttr
            [Candidate (Attr (Content (Attr two_parts))) AttrRaises;
             Candidate (Attr (Content (Attr [Part (Attr (py "third"))])))
                       (Attr (py "unused"))] eq_refl _).
  repeat constructor; discriminate.
Defined.

Lemma salvaged_steps_are_lines_witness :
  In (py "Rest 30 seconds") (salvage_lines three_lines) /\
  10 < length (py "Rest 30 seconds").
Proof.
  assert (H : In (py "Rest 30 seconds") (salvage_lines three_lines))
    by (vm_compute; tauto).
  split; [exact H|].
  exact (proj1 (salvaged_steps_are_lines three_lines _ H)).
Defined.

End Proofs.

(** * Counterexamples and instances

    Closed statements, on the float instance [NanFloat]. *)

#[local] Existing Instance NanFloat.

(** C3 (as stated) fails: with the mock text loaded, the execution stage
    of the sample run returns the mock text and makes no call of the
    service, and the trace of the whole run holds the read of the artifact,
    its parse and the write of the guide only. *)
Lemma mock_execution_skips_service :
  ~ execution_calls_service (F := NanFloat) sample_env (Some sample_artifact)
      sample_request (PyDict [(py "steps", PyList [PyStr (py "Warm up")])]) /\
  main (F := NanFloat) sample_env sample_request true =
    (0, [ReadFile dump_path; Parse sample_artifact;
         WriteFile guide_path sample_artifact true]).
Proof.
  split.
  - intros [prompt H]. vm_compute in H. exact H.
  - vm_compute. reflexivity.
Qed.

Lemma mock_replaces_both_stages_witness :
  sample_artifact <> [] /\
  chain2_execution (F := NanFloat) sample_env (Some sample_artifact)
    sample_request PyNone [] = (Ok sample_artifact, []).
Proof.
  assert (H : sample_artifact <> []) by discriminate.
  split; [exact H|].
  exact (proj1 (proj2 (proj2
    (mock_replaces_both_stages (F := NanFloat) sample_env sample_artifact
       sample_request PyNone [] H)))).
Defined.

(** C1 (as stated) fails: what the heuristic repair makes of the truncated
    input does not parse, so it gives no object at all. *)
Lemma truncated_plan_repair_unparseable :
  ~ repair_recovers_steps (F := NanFloat) truncated_plan (py "Main set").
Proof.
  intros (d & l & H & _). vm_compute in H. discriminate H.
Qed.

(** C5 (as stated) fails on a text that is valid JSON by itself, on the
    empty text and on a fenced text. *)
Lemma lines_become_steps_fails :
  ~ lines_become_steps (F := NanFloat) (pyq "'Do 10 pushups'") /\
  ~ lines_become_steps (F := NanFloat) [] /\
  ~ lines_become_steps (F := NanFloat) (py "```json Do 10 pushups").
Proof.
  repeat split; intros H; specialize (H eq_refl eq_refl); vm_compute in H;
    discriminate H.
Qed.

(** C4 (as stated) fails on an object with a brace inside a string. *)
Lemma brace_in_string_defeats_scan :
  ~ object_survives_prose (F := NanFloat) (pyq "{'a': '}'}") (py " trailing prose").
Proof.
  intros H.
  specialize (H (PyDict (F := NanFloat) [(py "a", PyStr (py "}"))])
                eq_refl eq_refl).
  vm_compute in H. discriminate H.
Qed.

Lemma plan_round_trip_witness :
  plan_shape (sample_plan (F := NanFloat)) = true /\
  loads (dumps (sample_plan (F := NanFloat))) = Ok sample_plan.
Proof.
  assert (H : plan_shape (sample_plan (F := NanFloat)) = true) by reflexivity.
  split; [exact H|].
  exact (proj2 (proj2 (proj2 (plan_round_trip sample_plan H)))).
Defined.

Lemma balanced_object_extracted_witness :
  loads (F := NanFloat) (braced (pyq "'a': [1, 2]")) =
    Ok (PyDict [(py "a", PyList [PyInt 1; PyInt 2])]) /\
  fix_json (F := NanFloat)
    (Some (braced (pyq "'a': [1, 2]") ++ py " is the plan. Good luck!")) =
    Ok (Some (dumps (PyDict [(py "a", PyList [PyInt 1; PyInt 2])]))).
Proof.
  assert (H1 : loads (F := NanFloat) (braced (pyq "'a': [1, 2]")) =
               Ok (PyDict [(py "a", PyList [PyInt 1; PyInt 2])]))
    by reflexivity.
  split; [exact H1|].
  refine (proj1 (proj2 (balanced_object_extracted (F := NanFloat)
            (pyq "'a': [1, 2]") (py " is the plan. Good luck!") _ H1 _))).
  reflexivity.
Defined.

Lemma textless_response_fails_planning_witness :
  textless textless_response = true /\
  fst (chain1_planning (F := NanFloat) textless_env None sample_request [])
    = Raise no_text_error.
Proof.
  assert (H : textless textless_response = true) by reflexivity.
  split; [exact H|].
  exact (f_equal fst (proj2 (proj2
    (textless_response_fails_planning (F := NanFloat) textless_env None
       sample_request [] textless_response eq_refl eq_refl H)))).
Defined.

Lemma planning_failure_dumps_raw_text_witness :
  chain1_planning (F := NanFloat) (prose_env true) None sample_request [] =
    (Raise repair_error,
     snd (chain1_planning (F := NanFloat) (prose_env true) None
            sample_request [])) /\
  fst (chain1_planning (F := NanFloat) (prose_env false) None sample_request [])
    = Raise repair_error.
Proof.
  assert (H : chain1_planning (F := NanFloat) (prose_env true) None
                sample_request [] =
              (Raise repair_error,
               snd (chain1_planning (F := NanFloat) (prose_env true) None
                      sample_request [])))
    by (vm_compute; reflexivity).
  split; [exact H|].
  exact (proj2 (planning_failure_dumps_raw_text (F := NanFloat) (prose_env true)
                  None sample_request [] _ repair_error H)
           (prose_env false) eq_refl).
Defined.

Lemma fix_json_output_parses_witness :
  fix_json (F := NanFloat) (Some truncated_plan) =
    Ok (Some (dumps (fallback_plan [salvaged_fragment]))) /\
  exists v, dumps (fallback_plan [salvaged_fragment]) = dumps v /\
            loads (F := NanFloat) (dumps (fallback_plan [salvaged_fragment])) = Ok v.
Proof.
  assert (H : fix_json (F := NanFloat) (Some truncated_plan) =
              Ok (Some (dumps (fallback_plan [salvaged_fragment]))))
    by (vm_compute; reflexivity).
  split; [exact H|].
  exact (fix_json_output_parses (F := NanFloat) (Some truncated_plan) _ H).
Defined.

Lemma fix_json_idempotent_witness :
  fix_json (F := NanFloat) (Some truncated_plan) =
    Ok (Some (dumps (fallback_plan [salvaged_fragment]))) /\
  fix_json (F := NanFloat) (Some (dumps (fallback_plan [salvaged_fragment]))) =
    Ok (Some (dumps (fallback_plan [salvaged_fragment]))).
Proof.
  assert (H : fix_json (F := NanFloat) (Some truncated_plan) =
              Ok (Some (dumps (fallback_plan [salvaged_fragment]))))
    by (vm_compute; reflexivity).
  split; [exact H|].
  exact (fix_json_idempotent (F := NanFloat) (Some truncated_plan) _ H).
Defined.

Lemma fenced_value_recovered_witness :
  loads (F := NanFloat) compact_plan =
    Ok (PyDict [(py "steps", PyList [PyStr (py "Warm up"); PyStr (py "Run")])]) /\
  fix_json (F := NanFloat)
    (Some ([] ++ py "```" ++ py "JSON" ++ [LF] ++ compact_plan ++ [LF] ++
           py "```" ++ [LF])) =
    Ok (Some (dumps
      (PyDict [(py "steps", PyList [PyStr (py "Warm up"); PyStr (py "Run")])]))).
Proof.
  assert (H : loads (F := NanFloat) compact_plan =
              Ok (PyDict [(py "steps",
                           PyList [PyStr (py "Warm up"); PyStr (py "Run")])]))
    by reflexivity.
  split; [exact H|].
  exact (fenced_value_recovered (F := NanFloat) compact_plan _ (py "JSON")
           [] [LF] [LF] [LF] H eq_refl eq_refl eq_refl eq_refl eq_refl eq_refl
           eq_refl).
Defined.

Lemma fix_json_long_line_succeeds_witness :
  existsb long_line (input_lines (cleaned (Some braced_advice))) = true /\
  exists out, fix_json (F := NanFloat) (Some braced_advice) = Ok (Some out).
Proof.
  assert (H : existsb long_line (input_lines (cleaned (Some braced_advice)))
              = true) by reflexivity.
  split; [exact H|].
  exact (fix_json_long_line_succeeds (F := NanFloat) (Some braced_advice)
           eq_refl eq_refl H).
Defined.

Lemma planning_success_trace_witness :
  chain1_planning (F := NanFloat) sample_env (Some sample_artifact)
    sample_request [] =
    (Ok (PyDict [(py "steps", PyList [PyStr (py "Warm up")])]),
     [Parse sample_artifact]) /\
  exists pre txt,
    [Parse sample_artifact] = [] ++ pre ++ [Parse txt] /\
    loads (F := NanFloat) txt =
      Ok (PyDict [(py "steps", PyList [PyStr (py "Warm up")])]) /\
    existsb is_write pre = false.
Proof.
  assert (H : chain1_planning (F := NanFloat) sample_env (Some sample_artifact)
                sample_request [] =
              (Ok (PyDict [(py "steps", PyList [PyStr (py "Warm up")])]),
               [Parse sample_artifact])) by (vm_compute; reflexivity).
  split; [exact H|].
  exact (planning_success_trace (F := NanFloat) sample_env
           (Some sample_artifact) sample_request [] _ _ H).
Defined.

Lemma repair_parse_error_unreachable_witness :
  fst (chain1_planning (F := NanFloat) advice_env None sample_request [])
    <> Raise repair_parse_error.
Proof.
  apply (repair_parse_error_unreachable (F := NanFloat) advice_env None
           sample_request []).
  discriminate.
Defined.

Lemma blank_response_fails_repair_witness :
  forallb isspace [ch " "; LF] = true /\
  exists w1 w2,
    chain1_planning (F := NanFloat) blank_env None sample_request [] =
    (Raise repair_error,
     [Generate (planning_prompt sample_request)] ++
     [Parse [ch " "; LF]; Repair [ch " "; LF];
      WriteFile dump_path [ch " "; LF] w1;
      WriteFile dump_path [ch " "; LF] w2]).
Proof.
  split; [reflexivity|].
  exact (blank_response_fails_repair (F := NanFloat) blank_env None
           sample_request [] _ [ch " "; LF] eq_refl eq_refl).
Defined.

Lemma planning_accepts_long_lines_witness :
  opens_no_value (strip prose_advice) = true /\
  fst (chain1_planning (F := NanFloat) advice_env None sample_request []) =
    Ok (fallback_plan [prose_advice]).
Proof.
  split; [reflexivity|].
  exact (f_equal fst
    (planning_accepts_long_lines (F := NanFloat) advice_env None
       sample_request [] _ prose_advice eq_refl eq_refl eq_refl eq_refl
       eq_refl eq_refl)).
Defined.

Lemma generate_calls_service_twice_witness :
  generate (F := NanFloat) advice_env None sample_request [] =
    (Ok prose_advice,
     snd (generate (F := NanFloat) advice_env None sample_request [])) /\
  exists plan pre,
    fst (chain1_planning (F := NanFloat) advice_env None sample_request [])
      = Ok plan /\
    snd (generate (F := NanFloat) advice_env None sample_request []) =
      [] ++ Generate (planning_prompt sample_request) :: pre ++
            [Generate (execution_prompt sample_request plan)] /\
    existsb is_generate pre = false /\ existsb is_write pre = false /\
    prose_advice <> [].
Proof.
  assert (H : generate (F := NanFloat) advice_env None sample_request [] =
              (Ok prose_advice,
               snd (generate (F := NanFloat) advice_env None sample_request [])))
    by (vm_compute; reflexivity).
  split; [exact H|].
  exact (generate_calls_service_twice (F := NanFloat) advice_env None
           sample_request [] _ prose_advice eq_refl H).
Defined.

Lemma guide_written_last_witness :
  main (F := NanFloat) sample_env sample_request true =
    (0, [ReadFile dump_path; Parse sample_artifact;
         WriteFile guide_path sample_artifact true]) /\
  exists pre,
    [ReadFile dump_path; Parse sample_artifact;
     WriteFile guide_path sample_artifact true] =
    pre ++ [WriteFile guide_path sample_artifact true] /\
    existsb is_write pre = false.
Proof.
  assert (H : main (F := NanFloat) sample_env sample_request true =
              (0, [ReadFile dump_path; Parse sample_artifact;
                   WriteFile guide_path sample_artifact true]))
    by (vm_compute; reflexivity).
  split; [exact H|].
  refine (proj2 (proj2 (proj2
    (guide_written_last (F := NanFloat) sample_env sample_request true
       _ _ sample_artifact true H _)))).
  right. right. left. reflexivity.
Defined.


Lemma fenced_plan_accepted_witness :
  loads (F := NanFloat) (dumps sample_plan) = Ok sample_plan /\
  fst (chain1_planning (F := NanFloat) fenced_env None sample_request [])
    = Ok sample_plan.
Proof.
  assert (H : loads (F := NanFloat) (dumps sample_plan) = Ok sample_plan)
    by (vm_compute; reflexivity).
  split; [exact H|].
  exact (f_equal fst
    (fenced_plan_accepted (F := NanFloat) fenced_env None sample_request []
       _ (dumps sample_plan) sample_plan (py "json") [] [LF] [LF] [LF]
       H eq_refl eq_refl eq_refl eq_refl eq_refl eq_refl eq_refl eq_refl
       eq_refl eq_refl)).
Defined.

Lemma cut_value_repaired_witness :
  plain_pairs [(py "goal", py "run 5k"); (py "level", py "begin" ++ py "ner")]
    = true /\
  fix_json (F := NanFloat)
    (Some (pyq "{
  'goal': 'run 5k',
  'level': 'begin")) =
  Ok (Some (pyq "{
  'goal': 'run 5k',
  'level': 'begin'
}")).
Proof.
  split; [reflexivity|].
  exact (cut_value_repaired (F := NanFloat) [(py "goal", py "run 5k")]
           (py "level") (py "begin") (py "ner") eq_refl eq_refl eq_refl).
Defined.


Lemma line_salvage_of_long_lines_witness :
  contains (py "{") three_lines = false /\
  fix_json (F := NanFloat) (Some three_lines) =
    Ok (Some (dumps (fallback_plan
      [py "Do 10 pushups"; py "Rest 30 seconds"; py "Repeat 3 times"]))).
Proof.
  split; [reflexivity|].
  exact (proj1 (line_salvage_of_long_lines (F := NanFloat) three_lines
                  eq_refl eq_refl eq_refl eq_refl)).
Defined.

